(** * native-audio-node: the N-API bindings of the audio capture sessions

    A shallow embedding of [src/native/cpp/audiotee_napi.cpp] and
    [src/native/cpp/coreaudio_napi.cpp]: the event queue shared between the
    capture callbacks and the polling host thread, the session wrapper
    (constructor, destructor, start, stop, isRunning, processEvents), the
    one-shot permission request and the decoder of the device list.

    Conventions.
    - A [double] is a primitive binary64 float; the bindings never compute
      with one, they only move it across the boundary.
    - An [int32_t] / [uint32_t] is a [Z]; where the source casts or adds, the
      wrap-around is written out ([wrap_int32]).
    - A pointer is a [Z] address, [0] being [nullptr].
    - [std::lock_guard] makes [QueueEvent] and [DrainEvents] critical
      sections: each is one atomic transition of the wrapper. *)

From Stdlib Require Import ZArith String Ascii Strings.Byte List Floats Lia Bool.
From stdpp Require Import gmap strings list pretty.
Import ListNotations.
Local Open Scope Z_scope.
Set Warnings "-register-all".

(* ===================================================================== *)
(** ** Machine integers and memory                                        *)
(* ===================================================================== *)

Definition wrap_int32 (z : Z) : Z := (z + 2 ^ 31) mod 2 ^ 32 - 2 ^ 31.
Definition wrap_uint32 (z : Z) : Z := z mod 2 ^ 32.

(** What the bindings read through raw pointers: single bytes, and the
    NUL-terminated text that [std::string] and [Napi::String::New] copy out
    of a non-null [const char*]. *)
Record Memory := {
  load_byte : Z -> byte;
  load_c_str : Z -> string
}.

Definition byte_value (b : byte) : Z := Z.of_N (Byte.to_N b).

(** [v.assign(p, p + n)]: the bytes at [p], [p+1], ... , [p+n-1]. *)
Definition load_bytes (mem : Memory) (p : Z) (n : nat) : list byte :=
  map (fun i => load_byte mem (p + Z.of_nat i)) (seq 0 n).

(** Little-endian unsigned load of [n] bytes (arm64 and x86-64 macOS). *)
Fixpoint load_le (mem : Memory) (p : Z) (n : nat) : Z :=
  match n with
  | O => 0
  | S k => Z.lor (byte_value (load_byte mem p)) (Z.shiftl (load_le mem (p + 1) k) 8)
  end.

Definition load_ptr (mem : Memory) (p : Z) : Z := load_le mem p 8.
Definition load_uint32 (mem : Memory) (p : Z) : Z := load_le mem p 4.
Definition load_bool (mem : Memory) (p : Z) : bool :=
  negb (byte_value (load_byte mem p) =? 0).

(** The binary64 value with a given 64-bit pattern. *)
Definition double_of_bits (bits : Z) : float :=
  let sign := Z.testbit bits 63 in
  let e := Z.land (Z.shiftr bits 52) 2047 in
  let m := Z.land bits (2 ^ 52 - 1) in
  SF2Prim
    (if e =? 0 then
       if m =? 0 then S754_zero sign else S754_finite sign (Z.to_pos m) (-1074)
     else if e =? 2047 then
       if m =? 0 then S754_infinity sign else S754_nan
     else S754_finite sign (Z.to_pos (m + 2 ^ 52)) (e - 1075)).

Definition load_double (mem : Memory) (p : Z) : float :=
  double_of_bits (load_le mem p 8).

(** Integer to double conversions done implicitly by [Napi::Number::New]. *)
Definition double_of_uint32 (n : Z) : float :=
  PrimFloat.of_uint63 (Uint63.of_Z n).

Definition double_of_int32 (n : Z) : float :=
  if n <? 0 then PrimFloat.opp (PrimFloat.of_uint63 (Uint63.of_Z (- n)))
  else PrimFloat.of_uint63 (Uint63.of_Z n).

(** [napi_get_value_int32] as [Napi::Number::Int32Value] uses it: a
    non-finite number gives 0, any other is truncated toward zero and
    reduced to its low 32 bits. *)
Definition Int32Value (d : float) : Z :=
  match Prim2SF d with
  | S754_finite s m e =>
      let magnitude :=
        if 0 <=? e then Z.pos m * 2 ^ e else Z.pos m / 2 ^ (- e) in
      wrap_int32 (if s then - magnitude else magnitude)
  | _ => 0
  end.

(** [std::to_string(int32_t)]: decimal digits, a leading minus sign for a
    negative value. *)
Definition to_string (n : Z) : string := pretty n.

(* ===================================================================== *)
(** ** Host values                                                        *)
(* ===================================================================== *)

Inductive JsValue : Type :=
  | JsUndefined
  | JsNull
  | JsBoolean (b : bool)
  | JsNumber (d : float)
  | JsString (s : string)
  | JsFunction (f : nat)
  | JsBuffer (bytes : list byte)
  | JsArray (elems : list JsValue)
  | JsObject (props : list (string * JsValue)).

Inductive JsError : Type :=
  | TypeError (msg : string)
  | Error (msg : string).

(** What a native method hands back to the host: its return value and the
    exception [ThrowAsJavaScriptException] left pending, if any. *)
Record CallResult := {
  returned : JsValue;
  thrown : option JsError
}.

Definition IsNumber (v : JsValue) : bool :=
  match v with JsNumber _ => true | _ => false end.
Definition IsBoolean (v : JsValue) : bool :=
  match v with JsBoolean _ => true | _ => false end.
Definition IsString (v : JsValue) : bool :=
  match v with JsString _ => true | _ => false end.
Definition IsArray (v : JsValue) : bool :=
  match v with JsArray _ => true | _ => false end.
Definition IsFunction (v : JsValue) : bool :=
  match v with JsFunction _ => true | _ => false end.
(** [Napi::Value::IsObject]: [napi_object] or [napi_function]. *)
Definition IsObject (v : JsValue) : bool :=
  match v with
  | JsObject _ | JsArray _ | JsBuffer _ | JsFunction _ => true
  | _ => false
  end.

Fixpoint find_prop (key : string) (props : list (string * JsValue)) : option JsValue :=
  match props with
  | [] => None
  | (k, v) :: rest => if String.eqb k key then Some v else find_prop key rest
  end.

(** [obj.Has(key)] and [obj.Get(key)] for the named keys the bindings ask
    for; only a plain object carries such properties. *)
Definition Has (obj : JsValue) (key : string) : bool :=
  match obj with
  | JsObject props => match find_prop key props with Some _ => true | None => false end
  | _ => false
  end.

Definition Get (obj : JsValue) (key : string) : JsValue :=
  match obj with
  | JsObject props => match find_prop key props with Some v => v | None => JsUndefined end
  | _ => JsUndefined
  end.

(** [obj.Set(key, v)] on the property list of an object. *)
Fixpoint ObjSet (key : string) (v : JsValue) (props : list (string * JsValue))
  : list (string * JsValue) :=
  match props with
  | [] => [(key, v)]
  | (k, old) :: rest =>
      if String.eqb k key then (k, v) :: rest else (k, old) :: ObjSet key v rest
  end.

(** [info[i]]; an index past [info.Length()] reads as undefined. *)
Definition arg (info : list JsValue) (i : nat) : JsValue := nth i info JsUndefined.

(* ===================================================================== *)
(** ** The event queue                                                    *)
(* ===================================================================== *)

(** [struct AudioEvent]. The scalar members a callback does not assign are
    indeterminate ([AudioEvent event;] default-initialises): [None]. *)
Record AudioEvent := {
  type : Z;                       (* 0=data, 1=start, 2=stop, 3=error, 4=metadata *)
  data : list byte;
  message : string;
  sampleRate : option float;
  channelsPerFrame : option Z;
  bitsPerChannel : option Z;
  isFloat : option bool;
  encoding : string
}.

Definition Handle := Z.

(** The data members of [AudioTeeWrapper] / [AudioRecorderWrapper]
    ([eventMutex_] is the atomicity of the two queue operations). *)
Record Wrapper := {
  handle_ : Handle;
  eventQueue_ : list AudioEvent;
  isDestroyed_ : bool
}.

Definition set_queue (q : list AudioEvent) (w : Wrapper) : Wrapper :=
  {| handle_ := handle_ w; eventQueue_ := q; isDestroyed_ := isDestroyed_ w |}.

(** [eventQueue_.push(std::move(event))] under the lock. *)
Definition QueueEvent (event : AudioEvent) (w : Wrapper) : Wrapper :=
  set_queue (eventQueue_ w ++ [event]) w.

(** The [while (!eventQueue_.empty())] loop: move the front to the back of
    [events], pop. Returns the queue left behind and the events. *)
Fixpoint DrainEvents_loop (queue events : list AudioEvent)
  : list AudioEvent * list AudioEvent :=
  match queue with
  | [] => (queue, events)
  | front :: rest => DrainEvents_loop rest (events ++ [front])
  end.

Definition DrainEvents (w : Wrapper) : list AudioEvent * Wrapper :=
  let '(queue, events) := DrainEvents_loop (eventQueue_ w) [] in
  (events, set_queue queue w).

(** A run of [QueueEvent] calls in the order the lock serialised them. *)
Definition QueueEvents (events : list AudioEvent) (w : Wrapper) : Wrapper :=
  fold_left (fun w event => QueueEvent event w) events w.

(* ===================================================================== *)
(** ** Producer callbacks                                                 *)
(* ===================================================================== *)

(** One invocation of a callback entry point by the capture session, with
    the arguments of its C signature ([context] is the wrapper). *)
Inductive Callback : Type :=
  | CallOnData (data : Z) (length : Z)
  | CallOnEvent (eventType : Z) (message : Z)
  | CallOnMetadata (sampleRate : float) (channelsPerFrame bitsPerChannel : Z)
                   (isFloat : bool) (encoding : Z).

(** [event.data.assign(data, data + length)] with a negative [length]: the
    range is longer than any vector can be, [assign] throws
    [std::length_error], and the callback is left before [QueueEvent]. *)
Definition assign_throws (length : Z) : bool := length <? 0.

(** The event [OnData] builds from [length >= 0] bytes. *)
Definition OnData_event (mem : Memory) (data_ptr length : Z) : AudioEvent :=
  {| type := 0;
     data := load_bytes mem data_ptr (Z.to_nat length);
     message := "";
     sampleRate := None; channelsPerFrame := None; bitsPerChannel := None;
     isFloat := None;
     encoding := "" |}.

(** eventType from Swift: 0=start, 1=stop, 2=error; remapped to 1, 2, 3. *)
Definition OnEvent_event (mem : Memory) (eventType message_ptr : Z) : AudioEvent :=
  {| type := wrap_int32 (eventType + 1);
     data := [];
     message := if message_ptr =? 0 then "" else load_c_str mem message_ptr;
     sampleRate := None; channelsPerFrame := None; bitsPerChannel := None;
     isFloat := None;
     encoding := "" |}.

Definition OnMetadata_event (mem : Memory) (rate : float) (channels bits : Z)
    (is_float : bool) (encoding_ptr : Z) : AudioEvent :=
  {| type := 4;
     data := [];
     message := "";
     sampleRate := Some rate;
     channelsPerFrame := Some channels;
     bitsPerChannel := Some bits;
     isFloat := Some is_float;
     encoding := if encoding_ptr =? 0 then "" else load_c_str mem encoding_ptr |}.

(** What each callback does to the wrapper. [OnData] with a negative
    [length] leaves it as it is: the exception of [assign] ends the callback
    before anything is queued (see [throws]). *)
Definition OnData (mem : Memory) (data_ptr length : Z) (self : Wrapper) : Wrapper :=
  if isDestroyed_ self then self
  else if assign_throws length then self
  else QueueEvent (OnData_event mem data_ptr length) self.

Definition OnEvent (mem : Memory) (eventType message_ptr : Z) (self : Wrapper) : Wrapper :=
  if isDestroyed_ self then self
  else QueueEvent (OnEvent_event mem eventType message_ptr) self.

Definition OnMetadata (mem : Memory) (rate : float) (channels bits : Z)
    (is_float : bool) (encoding_ptr : Z) (self : Wrapper) : Wrapper :=
  if isDestroyed_ self then self
  else QueueEvent (OnMetadata_event mem rate channels bits is_float encoding_ptr) self.

(** The callbacks that, once past their destroyed check, end in an
    exception instead of a push: [OnData] with a negative length. *)
Definition throws (c : Callback) : bool :=
  match c with
  | CallOnData _ n => assign_throws n
  | _ => false
  end.

(** The event a callback builds once it is past its destroyed check, if it
    does not throw. *)
Definition callback_event (mem : Memory) (c : Callback) : AudioEvent :=
  match c with
  | CallOnData d n => OnData_event mem d n
  | CallOnEvent t m => OnEvent_event mem t m
  | CallOnMetadata r ch b f e => OnMetadata_event mem r ch b f e
  end.

(** A callback run to completion with nothing interleaved. *)
Definition invoke (mem : Memory) (c : Callback) (self : Wrapper) : Wrapper :=
  match c with
  | CallOnData d n => OnData mem d n self
  | CallOnEvent t m => OnEvent mem t m self
  | CallOnMetadata r ch b f e => OnMetadata mem r ch b f e self
  end.

Definition invoke_all (mem : Memory) (cs : list Callback) (self : Wrapper) : Wrapper :=
  fold_left (fun w c => invoke mem c w) cs self.

(* ===================================================================== *)
(** ** The capture session the wrapper drives                             *)
(* ===================================================================== *)

Module SystemAudio.
(** The arguments of [audiotee_start] / [coreaudio_start_system_audio]
    after the handle. A pointer to an [int32_t] array is the array, [None]
    for [nullptr]. *)
Record Args := {
  sampleRate : float;
  chunkDurationMs : float;
  mute : bool;
  isMono : bool;
  includeProcesses : option (list Z);
  includeProcessCount : Z;
  excludeProcesses : option (list Z);
  excludeProcessCount : Z
}.
End SystemAudio.

Module Microphone.
(** The arguments of [coreaudio_start_microphone] after the handle;
    [deviceUID] is [None] for [nullptr] (the default device). *)
Record Args := {
  sampleRate : float;
  chunkDurationMs : float;
  isMono : bool;
  deviceUID : option string;
  gain : float
}.
End Microphone.

(** The C interface of [audiotee_bridge.h] / [coreaudio_bridge.h] for one
    session, over the collaborator's own state [St]. The [audiotee_*]
    functions are the [coreaudio_*] ones under another prefix. *)
Class CaptureSession (St : Type) := {
  coreaudio_create : St -> Handle * St;
  coreaudio_start_system_audio : Handle -> SystemAudio.Args -> St -> Z * St;
  coreaudio_start_microphone : Handle -> Microphone.Args -> St -> Z * St;
  coreaudio_stop : Handle -> St -> Z * St;
  coreaudio_destroy : Handle -> St -> St;
  coreaudio_is_running : Handle -> St -> bool
}.

Inductive Binding : Type := AudioTeeNative | AudioRecorderNative.

Definition create_error (b : Binding) : string :=
  match b with
  | AudioTeeNative => "Failed to create AudioTee session"
  | AudioRecorderNative => "Failed to create AudioRecorder session"
  end.

Definition start_error (b : Binding) : string :=
  match b with
  | AudioTeeNative => "Failed to start AudioTee: error code "
  | AudioRecorderNative => "Failed to start system audio recording: error code "
  end.

Definition start_microphone_error : string :=
  "Failed to start microphone recording: error code ".

Definition stop_error (b : Binding) : string :=
  match b with
  | AudioTeeNative => "Failed to stop AudioTee"
  | AudioRecorderNative => "Failed to stop recording"
  end.

Record World (St : Type) := {
  wrapper : Wrapper;
  session : St
}.
Arguments wrapper {St} _.
Arguments session {St} _.

(** [As<Napi::Number>().DoubleValue()] and friends, used behind a type test. *)
Definition DoubleValue (v : JsValue) : float :=
  match v with JsNumber d => d | _ => 0%float end.
Definition BooleanValue (v : JsValue) : bool :=
  match v with JsBoolean b => b | _ => false end.
Definition Utf8Value (v : JsValue) : string :=
  match v with JsString s => s | _ => "" end.
Definition Elements (v : JsValue) : list JsValue :=
  match v with JsArray l => l | _ => [] end.

(** The [for (i < arr.Length())] loop over a process array. *)
Fixpoint push_process_ids (elems : list JsValue) (processes : list Z) : list Z :=
  match elems with
  | [] => processes
  | v :: rest =>
      push_process_ids rest
        (if IsNumber v then processes ++ [Int32Value (DoubleValue v)] else processes)
  end.

Definition option_double (options : JsValue) (key : string) (default : float) : float :=
  if Has options key && IsNumber (Get options key)
  then DoubleValue (Get options key) else default.

Definition option_processes (options : JsValue) (key : string) : list Z :=
  if Has options key && IsArray (Get options key)
  then push_process_ids (Elements (Get options key)) [] else [].

(** [v.empty() ? nullptr : v.data()] *)
Definition data_or_null (v : list Z) : option (list Z) :=
  match v with [] => None | _ => Some v end.

(** "Extract options with defaults" of [Start] / [StartSystemAudio]. *)
Definition system_audio_args (options : JsValue) : SystemAudio.Args :=
  let sampleRate := option_double options "sampleRate" 0%float in
  let chunkDurationMs := option_double options "chunkDurationMs" 200%float in
  let mute :=
    if Has options "mute" && IsBoolean (Get options "mute")
    then BooleanValue (Get options "mute") else false in
  let isMono :=
    if Has options "stereo" && IsBoolean (Get options "stereo")
    then negb (BooleanValue (Get options "stereo")) else true in
  let includeProcesses := option_processes options "includeProcesses" in
  let excludeProcesses := option_processes options "excludeProcesses" in
  {| SystemAudio.sampleRate := sampleRate;
     SystemAudio.chunkDurationMs := chunkDurationMs;
     SystemAudio.mute := mute;
     SystemAudio.isMono := isMono;
     SystemAudio.includeProcesses := data_or_null includeProcesses;
     SystemAudio.includeProcessCount := wrap_int32 (Z.of_nat (length includeProcesses));
     SystemAudio.excludeProcesses := data_or_null excludeProcesses;
     SystemAudio.excludeProcessCount := wrap_int32 (Z.of_nat (length excludeProcesses)) |}.

(** [std::string::c_str()] as the callee reads it: the characters before
    the first NUL. *)
Fixpoint c_str (s : string) : string :=
  match s with
  | EmptyString => EmptyString
  | String ch rest => if Ascii.eqb ch "000"%char then EmptyString else String ch (c_str rest)
  end.

(** "Extract options with defaults" of [StartMicrophone]. [deviceUID] is
    [deviceUIDStr.c_str()]. *)
Definition microphone_args (options : JsValue) : Microphone.Args :=
  let sampleRate := option_double options "sampleRate" 0%float in
  let chunkDurationMs := option_double options "chunkDurationMs" 200%float in
  let isMono :=
    if Has options "stereo" && IsBoolean (Get options "stereo")
    then negb (BooleanValue (Get options "stereo")) else true in
  let deviceUID :=
    if Has options "deviceId" && IsString (Get options "deviceId")
    then Some (c_str (Utf8Value (Get options "deviceId"))) else None in
  let gain := option_double options "gain" 1%float in
  {| Microphone.sampleRate := sampleRate;
     Microphone.chunkDurationMs := chunkDurationMs;
     Microphone.isMono := isMono;
     Microphone.deviceUID := deviceUID;
     Microphone.gain := gain |}.

(* ===================================================================== *)
(** ** The session wrapper                                                *)
(* ===================================================================== *)

Section SessionWrapper.
Context {St : Type} `{CaptureSession St}.

Definition set_wrapper (w : Wrapper) (world : World St) : World St :=
  {| wrapper := w; session := session world |}.

(** [AudioTeeWrapper::AudioTeeWrapper] / [AudioRecorderWrapper::AudioRecorderWrapper] *)
Definition Constructor (b : Binding) (collaborator : St) : CallResult * World St :=
  let '(handle, collaborator') := coreaudio_create collaborator in
  let self := {| handle_ := handle; eventQueue_ := []; isDestroyed_ := false |} in
  ({| returned := JsUndefined;
      thrown := if handle =? 0 then Some (Error (create_error b)) else None |},
   {| wrapper := self; session := collaborator' |}).

(** The destructor, statement by statement: [isDestroyed_ = true;] *)
Definition Destructor_set_flag (self : Wrapper) : Wrapper :=
  {| handle_ := handle_ self; eventQueue_ := eventQueue_ self; isDestroyed_ := true |}.

(** ... then [if (handle_) { destroy(handle_); handle_ = nullptr; }] *)
Definition Destructor_release (world : World St) : World St :=
  let self := wrapper world in
  if handle_ self =? 0 then world
  else {| wrapper := {| handle_ := 0;
                        eventQueue_ := eventQueue_ self;
                        isDestroyed_ := isDestroyed_ self |};
          session := coreaudio_destroy (handle_ self) (session world) |}.

(** The whole destructor. When its body is done the members are destroyed
    and the object is gone: what is left is the session. *)
Definition Destructor (world : World St) : St :=
  session (Destructor_release (set_wrapper (Destructor_set_flag (wrapper world)) world)).

(** [AudioTeeWrapper::Start] ([b = AudioTeeNative]) and
    [AudioRecorderWrapper::StartSystemAudio] ([b = AudioRecorderNative]). *)
Definition Start (b : Binding) (info : list JsValue) (world : World St)
  : CallResult * World St :=
  if (length info <? 1)%nat || negb (IsObject (arg info 0)) then
    ({| returned := JsNull; thrown := Some (TypeError "Options object expected") |},
     world)
  else
    let options := arg info 0 in
    let '(result, collaborator') :=
      coreaudio_start_system_audio (handle_ (wrapper world))
        (system_audio_args options) (session world) in
    let world' := {| wrapper := wrapper world; session := collaborator' |} in
    if negb (result =? 0) then
      ({| returned := JsNull;
          thrown := Some (Error (start_error b +:+ to_string result)) |}, world')
    else ({| returned := JsUndefined; thrown := None |}, world').

(** [AudioRecorderWrapper::StartMicrophone] *)
Definition StartMicrophone (info : list JsValue) (world : World St)
  : CallResult * World St :=
  if (length info <? 1)%nat || negb (IsObject (arg info 0)) then
    ({| returned := JsNull; thrown := Some (TypeError "Options object expected") |},
     world)
  else
    let options := arg info 0 in
    let '(result, collaborator') :=
      coreaudio_start_microphone (handle_ (wrapper world))
        (microphone_args options) (session world) in
    let world' := {| wrapper := wrapper world; session := collaborator' |} in
    if negb (result =? 0) then
      ({| returned := JsNull;
          thrown := Some (Error (start_microphone_error +:+ to_string result)) |},
       world')
    else ({| returned := JsUndefined; thrown := None |}, world').

(** [AudioTeeWrapper::Stop] / [AudioRecorderWrapper::Stop] *)
Definition Stop (b : Binding) (world : World St) : CallResult * World St :=
  let '(result, collaborator') := coreaudio_stop (handle_ (wrapper world)) (session world) in
  ({| returned := JsUndefined;
      thrown := if negb (result =? 0) then Some (Error (stop_error b)) else None |},
   {| wrapper := wrapper world; session := collaborator' |}).

(** [IsRunning]: whatever the session reports for the handle. *)
Definition IsRunning (world : World St) : JsValue :=
  JsBoolean (coreaudio_is_running (handle_ (wrapper world)) (session world)).

End SessionWrapper.

(** The object [ProcessEvents] builds for one drained event; [None] where the
    switch would read a member no callback assigned. *)
Definition event_object (event : AudioEvent) : option JsValue :=
  let obj := ObjSet "type" (JsNumber (double_of_int32 (type event))) [] in
  match type event with
  | 0 => Some (JsObject (ObjSet "data" (JsBuffer (data event)) obj))
  | 1 | 2 => Some (JsObject obj)
  | 3 => Some (JsObject (ObjSet "message" (JsString (message event)) obj))
  | 4 =>
      match sampleRate event, channelsPerFrame event, bitsPerChannel event,
            isFloat event with
      | Some rate, Some channels, Some bits, Some is_float =>
          let obj := ObjSet "sampleRate" (JsNumber rate) obj in
          let obj := ObjSet "channelsPerFrame" (JsNumber (double_of_uint32 channels)) obj in
          let obj := ObjSet "bitsPerChannel" (JsNumber (double_of_uint32 bits)) obj in
          let obj := ObjSet "isFloat" (JsBoolean is_float) obj in
          let obj := ObjSet "encoding" (JsString (encoding event)) obj in
          Some (JsObject obj)
      | _, _, _, _ => None
      end
  | _ => Some (JsObject obj)
  end.

(** The [for (i < events.size())] loop filling [result]. *)
Fixpoint ProcessEvents_loop (events : list AudioEvent) (result : list JsValue)
  : option (list JsValue) :=
  match events with
  | [] => Some result
  | event :: rest =>
      match event_object event with
      | Some obj => ProcessEvents_loop rest (result ++ [obj])
      | None => None
      end
  end.

(** [ProcessEvents]: drain, then convert. *)
Definition ProcessEvents (self : Wrapper) : option JsValue * Wrapper :=
  let '(events, self') := DrainEvents self in
  (JsArray <$> ProcessEvents_loop events [], self').

(* ===================================================================== *)
(** ** Callbacks racing the destructor: a step relation                   *)
(* ===================================================================== *)

(** Where one callback invocation stands. *)
Inductive Producer : Type :=
  | Entered (c : Callback)     (* called, [isDestroyed_] not yet read *)
  | Checked (c : Callback)     (* read [isDestroyed_ = false]; builds its event *)
  | Returned.

Inductive DestructorPc : Type :=
  | NotDestroyed               (* the destructor has not started *)
  | FlagSet                    (* [isDestroyed_ = true] done *)
  | Released.                  (* handle released and nulled: the body is done *)

Record System (St : Type) := {
  world : World St;
  producers : list Producer;
  destructor : DestructorPc
}.
Arguments world {St} _.
Arguments producers {St} _.
Arguments destructor {St} _.

Inductive Label : Type :=
  | LInvoke (i : nat) (c : Callback)
  | LCheck (i : nat) (destroyed : bool)
  | LEnqueue (i : nat) (event : AudioEvent)
  | LThrow (i : nat)
  | LSetDestroyed
  | LRelease
  | LDrain (events : list AudioEvent).

Definition is_set_destroyed (l : Label) : bool :=
  match l with LSetDestroyed => true | _ => false end.

Definition is_release (l : Label) : bool :=
  match l with LRelease => true | _ => false end.

Section Steps.
Context {St : Type} `{CaptureSession St}.
Variable mem : Memory.

Inductive step : System St -> Label -> System St -> Prop :=
| step_invoke sys c :
    step sys (LInvoke (length (producers sys)) c)
      {| world := world sys;
         producers := producers sys ++ [Entered c];
         destructor := destructor sys |}
| step_check sys i c :
    producers sys !! i = Some (Entered c) ->
    step sys (LCheck i (isDestroyed_ (wrapper (world sys))))
      {| world := world sys;
         producers :=
           <[i := if isDestroyed_ (wrapper (world sys)) then Returned else Checked c]>
             (producers sys);
         destructor := destructor sys |}
| step_enqueue sys i c :
    producers sys !! i = Some (Checked c) ->
    throws c = false ->
    step sys (LEnqueue i (callback_event mem c))
      {| world := set_wrapper (QueueEvent (callback_event mem c) (wrapper (world sys)))
                    (world sys);
         producers := <[i := Returned]> (producers sys);
         destructor := destructor sys |}
| step_throw sys i c :
    producers sys !! i = Some (Checked c) ->
    throws c = true ->
    step sys (LThrow i)
      {| world := world sys;
         producers := <[i := Returned]> (producers sys);
         destructor := destructor sys |}
| step_set_destroyed sys :
    destructor sys = NotDestroyed ->
    step sys LSetDestroyed
      {| world := set_wrapper (Destructor_set_flag (wrapper (world sys))) (world sys);
         producers := producers sys;
         destructor := FlagSet |}
| step_release sys :
    destructor sys = FlagSet ->
    step sys LRelease
      {| world := Destructor_release (world sys);
         producers := producers sys;
         destructor := Released |}
| step_drain sys :
    step sys (LDrain (fst (DrainEvents (wrapper (world sys)))))
      {| world := set_wrapper (snd (DrainEvents (wrapper (world sys)))) (world sys);
         producers := producers sys;
         destructor := destructor sys |}.

(** Executions with their trace of labels. *)
Inductive exec : System St -> list Label -> System St -> Prop :=
| exec_nil sys : exec sys [] sys
| exec_cons sys l sys' tr sys'' :
    step sys l sys' -> exec sys' tr sys'' -> exec sys (l :: tr) sys''.

(** A freshly constructed wrapper with no callback in flight. *)
Definition initial (sys : System St) : Prop :=
  destructor sys = NotDestroyed /\
  isDestroyed_ (wrapper (world sys)) = false /\
  producers sys = [].

End Steps.

(** The events a trace pushed on the queue, and the events its drains
    returned, both in trace order. *)
Fixpoint enqueued (tr : list Label) : list AudioEvent :=
  match tr with
  | [] => []
  | LEnqueue _ event :: rest => event :: enqueued rest
  | _ :: rest => enqueued rest
  end.

Fixpoint drained (tr : list Label) : list AudioEvent :=
  match tr with
  | [] => []
  | LDrain events :: rest => events ++ drained rest
  | _ :: rest => drained rest
  end.

(* ===================================================================== *)
(** ** Permission requests                                                *)
(* ===================================================================== *)

(** The three request entry points share one body; they differ in the
    collaborator function they hand the context to. *)
Inductive PermissionApi : Type :=
  | audiotee_permission_request
  | coreaudio_system_audio_permission_request
  | coreaudio_mic_permission_request.

(** A [Napi::ThreadSafeFunction]: the host function it calls and the number
    of threads still holding it ([initialThreadCount] is 1). *)
Record ThreadSafeFunction := {
  tsfn_callback : nat;
  tsfn_threads : nat
}.

(** [struct PermissionRequestContext { Napi::ThreadSafeFunction tsfn; }] *)
Record PermissionRequestContext := { tsfn : positive }.

Record Runtime := {
  contexts : gmap positive PermissionRequestContext;  (* live [new]-ed contexts *)
  functions : gmap positive ThreadSafeFunction;       (* thread-safe functions not yet finalised *)
  host_calls : list (nat * bool);     (* [callback.Call({granted})] marshalled to the host thread *)
  requests : list (PermissionApi * positive)  (* (completion, context) pairs handed to the collaborator *)
}.

Definition empty_runtime : Runtime :=
  {| contexts := ∅; functions := ∅; host_calls := []; requests := [] |}.

(** [RequestPermission] / [RequestSystemAudioPermission] / [RequestMicPermission] *)
Definition RequestPermission (api : PermissionApi) (info : list JsValue) (rt : Runtime)
  : CallResult * Runtime :=
  if (length info <? 1)%nat || negb (IsFunction (arg info 0)) then
    ({| returned := JsUndefined;
        thrown := Some (TypeError "Callback function expected") |}, rt)
  else
    match arg info 0 with
    | JsFunction callback =>
        let ctx := fresh (dom (contexts rt)) in
        let handle := fresh (dom (functions rt)) in
        ({| returned := JsUndefined; thrown := None |},
         {| contexts := <[ctx := {| tsfn := handle |}]> (contexts rt);
            functions :=
              <[handle := {| tsfn_callback := callback; tsfn_threads := 1 |}]>
                (functions rt);
            host_calls := host_calls rt;
            requests := requests rt ++ [(api, ctx)] |})
    | _ => ({| returned := JsUndefined; thrown := None |}, rt)
    end.

(** [tsfn.Release()]: one holder less; the function is finalised with the last. *)
Definition Release (handle : positive) (f : ThreadSafeFunction)
    (fs : gmap positive ThreadSafeFunction) : gmap positive ThreadSafeFunction :=
  if (tsfn_threads f <=? 1)%nat then delete handle fs
  else <[handle := {| tsfn_callback := tsfn_callback f;
                      tsfn_threads := pred (tsfn_threads f) |}]> fs.

(** [PermissionRequestCallback] / [SystemAudioPermissionCallback] /
    [MicPermissionCallback]. [None]: the context or its function is no longer
    there to be used (a dangling [context]). *)
Definition PermissionRequestCallback (granted : bool) (context : positive) (rt : Runtime)
  : option Runtime :=
  match contexts rt !! context with
  | None => None
  | Some ctx =>
      match functions rt !! tsfn ctx with
      | None => None
      | Some f =>
          Some {| contexts := delete context (contexts rt);
                  functions := Release (tsfn ctx) f (functions rt);
                  host_calls := host_calls rt ++ [(tsfn_callback f, granted)];
                  requests := requests rt |}
      end
  end.

(* ===================================================================== *)
(** ** Device enumeration                                                 *)
(* ===================================================================== *)

Module DeviceList.
(** What [coreaudio_list_devices(&devices, &count)] returned and left in
    its two out-parameters (initialised to [nullptr] and [0]). *)
Record Reply := {
  result : Z;
  devices : Z;
  count : Z
}.
End DeviceList.

(** Native memory with the device arrays that are allocated, and the calls
    made to [coreaudio_free_device_list] so far: reading a record needs its
    array allocated, freeing an array that is not allocated is an error. *)
Record NativeHeap := {
  memory : Memory;
  device_lists : gset Z;
  freed : list (Z * Z)
}.

Definition coreaudio_free_device_list (devices count : Z) (heap : NativeHeap)
  : option NativeHeap :=
  if decide (devices ∈ device_lists heap)
  then Some {| memory := memory heap;
               device_lists := device_lists heap ∖ {[devices]};
               freed := freed heap ++ [(devices, count)] |}
  else None.

Definition structSize : Z := 48.

(** [p ? p : ""] then [Napi::String::New] *)
Definition string_or_empty (mem : Memory) (p : Z) : string :=
  if p =? 0 then "" else load_c_str mem p.

(** The body of the [for] loop of [ListDevices] for the record at [base]. *)
Definition device_object (mem : Memory) (base : Z) : JsValue :=
  let uid := load_ptr mem (base + 0) in
  let name := load_ptr mem (base + 8) in
  let manufacturer := load_ptr mem (base + 16) in
  let isDefault := load_bool mem (base + 24) in
  let isInput := load_bool mem (base + 25) in
  let isOutput := load_bool mem (base + 26) in
  let sampleRate := load_double mem (base + 32) in
  let channelCount := load_uint32 mem (base + 40) in
  let obj := ObjSet "id" (JsString (string_or_empty mem uid)) [] in
  let obj := ObjSet "name" (JsString (string_or_empty mem name)) obj in
  let obj := ObjSet "manufacturer" (JsString (string_or_empty mem manufacturer)) obj in
  let obj := ObjSet "isDefault" (JsBoolean isDefault) obj in
  let obj := ObjSet "isInput" (JsBoolean isInput) obj in
  let obj := ObjSet "isOutput" (JsBoolean isOutput) obj in
  let obj := ObjSet "sampleRate" (JsNumber sampleRate) obj in
  let obj := ObjSet "channelCount" (JsNumber (double_of_uint32 channelCount)) obj in
  JsObject obj.

(** One pass of the loop body for the record at [base] of the array [ptr]:
    the record and the texts behind its handles are read, which needs the
    array allocated. *)
Definition read_device (heap : NativeHeap) (ptr base : Z) : option JsValue :=
  if decide (ptr ∈ device_lists heap)
  then Some (device_object (memory heap) base) else None.

(** [for (i = 0; i < count; i++)], [remaining] iterations from index [i]. *)
Fixpoint ListDevices_loop (heap : NativeHeap) (ptr i : Z) (remaining : nat)
    (arr : list JsValue) : option (list JsValue) :=
  match remaining with
  | O => Some arr
  | S k =>
      match read_device heap ptr (ptr + i * structSize) with
      | Some obj => ListDevices_loop heap ptr (i + 1) k (arr ++ [obj])
      | None => None
      end
  end.

(** [ListDevices]. A negative [count] past the early return runs the loop
    no time and still frees. [None]: a read from or a free of an array that
    is not allocated. *)
Definition ListDevices (reply : DeviceList.Reply) (heap : NativeHeap)
  : option (CallResult * NativeHeap) :=
  let result := DeviceList.result reply in
  let devices := DeviceList.devices reply in
  let count := DeviceList.count reply in
  if negb (result =? 0) || (devices =? 0) || (count =? 0) then
    Some ({| returned := JsArray []; thrown := None |}, heap)
  else
    match ListDevices_loop heap devices 0 (Z.to_nat count) [] with
    | None => None
    | Some arr =>
        match coreaudio_free_device_list devices count heap with
        | Some heap' => Some ({| returned := JsArray arr; thrown := None |}, heap')
        | None => None
        end
    end.

(* ===================================================================== *)
(** ** A scripted capture session and sample data                         *)
(* ===================================================================== *)

(** A stand-in for the native capture layer, as a test of the wrapper would
    script it: [create] hands out a fixed handle, [start] and [stop] answer
    with fixed status codes and change the running state only when they
    succeed, every call is recorded. *)
Inductive SessionCall : Type :=
  | called_create
  | called_start_system_audio (h : Handle) (args : SystemAudio.Args)
  | called_start_microphone (h : Handle) (args : Microphone.Args)
  | called_stop (h : Handle)
  | called_destroy (h : Handle).

Record ScriptedSession := {
  create_handle : Handle;
  start_status : Z;
  stop_status : Z;
  running : bool;
  calls : list SessionCall
}.

Definition scripted (running' : bool) (call : SessionCall) (s : ScriptedSession)
  : ScriptedSession :=
  {| create_handle := create_handle s;
     start_status := start_status s;
     stop_status := stop_status s;
     running := running';
     calls := calls s ++ [call] |}.

#[export] Instance scripted_session : CaptureSession ScriptedSession := {|
  coreaudio_create s := (create_handle s, scripted (running s) called_create s);
  coreaudio_start_system_audio h args s :=
    (start_status s,
     scripted (if start_status s =? 0 then true else running s)
       (called_start_system_audio h args) s);
  coreaudio_start_microphone h args s :=
    (start_status s,
     scripted (if start_status s =? 0 then true else running s)
       (called_start_microphone h args) s);
  coreaudio_stop h s :=
    (stop_status s,
     scripted (if stop_status s =? 0 then false else running s) (called_stop h) s);
  coreaudio_destroy h s := scripted false (called_destroy h) s;
  coreaudio_is_running h s := running s
|}.

Definition sample_session (start stop : Z) (is_running : bool) : ScriptedSession :=
  {| create_handle := 4096; start_status := start; stop_status := stop;
     running := is_running; calls := [] |}.

(** Memory holding nothing but zero bytes and empty strings. *)
Definition blank_memory : Memory :=
  {| load_byte := fun _ => x00; load_c_str := fun _ => "" |}.

(** Memory with [bytes] laid out from address [base], and the text found at
    the listed addresses. *)
Definition memory_of (base : Z) (bytes : list byte) (texts : list (Z * string)) : Memory :=
  {| load_byte := fun a =>
       if (base <=? a) && (a <? base + Z.of_nat (length bytes))
       then nth (Z.to_nat (a - base)) bytes x00 else x00;
     load_c_str := fun a =>
       match find (fun entry => fst entry =? a) texts with
       | Some entry => snd entry
       | None => ""
       end |}.

Definition started_event : AudioEvent := OnEvent_event blank_memory 0 0.

(** A running wrapper with one lifecycle event queued and not yet drained. *)
Definition world_with_pending_event : World ScriptedSession :=
  {| wrapper := {| handle_ := 4096; eventQueue_ := [started_event]; isDestroyed_ := false |};
     session := sample_session 0 0 true |}.

(** A running wrapper whose session refuses to stop. *)
Definition world_that_fails_to_stop : World ScriptedSession :=
  {| wrapper := {| handle_ := 4096; eventQueue_ := []; isDestroyed_ := false |};
     session := sample_session 0 1 true |}.

(** A created wrapper whose session refuses to start with code -50. *)
Definition world_that_fails_to_start : World ScriptedSession :=
  {| wrapper := {| handle_ := 4096; eventQueue_ := []; isDestroyed_ := false |};
     session := sample_session (-50) 0 false |}.

Definition fresh_wrapper : Wrapper :=
  {| handle_ := 4096; eventQueue_ := []; isDestroyed_ := false |}.

(** Two 48-byte device records at address 8192: the first with all three
    text handles set, default input, 48000 Hz, 2 channels; the second with a
    null manufacturer, output only, 44100 Hz, 1 channel. *)
Definition sample_records : list byte :=
  [ x00; x01; x00; x00; x00; x00; x00; x00;      (* uid = 0x100 *)
    x10; x01; x00; x00; x00; x00; x00; x00;      (* name = 0x110 *)
    x20; x01; x00; x00; x00; x00; x00; x00;      (* manufacturer = 0x120 *)
    x01; x01; x00; x00; x00; x00; x00; x00;      (* isDefault, isInput, isOutput, pad *)
    x00; x00; x00; x00; x00; x70; xe7; x40;      (* 48000.0 *)
    x02; x00; x00; x00; x00; x00; x00; x00;      (* channelCount = 2, pad *)
    x30; x01; x00; x00; x00; x00; x00; x00;      (* uid = 0x130 *)
    x40; x01; x00; x00; x00; x00; x00; x00;      (* name = 0x140 *)
    x00; x00; x00; x00; x00; x00; x00; x00;      (* manufacturer = nullptr *)
    x00; x00; x01; x00; x00; x00; x00; x00;
    x00; x00; x00; x00; x80; x88; xe5; x40;      (* 44100.0 *)
    x01; x00; x00; x00; x00; x00; x00; x00 ].

Definition sample_heap : NativeHeap :=
  {| memory := memory_of 8192 sample_records
                 [(256, "mic-0"); (272, "Built-in Microphone"); (288, "Apple Inc.");
                  (304, "spk-0"); (320, "Speakers")];
     device_lists := {[ 8192 ]};
     freed := [] |}.

Definition sample_reply : DeviceList.Reply :=
  {| DeviceList.result := 0; DeviceList.devices := 8192; DeviceList.count := 2 |}.

(** A wrapper being destroyed while two callbacks are in flight: the first
    reads the flag before the destructor sets it, the second after. *)
Definition sample_system : System ScriptedSession :=
  {| world := {| wrapper := fresh_wrapper; session := sample_session 0 0 true |};
     producers := [];
     destructor := NotDestroyed |}.

Definition sample_trace : list Label :=
  [ LInvoke 0 (CallOnData 0 0);
    LInvoke 1 (CallOnEvent 1 0);
    LCheck 0 false;
    LSetDestroyed;
    LCheck 1 true;
    LEnqueue 0 (OnData_event blank_memory 0 0);
    LRelease;
    LDrain [OnData_event blank_memory 0 0] ].

(** The event [OnData] builds for a chunk of length zero. *)
Definition empty_chunk_event : AudioEvent :=
  {| type := 0; data := []; message := "";
     sampleRate := None; channelsPerFrame := None; bitsPerChannel := None;
     isFloat := None; encoding := "" |}.

(** Options with a sample rate given as text, [stereo] given as a number and
    a process list mixing numbers with other values. *)
Definition sample_options : JsValue :=
  JsObject
    [ ("sampleRate", JsString "44100");
      ("stereo", JsNumber 1%float);
      ("deviceId", JsNull);
      ("includeProcesses",
       JsArray [JsNumber 10%float; JsString "11"; JsNull; JsNumber 20.75%float]) ].

(** A session delivering its format, four bytes of audio and its stop. *)
Definition scenario_memory : Memory :=
  memory_of 1000 [x00; x01; x02; x03] [(2000, "pcm_f32")].

Definition scenario_callbacks : list Callback :=
  [ CallOnMetadata 44100%float 2 32 true 2000;
    CallOnData 1000 4;
    CallOnEvent 1 0 ].





(** Two permission requests outstanding together on a clean runtime. *)
Definition two_requests : Runtime :=
  snd (RequestPermission coreaudio_mic_permission_request [JsFunction 8]
         (snd (RequestPermission audiotee_permission_request [JsFunction 7]
                 empty_runtime))).

(* ===================================================================== *)
(** ** Permission status and default devices                              *)
(* ===================================================================== *)

(** [GetPermissionStatus] / [GetSystemAudioPermissionStatus] /
    [GetMicPermissionStatus], for the status the collaborator returned. *)
Definition GetPermissionStatus (status : Z) : JsValue :=
  let statusStr :=
    match status with
    | 0 => "unknown"
    | 1 => "denied"
    | 2 => "authorized"
    | _ => "unknown"
    end in
  JsString statusStr.

(** [free(p)] on the set of blocks [malloc] handed out and nobody freed yet:
    a null pointer is left alone, a block that is not allocated is an error. *)
Definition free (p : Z) (blocks : gset Z) : option (gset Z) :=
  if p =? 0 then Some blocks
  else if decide (p ∈ blocks) then Some (blocks ∖ {[p]}) else None.

(** [Napi::String::New(env, p)] for a [malloc]ed text: the copy reads the
    block at [p], which has to be allocated. *)
Definition read_text (mem : Memory) (blocks : gset Z) (p : Z) : option string :=
  if decide (p ∈ blocks) then Some (load_c_str mem p) else None.

(** [GetDefaultInputDevice] / [GetDefaultOutputDevice], for the pointer
    [uid] the collaborator returned. *)
Definition GetDefaultDevice (uid : Z) (mem : Memory) (blocks : gset Z)
  : option (JsValue * gset Z) :=
  if uid =? 0 then Some (JsNull, blocks)
  else
    match read_text mem blocks uid with
    | None => None
    | Some text =>
        let result := JsString text in
        match free uid blocks with
        | Some blocks' => Some (result, blocks')
        | None => None
        end
    end.

(** The callbacks that queue an event [ProcessEvents] can convert: all but
    an [OnData] that throws and an [OnEvent] whose code lands on the
    metadata tag 4, an event that carries none of the metadata members. *)
Definition convertible (c : Callback) : bool :=
  match c with
  | CallOnData _ length => negb (assign_throws length)
  | CallOnEvent eventType _ => negb (wrap_int32 (eventType + 1) =? 4)
  | _ => true
  end.

(** Options with every field given in its expected type. *)
Definition typed_options : JsValue :=
  JsObject
    [ ("sampleRate", JsNumber 16000%float);
      ("chunkDurationMs", JsNumber 20%float);
      ("mute", JsBoolean true);
      ("stereo", JsBoolean true);
      ("deviceId", JsString "mic-0");
      ("gain", JsNumber 0.5%float);
      ("excludeProcesses", JsArray [JsNumber 4242%float]) ].

(** A wrapper whose session could not be created. *)
Definition failing_collaborator : ScriptedSession :=
  {| create_handle := 0; start_status := 0; stop_status := 0;
     running := false; calls := [] |}.

(* ===================================================================== *)
(** ** The Windows bridge                                                 *)
(* ===================================================================== *)

(** [src/native/windows/windows_bridge.cpp]. What the operating system, COM
    and the [WasapiCapture] class answer is an input of each function; one
    thread is modelled, with its thread-local [comInitialized]. *)
Module Windows.

(** A [std::wstring], as its characters. *)
Definition wstring := list ascii.
Definition L (s : string) : wstring := list_ascii_of_string s.

(** [hay.rfind(needle)]: the last position at which [needle] occurs in
    [hay], [None] for [npos]; [pos] is the position of the head of [hay]. *)
Fixpoint rfind_from (needle hay : wstring) (pos : nat) : option nat :=
  let here := if decide (needle `prefix_of` hay) then Some pos else None in
  match hay with
  | [] => here
  | _ :: rest =>
      match rfind_from needle rest (S pos) with
      | Some p => Some p
      | None => here
      end
  end.

Definition rfind (needle hay : wstring) : option nat := rfind_from needle hay 0.

(** "Remove .exe extension if present": [extPos == name.length() - 4] is
    only evaluated when [rfind] found the four characters, so the unsigned
    subtraction cannot wrap where it matters. *)
Definition remove_exe_extension (name : wstring) : wstring :=
  match rfind (L ".exe") name with
  | Some extPos => if (extPos =? length name - 4)%nat then take extPos name else name
  | None => name
  end.

(** The process calls of the operating system: [OpenProcess] gives a handle
    or 0, [GetModuleBaseNameW] the characters it copied (none when it
    returns 0). *)
Record ProcessTable := {
  OpenProcess : Z -> Z;
  GetModuleBaseNameW : Z -> wstring
}.

(** [GetProcessNameFromPid]: the name, and the handles given to
    [CloseHandle]. *)
Definition GetProcessNameFromPid (os : ProcessTable) (pid : Z) : wstring * list Z :=
  let hProcess := OpenProcess os pid in
  if hProcess =? 0 then ([], [])
  else
    let buffer := GetModuleBaseNameW os hProcess in
    (if (0 <? length buffer)%nat then remove_exe_extension buffer else [],
     [hProcess]).

(** HRESULTs. *)
Definition SUCCEEDED (hr : Z) : bool := 0 <=? hr.
Definition FAILED (hr : Z) : bool := hr <? 0.
Definition S_OK : Z := 0.
Definition S_FALSE : Z := 1.

(** The thread-local [comInitialized], with the number of [CoInitializeEx]
    calls the thread has made. *)
Record ComThread := {
  comInitialized : bool;
  CoInitializeEx_calls : nat
}.

(** [EnsureComInitialized], [hr] being what [CoInitializeEx] answers if it
    is called. *)
Definition EnsureComInitialized (hr : Z) (thread : ComThread) : ComThread :=
  if comInitialized thread then thread
  else {| comInitialized := SUCCEEDED hr || (hr =? S_FALSE);
          CoInitializeEx_calls := S (CoInitializeEx_calls thread) |}.

(** The [WasapiCapture] class of [wasapi_capture.h], as the bridge uses it. *)
Class WasapiCapture (C : Type) := {
  WasapiCapture_new : Z -> Z -> Z -> Z -> C;
  StartSystemAudio : SystemAudio.Args -> bool -> C -> Z * C;
  StartMicrophone : Microphone.Args -> bool -> C -> Z * C;
  Stop : C -> Z * C;
  IsRunning : C -> bool
}.

(** The captures [new]-ed and not yet deleted, by handle, and the captures
    deleted so far, each in the state its destructor found it. *)
Record Bridge (C : Type) := {
  com : ComThread;
  captures : gmap positive C;
  deleted : list C
}.
Arguments com {C} _.
Arguments captures {C} _.
Arguments deleted {C} _.

Section Sessions.
Context {C : Type} `{WasapiCapture C}.

(** [static_cast<WasapiCapture*>(handle)] and a use of the object: [None]
    when no capture lives at the handle. *)
Definition capture_at (handle : Z) (st : Bridge C) : option (positive * C) :=
  match handle with
  | Z.pos h => match captures st !! h with Some c => Some (h, c) | None => None end
  | _ => None
  end.

Definition set_capture (h : positive) (c : C) (st : Bridge C) : Bridge C :=
  {| com := com st; captures := <[h := c]> (captures st); deleted := deleted st |}.

Definition audio_create (hr : Z) (dataCallback eventCallback metadataCallback userContext : Z)
    (st : Bridge C) : Z * Bridge C :=
  let com' := EnsureComInitialized hr (com st) in
  let h := fresh (dom (captures st)) in
  (Z.pos h,
   {| com := com';
      captures :=
        <[h := WasapiCapture_new dataCallback eventCallback metadataCallback userContext]>
          (captures st);
      deleted := deleted st |}).

Definition audio_start_system_audio (handle : Z) (args : SystemAudio.Args)
    (emitSilence : bool) (st : Bridge C) : option (Z * Bridge C) :=
  if handle =? 0 then Some (-1, st)
  else
    match capture_at handle st with
    | Some (h, capture) =>
        let '(result, capture') := StartSystemAudio args emitSilence capture in
        Some (result, set_capture h capture' st)
    | None => None
    end.

Definition audio_start_microphone (handle : Z) (args : Microphone.Args)
    (emitSilence : bool) (st : Bridge C) : option (Z * Bridge C) :=
  if handle =? 0 then Some (-1, st)
  else
    match capture_at handle st with
    | Some (h, capture) =>
        let '(result, capture') := StartMicrophone args emitSilence capture in
        Some (result, set_capture h capture' st)
    | None => None
    end.

Definition audio_stop (handle : Z) (st : Bridge C) : option (Z * Bridge C) :=
  if handle =? 0 then Some (-1, st)
  else
    match capture_at handle st with
    | Some (h, capture) =>
        let '(result, capture') := Stop capture in
        Some (result, set_capture h capture' st)
    | None => None
    end.

Definition audio_destroy (handle : Z) (st : Bridge C) : option (Bridge C) :=
  if handle =? 0 then Some st
  else
    match capture_at handle st with
    | Some (h, capture) =>
        let '(_, capture') := Stop capture in
        Some {| com := com st;
                captures := delete h (captures st);
                deleted := deleted st ++ [capture'] |}
    | None => None
    end.

Definition audio_is_running (handle : Z) (st : Bridge C) : option bool :=
  if handle =? 0 then Some false
  else
    match capture_at handle st with
    | Some (_, capture) => Some (IsRunning capture)
    | None => None
    end.

End Sessions.

(** Modelled from the spec: [AudioDeviceInfo] of [audio_bridge.h], which is
    not among the sources. The bridge uses its three text handles; the other
    members follow the record layout documented in [coreaudio_bridge.h]. *)
Record AudioDeviceInfo := {
  uid : Z;
  name : Z;
  manufacturer : Z;
  isDefault : bool;
  isInput : bool;
  isOutput : bool;
  sampleRate : float;
  channelCount : Z
}.

(** The [malloc]-ed text blocks and the [new[]]-ed device arrays. *)
Record DeviceHeap := {
  strings : gset Z;
  arrays : gmap positive (list AudioDeviceInfo)
}.

(** [audio_list_devices]. [devices] and [count] say whether the two
    out-pointers are non-null; [ListAllDevices] is the enumerator, which
    allocates the texts of the devices it returns. The second component is
    what was stored through the out-pointers, if anything. *)
Definition audio_list_devices (hr : Z) (devices count : bool)
    (ListAllDevices : gset Z -> list AudioDeviceInfo * gset Z)
    (thread : ComThread) (heap : DeviceHeap)
  : Z * option (Z * Z) * ComThread * DeviceHeap :=
  let thread' := EnsureComInitialized hr thread in
  if negb devices || negb count then (-1, None, thread', heap)
  else
    let '(deviceList, strings') := ListAllDevices (strings heap) in
    match deviceList with
    | [] => (0, Some (0, 0), thread', {| strings := strings'; arrays := arrays heap |})
    | _ =>
        let p := fresh (dom (arrays heap)) in
        (0, Some (Z.pos p, wrap_int32 (Z.of_nat (length deviceList))), thread',
         {| strings := strings'; arrays := <[p := deviceList]> (arrays heap) |})
    end.

(** The [for (i < count)] loop of [audio_free_device_list], [remaining]
    iterations from index [i]; reading past the array is an error. *)
Fixpoint free_device_texts (array : list AudioDeviceInfo) (i remaining : nat)
    (blocks : gset Z) : option (gset Z) :=
  match remaining with
  | O => Some blocks
  | S k =>
      match array !! i with
      | None => None
      | Some device =>
          match free (uid device) blocks with
          | None => None
          | Some blocks1 =>
              match free (name device) blocks1 with
              | None => None
              | Some blocks2 =>
                  match free (manufacturer device) blocks2 with
                  | None => None
                  | Some blocks3 => free_device_texts array (S i) k blocks3
                  end
              end
          end
      end
  end.

Definition audio_free_device_list (devices count : Z) (heap : DeviceHeap)
  : option DeviceHeap :=
  if devices =? 0 then Some heap
  else
    match devices with
    | Z.pos p =>
        match arrays heap !! p with
        | None => None
        | Some array =>
            match free_device_texts array 0 (Z.to_nat count) (strings heap) with
            | None => None
            | Some strings' =>
                Some {| strings := strings'; arrays := delete p (arrays heap) |}
            end
        end
    | _ => None
    end.

(** [struct MicActivityMonitorState] *)
Record MicActivityMonitorState := {
  changeCallback : Z;
  deviceCallback : Z;
  errorCallback : Z;
  userContext : Z;
  isRunning : bool
}.

Record Monitors := {
  monitor_com : ComThread;
  monitors : gmap positive MicActivityMonitorState
}.

Definition monitor_at (handle : Z) (ms : Monitors)
  : option (positive * MicActivityMonitorState) :=
  match handle with
  | Z.pos h => match monitors ms !! h with Some m => Some (h, m) | None => None end
  | _ => None
  end.

Definition set_running (flag : bool) (m : MicActivityMonitorState)
  : MicActivityMonitorState :=
  {| changeCallback := changeCallback m; deviceCallback := deviceCallback m;
     errorCallback := errorCallback m; userContext := userContext m;
     isRunning := flag |}.

Definition mic_activity_create (hr : Z)
    (change device error context : Z) (ms : Monitors) : Z * Monitors :=
  let com' := EnsureComInitialized hr (monitor_com ms) in
  let h := fresh (dom (monitors ms)) in
  (Z.pos h,
   {| monitor_com := com';
      monitors :=
        <[h := {| changeCallback := change; deviceCallback := device;
                  errorCallback := error; userContext := context;
                  isRunning := false |}]> (monitors ms) |}).

Definition mic_activity_start (handle scope : Z) (ms : Monitors) : option (Z * Monitors) :=
  if handle =? 0 then Some (-1, ms)
  else
    match monitor_at handle ms with
    | Some (h, m) =>
        Some (0, {| monitor_com := monitor_com ms;
                    monitors := <[h := set_running true m]> (monitors ms) |})
    | None => None
    end.

Definition mic_activity_stop (handle : Z) (ms : Monitors) : option (Z * Monitors) :=
  if handle =? 0 then Some (-1, ms)
  else
    match monitor_at handle ms with
    | Some (h, m) =>
        Some (0, {| monitor_com := monitor_com ms;
                    monitors := <[h := set_running false m]> (monitors ms) |})
    | None => None
    end.

Definition mic_activity_destroy (handle : Z) (ms : Monitors) : option Monitors :=
  if handle =? 0 then Some ms
  else
    match monitor_at handle ms with
    | Some (h, _) =>
        Some {| monitor_com := monitor_com ms; monitors := delete h (monitors ms) |}
    | None => None
    end.

(** "TODO: Query active capture sessions": the handle is only tested. *)
Definition mic_activity_is_active (handle : Z) (ms : Monitors) : bool :=
  if handle =? 0 then false else false.

(** [mic_activity_get_active_device_ids]; [deviceIds] and [count] say
    whether the out-pointers are non-null. *)
Definition mic_activity_get_active_device_ids (handle : Z) (deviceIds count : bool)
  : Z * option (Z * Z) :=
  if (handle =? 0) || negb deviceIds || negb count then (-1, None)
  else (0, Some (0, 0)).

End Windows.

(** A run of [free] calls, in order. *)
Fixpoint free_all (pointers : list Z) (blocks : gset Z) : option (gset Z) :=
  match pointers with
  | [] => Some blocks
  | p :: rest =>
      match free p blocks with
      | Some blocks' => free_all rest blocks'
      | None => None
      end
  end.

(** The three text handles of a device record, and the non-null handles of
    a device list. *)
Definition text_handles (device : Windows.AudioDeviceInfo) : list Z :=
  [Windows.uid device; Windows.name device; Windows.manufacturer device].

Definition allocated_texts (devices : list Windows.AudioDeviceInfo) : list Z :=
  List.filter (fun p => negb (p =? 0)) (flat_map text_handles devices).

(** A stand-in for [WasapiCapture]: it remembers its context, whether it
    runs and how often it was stopped; starting fails with -2 while it
    already runs. *)
Record ScriptedCapture := {
  capture_context : Z;
  capture_running : bool;
  capture_stops : nat
}.

#[export] Instance scripted_capture : Windows.WasapiCapture ScriptedCapture := {|
  Windows.WasapiCapture_new _ _ _ context :=
    {| capture_context := context; capture_running := false; capture_stops := 0 |};
  Windows.StartSystemAudio _ _ c :=
    if capture_running c then (-2, c)
    else (0, {| capture_context := capture_context c; capture_running := true;
                capture_stops := capture_stops c |});
  Windows.StartMicrophone _ _ c :=
    if capture_running c then (-2, c)
    else (0, {| capture_context := capture_context c; capture_running := true;
                capture_stops := capture_stops c |});
  Windows.Stop c :=
    (0, {| capture_context := capture_context c; capture_running := false;
           capture_stops := S (capture_stops c) |});
  Windows.IsRunning c := capture_running c
|}.

Definition empty_bridge : Windows.Bridge ScriptedCapture :=
  {| Windows.com := {| Windows.comInitialized := false; Windows.CoInitializeEx_calls := 0 |};
     Windows.captures := ∅;
     Windows.deleted := [] |}.

(** Two devices as the Windows enumerator would return them, the second
    without a manufacturer, with their texts allocated at 256 .. 320. *)
Definition sample_devices : list Windows.AudioDeviceInfo :=
  [ {| Windows.uid := 256; Windows.name := 272; Windows.manufacturer := 288;
       Windows.isDefault := true; Windows.isInput := true; Windows.isOutput := false;
       Windows.sampleRate := 48000%float; Windows.channelCount := 2 |};
    {| Windows.uid := 304; Windows.name := 320; Windows.manufacturer := 0;
       Windows.isDefault := false; Windows.isInput := false; Windows.isOutput := true;
       Windows.sampleRate := 44100%float; Windows.channelCount := 1 |} ].

Definition sample_enumerator (blocks : gset Z)
  : list Windows.AudioDeviceInfo * gset Z :=
  (sample_devices, blocks ∪ list_to_set [256; 272; 288; 304; 320]).

Definition empty_device_heap : Windows.DeviceHeap :=
  {| Windows.strings := ∅; Windows.arrays := ∅ |}.

Definition fresh_thread : Windows.ComThread :=
  {| Windows.comInitialized := false; Windows.CoInitializeEx_calls := 0 |}.

(* ===================================================================== *)
(** ** The processes that use the microphone (Windows)                    *)
(* ===================================================================== *)

(** [mic_activity_get_active_processes] and the functions that free its
    results. What COM answers is given by an [Endpoint]; the C heap is a
    map from addresses to blocks, with the list of the coming [malloc]
    calls that will return null. *)
Module ActiveProcesses.
Import Windows.

(** What a COM call that hands out an interface answers: its HRESULT and
    whether the out-pointer is non-null. *)
Record ComResult := {
  hr : Z;
  object : bool
}.

(** [FAILED(hr) || !p] *)
Definition refused (r : ComResult) : bool := FAILED (hr r) || negb (object r).

(** The answers of the calls made on the session at one index. *)
Record AudioSession := {
  GetSession : ComResult;
  GetState : Z * Z;                (* HRESULT, state *)
  QueryInterface : ComResult;
  IsSystemSoundsSession : Z;
  GetProcessId : Z * Z             (* HRESULT, pid *)
}.

Definition AudioSessionStateActive : Z := 1.

Record Endpoint := {
  CoCreateInstance : ComResult;
  GetDefaultAudioEndpoint : ComResult;
  Activate : ComResult;
  GetSessionEnumerator : ComResult;
  GetCount : Z * Z;                (* HRESULT, sessionCount *)
  sessions : nat -> AudioSession
}.

Inductive ComObject : Type :=
  | Enumerator
  | Device
  | SessionManager
  | SessionEnumerator
  | SessionControl (i : nat)
  | SessionControl2 (i : nat).

(** An interface pointer received from a call, or given to [Release]. *)
Inductive ComEvent : Type :=
  | Obtained (o : ComObject)
  | Released (o : ComObject).

Definition note (r : ComResult) (o : ComObject) : list ComEvent :=
  if object r then [Obtained o] else [].

(** The two vectors of the loop, with the COM traffic and the process
    handles closed so far. *)
Record Collected := {
  activePids : list Z;
  activeNames : list wstring;
  com_events : list ComEvent;
  closed_handles : list Z
}.

Definition log (events : list ComEvent) (acc : Collected) : Collected :=
  {| activePids := activePids acc;
     activeNames := activeNames acc;
     com_events := com_events acc ++ events;
     closed_handles := closed_handles acc |}.

(** The body of the [for] loop over the sessions, for index [i]. *)
Definition visit_session (os : ProcessTable) (i : nat) (s : AudioSession)
    (acc : Collected) : Collected :=
  let acc := log (note (GetSession s) (SessionControl i)) acc in
  if refused (GetSession s) then acc
  else if FAILED (fst (GetState s)) || negb (snd (GetState s) =? AudioSessionStateActive)
  then log [Released (SessionControl i)] acc
  else
    let acc := log (note (QueryInterface s) (SessionControl2 i)) acc in
    if refused (QueryInterface s) then log [Released (SessionControl i)] acc
    else if IsSystemSoundsSession s =? S_OK
    then log [Released (SessionControl2 i); Released (SessionControl i)] acc
    else if FAILED (fst (GetProcessId s)) || (snd (GetProcessId s) =? 0)
    then log [Released (SessionControl2 i); Released (SessionControl i)] acc
    else
      let pid := snd (GetProcessId s) in
      if existsb (fun existingPid => existingPid =? pid) (activePids acc)
      then log [Released (SessionControl2 i); Released (SessionControl i)] acc
      else
        let '(found, closed) := GetProcessNameFromPid os pid in
        let procName := match found with [] => L "Unknown" | _ => found end in
        {| activePids := activePids acc ++ [pid];
           activeNames := activeNames acc ++ [procName];
           com_events :=
             com_events acc ++ [Released (SessionControl2 i); Released (SessionControl i)];
           closed_handles := closed_handles acc ++ closed |}.

(** [for (int i = 0; i < sessionCount; i++)], [remaining] iterations from [i]. *)
Fixpoint visit_sessions (os : ProcessTable) (sessions : nat -> AudioSession)
    (i remaining : nat) (acc : Collected) : Collected :=
  match remaining with
  | O => acc
  | S k => visit_sessions os sessions (S i) k (visit_session os i (sessions i) acc)
  end.

(** A session the loop keeps: obtained, active, with its second interface,
    not the system sounds, and with a process id that is not 0. *)
Definition eligible (s : AudioSession) : bool :=
  negb (refused (GetSession s)) &&
  negb (FAILED (fst (GetState s)) || negb (snd (GetState s) =? AudioSessionStateActive)) &&
  negb (refused (QueryInterface s)) &&
  negb (IsSystemSoundsSession s =? S_OK) &&
  negb (FAILED (fst (GetProcessId s)) || (snd (GetProcessId s) =? 0)).

(** A block of the C heap. An array element that was never written is
    [None]. *)
Inductive Block : Type :=
  | Int32Array (values : list (option Z))
  | PointerArray (pointers : list (option Z))
  | Text (content : string).

Record CHeap := {
  blocks : gmap Z Block;
  refusals : list bool      (* whether the coming [malloc] calls return null *)
}.

Definition set_blocks (b : gmap Z Block) (heap : CHeap) : CHeap :=
  {| blocks := b; refusals := refusals heap |}.

(** [malloc] (and [_strdup]): null when refused, else a block at an address
    that is not null and not in use, holding [content]. *)
Definition malloc (content : Block) (heap : CHeap) : Z * CHeap :=
  match refusals heap with
  | true :: rest => (0, {| blocks := blocks heap; refusals := rest |})
  | _ =>
      let p := fresh ({[0]} ∪ dom (blocks heap)) in
      (p, {| blocks := <[p := content]> (blocks heap);
             refusals := tail (refusals heap) |})
  end.

(** [free]: nothing for null, an error for an address that is not allocated. *)
Definition free (p : Z) (heap : CHeap) : option CHeap :=
  if p =? 0 then Some heap
  else
    match blocks heap !! p with
    | Some _ => Some (set_blocks (delete p (blocks heap)) heap)
    | None => None
    end.

(** [array[i] = v] for an [int32_t] array and for an array of pointers. *)
Definition write_int32 (array : Z) (i : nat) (v : Z) (heap : CHeap) : option CHeap :=
  match blocks heap !! array with
  | Some (Int32Array values) =>
      if (i <? length values)%nat
      then Some (set_blocks (<[array := Int32Array (<[i := Some v]> values)]> (blocks heap)) heap)
      else None
  | _ => None
  end.

Definition write_pointer (array : Z) (i : nat) (v : Z) (heap : CHeap) : option CHeap :=
  match blocks heap !! array with
  | Some (PointerArray pointers) =>
      if (i <? length pointers)%nat
      then Some (set_blocks (<[array := PointerArray (<[i := Some v]> pointers)]> (blocks heap)) heap)
      else None
  | _ => None
  end.

(** [array[i]] for an array of pointers. *)
Definition read_pointer (array : Z) (i : nat) (heap : CHeap) : option Z :=
  match blocks heap !! array with
  | Some (PointerArray pointers) =>
      match pointers !! i with
      | Some (Some v) => Some v
      | _ => None
      end
  | _ => None
  end.

(** The loop that fills the three arrays, from index [i]. [utf8] is the
    conversion [WideCharToMultiByte] performs. *)
Fixpoint fill_outputs (utf8 : wstring -> string) (pids names bundleIds : Z) (i : nat)
    (activePids : list Z) (activeNames : list wstring) (heap : CHeap) : option CHeap :=
  match activePids, activeNames with
  | pid :: pids', procName :: names' =>
      match write_int32 pids i (wrap_int32 pid) heap with
      | None => None
      | Some heap1 =>
          let '(name, heap2) := malloc (Text (utf8 procName)) heap1 in
          match write_pointer names i name heap2 with
          | None => None
          | Some heap3 =>
              let '(bundle, heap4) := malloc (Text "") heap3 in
              match write_pointer bundleIds i bundle heap4 with
              | None => None
              | Some heap5 =>
                  fill_outputs utf8 pids names bundleIds (S i) pids' names' heap5
              end
          end
      end
  | _, _ => Some heap
  end.

(** What the four out-parameters hold. *)
Record Outputs := {
  pids : Z;
  names : Z;
  bundleIds : Z;
  count : Z
}.

Definition no_outputs : Outputs := {| pids := 0; names := 0; bundleIds := 0; count := 0 |}.

Record Result := {
  status : Z;
  outputs : option Outputs;        (* [None]: the out-parameters were not written *)
  thread : ComThread;
  events : list ComEvent;
  closed : list Z;
  heap : CHeap
}.

Definition leave (status : Z) (thread : ComThread) (events : list ComEvent)
    (heap : CHeap) : Result :=
  {| status := status; outputs := Some no_outputs; thread := thread;
     events := events; closed := []; heap := heap |}.

(** [mic_activity_get_active_processes]. The four booleans say whether the
    out-pointers are non-null, [hr_com] is what [CoInitializeEx] answers if
    called. [None]: a write outside an allocated array. *)
Definition mic_activity_get_active_processes (hr_com : Z)
    (out_pids out_names out_bundleIds out_count : bool)
    (os : ProcessTable) (utf8 : wstring -> string) (endpoint : Endpoint)
    (thread : ComThread) (heap : CHeap) : option Result :=
  if negb out_pids || negb out_names || negb out_bundleIds || negb out_count then
    Some {| status := -1; outputs := None; thread := thread;
            events := []; closed := []; heap := heap |}
  else
    let thread := EnsureComInitialized hr_com thread in
    let events := note (CoCreateInstance endpoint) Enumerator in
    if refused (CoCreateInstance endpoint) then Some (leave (-1) thread events heap)
    else
      let events := events ++ note (GetDefaultAudioEndpoint endpoint) Device in
      if refused (GetDefaultAudioEndpoint endpoint) then
        Some (leave 0 thread (events ++ [Released Enumerator]) heap)
      else
        let events := events ++ note (Activate endpoint) SessionManager in
        if refused (Activate endpoint) then
          Some (leave (-1) thread
                  (events ++ [Released Device; Released Enumerator]) heap)
        else
          let events := events ++ note (GetSessionEnumerator endpoint) SessionEnumerator in
          if refused (GetSessionEnumerator endpoint) then
            Some (leave (-1) thread
                    (events ++ [Released SessionManager; Released Device;
                                Released Enumerator]) heap)
          else
            let cleanup := [Released SessionEnumerator; Released SessionManager;
                            Released Device; Released Enumerator] in
            let sessionCount := snd (GetCount endpoint) in
            if FAILED (fst (GetCount endpoint)) || (sessionCount =? 0) then
              Some (leave 0 thread (events ++ cleanup) heap)
            else
              let found :=
                visit_sessions os (sessions endpoint) 0 (Z.to_nat sessionCount)
                  {| activePids := []; activeNames := [];
                     com_events := events; closed_handles := [] |} in
              let events := com_events found ++ cleanup in
              let n := length (activePids found) in
              match activePids found with
              | [] =>
                  Some {| status := 0; outputs := Some no_outputs; thread := thread;
                          events := events; closed := closed_handles found;
                          heap := heap |}
              | _ =>
                  let '(pids, heap1) := malloc (Int32Array (replicate n None)) heap in
                  let '(names, heap2) := malloc (PointerArray (replicate n None)) heap1 in
                  let '(bundleIds, heap3) := malloc (PointerArray (replicate n None)) heap2 in
                  if (pids =? 0) || (names =? 0) || (bundleIds =? 0) then
                    match free pids heap3 with
                    | None => None
                    | Some heap4 =>
                        match free names heap4 with
                        | None => None
                        | Some heap5 =>
                            match free bundleIds heap5 with
                            | None => None
                            | Some heap6 =>
                                Some {| status := -1; outputs := Some no_outputs;
                                        thread := thread; events := events;
                                        closed := closed_handles found; heap := heap6 |}
                            end
                        end
                    end
                  else
                    match fill_outputs utf8 pids names bundleIds 0
                            (activePids found) (activeNames found) heap3 with
                    | None => None
                    | Some heap4 =>
                        Some {| status := 0;
                                outputs :=
                                  Some {| pids := pids; names := names;
                                          bundleIds := bundleIds;
                                          count := wrap_int32 (Z.of_nat n) |};
                                thread := thread; events := events;
                                closed := closed_handles found; heap := heap4 |}
                    end
              end.

(** The loop [for (i < count) if (array[i]) free(array[i])], [remaining]
    iterations from [i]. *)
Fixpoint free_each (array : Z) (i remaining : nat) (heap : CHeap) : option CHeap :=
  match remaining with
  | O => Some heap
  | S k =>
      match read_pointer array i heap with
      | None => None
      | Some p =>
          match free p heap with
          | None => None
          | Some heap' => free_each array (S i) k heap'
          end
      end
  end.

(** [if (array) { for ... ; free(array); }] *)
Definition free_pointer_array (array count : Z) (heap : CHeap) : option CHeap :=
  if array =? 0 then Some heap
  else
    match free_each array 0 (Z.to_nat count) heap with
    | None => None
    | Some heap' => free array heap'
    end.

(** [mic_activity_free_device_ids] *)
Definition mic_activity_free_device_ids (deviceIds count : Z) (heap : CHeap)
  : option CHeap :=
  free_pointer_array deviceIds count heap.

(** [mic_activity_free_processes] *)
Definition mic_activity_free_processes (pids names bundleIds count : Z) (heap : CHeap)
  : option CHeap :=
  match free pids heap with
  | None => None
  | Some heap1 =>
      match free_pointer_array names count heap1 with
      | None => None
      | Some heap2 => free_pointer_array bundleIds count heap2
      end
  end.

End ActiveProcesses.

(** The name the loop stores for a process: "Unknown" when
    [GetProcessNameFromPid] has none. *)
Definition display_name (os : Windows.ProcessTable) (pid : Z) : Windows.wstring :=
  match fst (Windows.GetProcessNameFromPid os pid) with
  | [] => Windows.L "Unknown"
  | found => found
  end.

#[export] Instance ComObject_eq_dec : EqDecision ActiveProcesses.ComObject.
Proof. solve_decision. Defined.

(** The interface pointers held after a run of COM events, starting with
    [held]; [None] if a pointer is released that is not held. *)
Fixpoint held_after (events : list ActiveProcesses.ComEvent)
    (held : list ActiveProcesses.ComObject) : option (list ActiveProcesses.ComObject) :=
  match events with
  | [] => Some held
  | ActiveProcesses.Obtained o :: rest => held_after rest (o :: held)
  | ActiveProcesses.Released o :: rest =>
      if decide (o ∈ held) then held_after rest (List.remove ComObject_eq_dec o held)
      else None
  end.

(** The COM rule for out-pointers: a call that fails hands out no object. *)
Definition follows_com_rule (r : ActiveProcesses.ComResult) : Prop :=
  Windows.FAILED (ActiveProcesses.hr r) = true -> ActiveProcesses.object r = false.

Definition com_ok : ActiveProcesses.ComResult :=
  {| ActiveProcesses.hr := 0; ActiveProcesses.object := true |}.
Definition com_failed : ActiveProcesses.ComResult :=
  {| ActiveProcesses.hr := -2147467259; ActiveProcesses.object := false |}.

(** Four sessions of a capture endpoint: process 4242 active, the system
    sounds, process 4242 again, and an inactive session; every later index
    is refused. *)
Definition sample_session_at (i : nat) : ActiveProcesses.AudioSession :=
  match i with
  | 0%nat =>
      {| ActiveProcesses.GetSession := com_ok; ActiveProcesses.GetState := (0, 1);
         ActiveProcesses.QueryInterface := com_ok;
         ActiveProcesses.IsSystemSoundsSession := 1;
         ActiveProcesses.GetProcessId := (0, 4242) |}
  | 1%nat =>
      {| ActiveProcesses.GetSession := com_ok; ActiveProcesses.GetState := (0, 1);
         ActiveProcesses.QueryInterface := com_ok;
         ActiveProcesses.IsSystemSoundsSession := 0;
         ActiveProcesses.GetProcessId := (0, 0) |}
  | 2%nat =>
      {| ActiveProcesses.GetSession := com_ok; ActiveProcesses.GetState := (0, 1);
         ActiveProcesses.QueryInterface := com_ok;
         ActiveProcesses.IsSystemSoundsSession := 1;
         ActiveProcesses.GetProcessId := (0, 4242) |}
  | 3%nat =>
      {| ActiveProcesses.GetSession := com_ok; ActiveProcesses.GetState := (0, 0);
         ActiveProcesses.QueryInterface := com_ok;
         ActiveProcesses.IsSystemSoundsSession := 1;
         ActiveProcesses.GetProcessId := (0, 77) |}
  | _ =>
      {| ActiveProcesses.GetSession := com_failed; ActiveProcesses.GetState := (0, 0);
         ActiveProcesses.QueryInterface := com_failed;
         ActiveProcesses.IsSystemSoundsSession := 1;
         ActiveProcesses.GetProcessId := (0, 0) |}
  end.

Definition sample_endpoint : ActiveProcesses.Endpoint :=
  {| ActiveProcesses.CoCreateInstance := com_ok;
     ActiveProcesses.GetDefaultAudioEndpoint := com_ok;
     ActiveProcesses.Activate := com_ok;
     ActiveProcesses.GetSessionEnumerator := com_ok;
     ActiveProcesses.GetCount := (0, 4);
     ActiveProcesses.sessions := sample_session_at |}.

(** Process 4242 is "meet.exe"; no other process can be opened. *)
Definition sample_processes : Windows.ProcessTable :=
  {| Windows.OpenProcess := fun pid => if pid =? 4242 then 900 else 0;
     Windows.GetModuleBaseNameW := fun h => if h =? 900 then Windows.L "meet.exe" else [] |}.

Definition ascii_text (name : Windows.wstring) : string := string_of_list_ascii name.

Definition empty_heap : ActiveProcesses.CHeap :=
  {| ActiveProcesses.blocks := ∅; ActiveProcesses.refusals := [] |}.

(** The entries of an array of pointers that are not null. *)
Definition nonnull (pointers : list Z) : list Z := filter (fun p => p <> 0) pointers.

(** The heap while [mic_activity_get_active_processes] fills its arrays:
    the three arrays are distinct blocks that [before] did not have, with
    [values], [namePtrs] and [bundlePtrs] written so far and [r1], [r2], [r3]
    elements still unwritten; every text that is not null is a block of its
    own that [before] did not have; every other address is as in [before].
    The name at index [j], if not null, holds the text [texts !! j], and a
    bundle id that is not null holds the empty text. *)
Definition filling (before : gmap Z ActiveProcesses.Block)
    (a_pids a_names a_bundles : Z) (values namePtrs bundlePtrs : list Z)
    (texts : list string)
    (r1 r2 r3 : nat) (heap : ActiveProcesses.CHeap) : Prop :=
  (a_pids <> 0 /\ a_names <> 0 /\ a_bundles <> 0) /\
  (a_pids <> a_names /\ a_pids <> a_bundles /\ a_names <> a_bundles) /\
  (before !! a_pids = None /\ before !! a_names = None /\ before !! a_bundles = None) /\
  ActiveProcesses.blocks heap !! a_pids =
    Some (ActiveProcesses.Int32Array ((Some <$> values) ++ replicate r1 None)) /\
  ActiveProcesses.blocks heap !! a_names =
    Some (ActiveProcesses.PointerArray ((Some <$> namePtrs) ++ replicate r2 None)) /\
  ActiveProcesses.blocks heap !! a_bundles =
    Some (ActiveProcesses.PointerArray ((Some <$> bundlePtrs) ++ replicate r3 None)) /\
  NoDup (nonnull namePtrs ++ nonnull bundlePtrs) /\
  (forall p, p ∈ nonnull namePtrs ++ nonnull bundlePtrs ->
     p <> a_pids /\ p <> a_names /\ p <> a_bundles /\ before !! p = None /\
     is_Some (ActiveProcesses.blocks heap !! p)) /\
  (forall k, k <> a_pids -> k <> a_names -> k <> a_bundles ->
     k ∉ nonnull namePtrs ++ nonnull bundlePtrs ->
     ActiveProcesses.blocks heap !! k = before !! k) /\
  length texts = length namePtrs /\
  (forall j p, namePtrs !! j = Some p -> p <> 0 ->
     exists s, texts !! j = Some s /\
               ActiveProcesses.blocks heap !! p = Some (ActiveProcesses.Text s)) /\
  (forall p, p ∈ nonnull bundlePtrs ->
     ActiveProcesses.blocks heap !! p = Some (ActiveProcesses.Text EmptyString)).

(** A list of three device ids at address 10, the second one null. *)
Definition sample_id_heap : ActiveProcesses.CHeap :=
  {| ActiveProcesses.blocks :=
       <[10 := ActiveProcesses.PointerArray [Some 20; Some 0; Some 30]]>
         (<[20 := ActiveProcesses.Text "mic-a"]>
            (<[30 := ActiveProcesses.Text "mic-b"]> ∅));
     ActiveProcesses.refusals := [] |}.

(* ===================================================================== *)
(** * Properties                                                          *)
(* ===================================================================== *)

(** ** The queue *)

Lemma DrainEvents_loop_spec (queue events : list AudioEvent) :
  DrainEvents_loop queue events = ([], events ++ queue).
Proof.
  revert events. induction queue as [|front rest IH]; intros events; simpl.
  - by rewrite app_nil_r.
  - rewrite IH. by rewrite <- app_assoc.
Qed.

Lemma DrainEvents_spec (w : Wrapper) :
  DrainEvents w = (eventQueue_ w, set_queue [] w).
Proof. unfold DrainEvents. by rewrite DrainEvents_loop_spec. Qed.

Lemma QueueEvents_spec (events : list AudioEvent) (w : Wrapper) :
  QueueEvents events w = set_queue (eventQueue_ w ++ events) w.
Proof.
  revert w. induction events as [|event rest IH]; intros w; simpl.
  - rewrite app_nil_r. by destruct w.
  - unfold QueueEvents in IH. rewrite IH. unfold QueueEvent, set_queue; simpl.
    by rewrite <- app_assoc.
Qed.

Lemma invoke_destroyed (mem : Memory) (c : Callback) (w : Wrapper) :
  isDestroyed_ w = true -> invoke mem c w = w.
Proof.
  intros Hd. destruct c; simpl; unfold OnData, OnEvent, OnMetadata; by rewrite Hd.
Qed.

Lemma invoke_live (mem : Memory) (c : Callback) (w : Wrapper) :
  isDestroyed_ w = false -> throws c = false ->
  invoke mem c w = QueueEvent (callback_event mem c) w.
Proof.
  intros Hd Hc. destruct c; simpl in *; unfold OnData, OnEvent, OnMetadata;
    by rewrite Hd, ?Hc.
Qed.

Lemma invoke_throws (mem : Memory) (c : Callback) (w : Wrapper) :
  throws c = true -> invoke mem c w = w.
Proof.
  intros Hc. destruct c; simpl in *; try done. unfold OnData. rewrite Hc.
  by destruct (isDestroyed_ w).
Qed.

Lemma invoke_all_destroyed (mem : Memory) (cs : list Callback) (w : Wrapper) :
  isDestroyed_ w = true -> invoke_all mem cs w = w.
Proof.
  intros Hd. unfold invoke_all. induction cs as [|c rest IH]; simpl; [done|].
  by rewrite invoke_destroyed.
Qed.

(** ** Interleavings of callbacks, drains and the destructor *)

Section StepFacts.
Context {St : Type} `{CaptureSession St}.
Variable mem : Memory.

Lemma step_keeps_returned (sys sys' : System St) (l : Label) (i : nat) :
  step mem sys l sys' ->
  producers sys !! i = Some Returned -> producers sys' !! i = Some Returned.
Proof.
  intros Hstep Hi. inversion Hstep; subst; simpl; try done.
  - by apply lookup_app_l_Some.
  - destruct (decide (i0 = i)) as [->|Hne]; [congruence|].
    by rewrite list_lookup_insert_ne.
  - destruct (decide (i0 = i)) as [->|Hne]; [congruence|].
    by rewrite list_lookup_insert_ne.
  - destruct (decide (i0 = i)) as [->|Hne]; [congruence|].
    by rewrite list_lookup_insert_ne.
Qed.

Lemma step_into_checked (sys sys' : System St) (l : Label) (i : nat) (c : Callback) :
  step mem sys l sys' ->
  producers sys' !! i = Some (Checked c) ->
  producers sys !! i = Some (Checked c) \/ l = LCheck i false.
Proof.
  intros Hstep Hi. inversion Hstep; subst; simpl in *; auto.
  - destruct (decide (i < length (producers sys))%nat) as [Hlt|Hge].
    + left. by rewrite lookup_app_l in Hi.
    + rewrite lookup_app_r in Hi by lia.
      by destruct (i - length (producers sys))%nat.
  - destruct (decide (i0 = i)) as [->|Hne].
    + rewrite list_lookup_insert_eq in Hi by (by eapply lookup_lt_Some).
      destruct (isDestroyed_ (wrapper (world sys))); [congruence | by right].
    + left. by rewrite list_lookup_insert_ne in Hi.
  - destruct (decide (i0 = i)) as [->|Hne].
    + rewrite list_lookup_insert_eq in Hi by (by eapply lookup_lt_Some). congruence.
    + left. by rewrite list_lookup_insert_ne in Hi.
  - destruct (decide (i0 = i)) as [->|Hne].
    + rewrite list_lookup_insert_eq in Hi by (by eapply lookup_lt_Some). congruence.
    + left. by rewrite list_lookup_insert_ne in Hi.
Qed.

Lemma step_keeps_destroyed (sys sys' : System St) (l : Label) :
  step mem sys l sys' ->
  isDestroyed_ (wrapper (world sys)) = true ->
  isDestroyed_ (wrapper (world sys')) = true.
Proof.
  intros Hstep Hd. inversion Hstep; subst; simpl; try done.
  - unfold Destructor_release. by destruct (handle_ (wrapper (world sys)) =? 0).
  - by rewrite DrainEvents_spec.
Qed.

Lemma exec_returned_never_enqueues (sys sys' : System St) (tr : list Label) (i : nat) :
  exec mem sys tr sys' ->
  producers sys !! i = Some Returned ->
  forall m event, tr !! m <> Some (LEnqueue i event).
Proof.
  induction 1 as [|sys l sys1 tr sys2 Hstep Hexec IH]; intros Hi m event.
  - by rewrite lookup_nil.
  - destruct m as [|m]; simpl.
    + intros [= ->]. inversion Hstep; subst. congruence.
    + apply IH. by eapply step_keeps_returned.
Qed.

Lemma exec_destroyed_checks_read_true (sys sys' : System St) (tr : list Label) :
  exec mem sys tr sys' ->
  isDestroyed_ (wrapper (world sys)) = true ->
  forall m i, tr !! m <> Some (LCheck i false).
Proof.
  induction 1 as [|sys l sys1 tr sys2 Hstep Hexec IH]; intros Hd m i.
  - by rewrite lookup_nil.
  - destruct m as [|m]; simpl.
    + intros [= ->]. inversion Hstep; subst. congruence.
    + apply IH. by eapply step_keeps_destroyed.
Qed.

Lemma exec_check_true_then_no_enqueue (sys sys' : System St) (tr : list Label) :
  exec mem sys tr sys' ->
  forall n m i event,
    tr !! n = Some (LCheck i true) -> (n < m)%nat ->
    tr !! m <> Some (LEnqueue i event).
Proof.
  induction 1 as [|sys l sys1 tr sys2 Hstep Hexec IH]; intros n m i event Hn Hlt.
  - by rewrite lookup_nil in Hn.
  - destruct m as [|m]; [lia|]. destruct n as [|n]; simpl in *.
    + injection Hn as ->. eapply exec_returned_never_enqueues; [done|].
      inversion Hstep as [|? ? c Hi| | | | |]; subst; simpl.
      match goal with Hd : isDestroyed_ _ = true |- _ => rewrite Hd end.
      apply list_lookup_insert_eq. by eapply lookup_lt_Some.
    + eapply IH; [done|lia].
Qed.

Lemma exec_enqueue_after_own_check (sys sys' : System St) (tr : list Label) :
  exec mem sys tr sys' ->
  forall m i event,
    tr !! m = Some (LEnqueue i event) ->
    (exists c, producers sys !! i = Some (Checked c)) \/
    (exists n, (n < m)%nat /\ tr !! n = Some (LCheck i false)).
Proof.
  induction 1 as [|sys l sys1 tr sys2 Hstep Hexec IH]; intros m i event Hm.
  - by rewrite lookup_nil in Hm.
  - destruct m as [|m]; simpl in Hm.
    + injection Hm as ->. left. inversion Hstep; subst. eauto.
    + destruct (IH _ _ _ Hm) as [[c Hc]|(n & Hlt & Hn)].
      * destruct (step_into_checked _ _ _ _ _ Hstep Hc) as [Hc'| ->].
        -- left; eauto.
        -- right. exists 0%nat. split; [lia|done].
      * right. exists (Datatypes.S n). split; [lia|done].
Qed.

Lemma exec_release_after_flag (sys sys' : System St) (tr : list Label) :
  exec mem sys tr sys' ->
  destructor sys = NotDestroyed ->
  forall m, tr !! m = Some LRelease ->
  exists n, (n < m)%nat /\ tr !! n = Some LSetDestroyed.
Proof.
  induction 1 as [|sys l sys1 tr sys2 Hstep Hexec IH]; intros Hpc m Hm.
  - by rewrite lookup_nil in Hm.
  - destruct m as [|m]; simpl in Hm.
    + injection Hm as ->. inversion Hstep; subst. congruence.
    + destruct (is_set_destroyed l) eqn:Hl.
      * destruct l; try discriminate. exists 0%nat. split; [lia|done].
      * assert (destructor sys1 = NotDestroyed) as Hpc1.
        { inversion Hstep; subst; simpl; try done; congruence. }
        destruct (IH Hpc1 _ Hm) as (n & Hlt & Hn).
        exists (Datatypes.S n). split; [lia|done].
Qed.

Lemma exec_flag_then_checks_read_true (sys sys' : System St) (tr : list Label) :
  exec mem sys tr sys' ->
  forall n m i,
    tr !! n = Some LSetDestroyed -> (n < m)%nat ->
    tr !! m <> Some (LCheck i false).
Proof.
  induction 1 as [|sys l sys1 tr sys2 Hstep Hexec IH]; intros n m i Hn Hlt.
  - by rewrite lookup_nil in Hn.
  - destruct m as [|m]; [lia|]. destruct n as [|n]; simpl in *.
    + injection Hn as ->. eapply exec_destroyed_checks_read_true; [done|].
      inversion Hstep; subst; simpl. done.
    + eapply IH; [done|lia].
Qed.

Lemma step_keeps_none_checked (sys sys' : System St) (l : Label) :
  step mem sys l sys' ->
  isDestroyed_ (wrapper (world sys)) = true ->
  (forall i c, producers sys !! i <> Some (Checked c)) ->
  enqueued [l] = [] /\ forall i c, producers sys' !! i <> Some (Checked c).
Proof.
  intros Hstep Hd Hnone.
  inversion Hstep as [? c0|? i0 c0 Hi|? i0 c0 Hi|? i0 c0 Hi| | |]; subst; simpl;
    try done.
  - split; [done|]. intros i c Hc.
    destruct (decide (i < length (producers sys))%nat) as [Hlt|Hge].
    + rewrite lookup_app_l in Hc by done. by eapply Hnone.
    + rewrite lookup_app_r in Hc by lia.
      by destruct (i - length (producers sys))%nat.
  - split; [done|]. intros i c Hc. rewrite Hd in Hc.
    destruct (decide (i0 = i)) as [->|Hne].
    + rewrite list_lookup_insert_eq in Hc by (by eapply lookup_lt_Some). done.
    + rewrite list_lookup_insert_ne in Hc by done. by eapply Hnone.
  - by apply Hnone in Hi.
  - by apply Hnone in Hi.
Qed.


(** Run without interruption, the steps of a callback are [invoke]. *)
Lemma invoke_is_check_then_enqueue (sys : System St) (i : nat) (c : Callback) :
  producers sys !! i = Some (Entered c) ->
  exists tr sys',
    exec mem sys tr sys' /\
    wrapper (world sys') = invoke mem c (wrapper (world sys)) /\
    session (world sys') = session (world sys) /\
    producers sys' !! i = Some Returned.
Proof.
  intros Hi. pose proof (lookup_lt_Some _ _ _ Hi) as Hlt.
  destruct (isDestroyed_ (wrapper (world sys))) eqn:Hd.
  - eexists [_], _. split; [eapply exec_cons; [by apply (step_check mem sys i c)|apply exec_nil]|].
    rewrite Hd. simpl. rewrite invoke_destroyed by done.
    repeat split. by apply list_lookup_insert_eq.
  - destruct (throws c) eqn:Hc.
    + eexists [_; _], _. split.
      * eapply exec_cons; [by apply (step_check mem sys i c)|].
        eapply exec_cons; [|apply exec_nil].
        apply (step_throw mem _ i c); [|done]. simpl. rewrite Hd.
        by apply list_lookup_insert_eq.
      * simpl. rewrite invoke_throws by done. repeat split.
        apply list_lookup_insert_eq. by rewrite length_insert.
    + eexists [_; _], _. split.
      * eapply exec_cons; [by apply (step_check mem sys i c)|].
        eapply exec_cons; [|apply exec_nil].
        apply (step_enqueue mem _ i c); [|done]. simpl. rewrite Hd.
        by apply list_lookup_insert_eq.
      * simpl. rewrite invoke_live by done. repeat split.
        apply list_lookup_insert_eq. by rewrite length_insert.
Qed.

End StepFacts.

(** ** First in, first out *)

(** One step of a concrete execution: [lem] is a constructor of [step]
    awaiting the memory and the current system. *)
Ltac take_step lem :=
  lazymatch goal with
  | |- exec ?mem ?sys _ _ =>
      eapply (exec_cons mem sys); [apply (lem mem sys); reflexivity|]; cbn
  end.

(** The sample trace is an execution of the sample system. *)
Lemma sample_trace_runs :
  exists sys', exec blank_memory sample_system sample_trace sys'.
Proof.
  eexists. unfold sample_trace.
  take_step (fun mem sys => step_invoke mem sys (CallOnData 0 0)).
  take_step (fun mem sys => step_invoke mem sys (CallOnEvent 1 0)).
  take_step (fun mem sys => step_check mem sys 0%nat (CallOnData 0 0)).
  take_step (fun mem sys => step_set_destroyed mem sys).
  take_step (fun mem sys => step_check mem sys 1%nat (CallOnEvent 1 0)).
  take_step (fun mem sys => step_enqueue mem sys 0%nat (CallOnData 0 0)).
  take_step (fun mem sys => step_release mem sys).
  take_step (fun mem sys => step_drain mem sys).
  apply exec_nil.
Qed.

Lemma exec_conserves_events {St : Type} `{CaptureSession St} (mem : Memory)
    (sys sys' : System St) (tr : list Label) :
  exec mem sys tr sys' ->
  eventQueue_ (wrapper (world sys)) ++ enqueued tr
    = drained tr ++ eventQueue_ (wrapper (world sys')).
Proof.
  induction 1 as [|sys l sys1 tr sys2 Hstep Hexec IH]; simpl.
  - by rewrite app_nil_r.
  - inversion Hstep; subst; simpl in *; try done.
    + by rewrite <- IH, <- app_assoc.
    + rewrite <- IH. unfold Destructor_release.
      by destruct (handle_ (wrapper (world sys)) =? 0).
    + rewrite DrainEvents_spec in *. simpl in *.
      by rewrite <- app_assoc, <- IH.
Qed.

(** C1. Events passed to [QueueEvent] one after the other are returned by
    the next [DrainEvents] behind whatever was already queued, each once and
    in the order of the calls; the drain leaves the queue empty, so a further
    drain returns nothing; starting from an empty queue the drain returns
    exactly the events enqueued. The same holds with callbacks, drains and
    the destructor interleaved in any way: the events drained so far,
    followed by what a drain at the end returns, are the events queued at
    the start followed by the events pushed, in the order of the pushes. *)
Theorem DrainEvents_returns_queued_in_order {St : Type} `{CaptureSession St}
    (mem : Memory) (events : list AudioEvent) (w : Wrapper)
    (sys sys' : System St) (tr : list Label) :
  (DrainEvents (QueueEvents events w) = (eventQueue_ w ++ events, set_queue [] w) /\
   eventQueue_ (snd (DrainEvents (QueueEvents events w))) = [] /\
   fst (DrainEvents (snd (DrainEvents (QueueEvents events w)))) = [] /\
   fst (DrainEvents (QueueEvents events (set_queue [] w))) = events) /\
  (exec mem sys tr sys' ->
   drained tr ++ fst (DrainEvents (wrapper (world sys')))
     = eventQueue_ (wrapper (world sys)) ++ enqueued tr).
Proof.
  split.
  - rewrite !QueueEvents_spec, !DrainEvents_spec; simpl.
    rewrite ?DrainEvents_spec; simpl.
    repeat split; done.
  - intros Hexec. rewrite DrainEvents_spec. simpl.
    symmetry. by apply (exec_conserves_events mem).
Qed.

Lemma DrainEvents_returns_queued_in_order_witness :
  exists sys',
    exec blank_memory sample_system sample_trace sys' /\
    drained sample_trace ++ fst (DrainEvents (wrapper (world sys')))
      = enqueued sample_trace /\
    fst (DrainEvents (QueueEvents [started_event; empty_chunk_event] fresh_wrapper))
      = [started_event; empty_chunk_event].
Proof.
  destruct sample_trace_runs as [sys' Hexec]. exists sys'.
  destruct (DrainEvents_returns_queued_in_order blank_memory
              [started_event; empty_chunk_event] fresh_wrapper
              sample_system sys' sample_trace) as [(Hdrain & _) Hall].
  split; [exact Hexec|]. split; [exact (Hall Hexec)|].
  rewrite Hdrain. reflexivity.
Defined.

(** Metadata, then data, then stopped: one drain hands the three over in
    that order and a second one finds nothing. *)
Example ProcessEvents_scenario :
  ProcessEvents (invoke_all scenario_memory scenario_callbacks fresh_wrapper)
    = (Some (JsArray
         [ JsObject [("type", JsNumber 4%float); ("sampleRate", JsNumber 44100%float);
                     ("channelsPerFrame", JsNumber 2%float);
                     ("bitsPerChannel", JsNumber 32%float);
                     ("isFloat", JsBoolean true); ("encoding", JsString "pcm_f32")];
           JsObject [("type", JsNumber 0%float);
                     ("data", JsBuffer [x00; x01; x02; x03])];
           JsObject [("type", JsNumber 2%float)] ]),
       fresh_wrapper) /\
  fst (ProcessEvents
         (snd (ProcessEvents (invoke_all scenario_memory scenario_callbacks fresh_wrapper))))
    = Some (JsArray []).
Proof. split; vm_compute; reflexivity. Qed.


Lemma drained_app (a b : list Label) : drained (a ++ b) = drained a ++ drained b.
Proof. induction a as [|[] a IH]; simpl; by rewrite ?IH, ?app_assoc. Qed.



Section WindowFacts.
Context {St : Type} `{CaptureSession St}.
Variable mem : Memory.


Lemma exec_keeps_none_checked (sys sys' : System St) (tr : list Label) :
  exec mem sys tr sys' ->
  isDestroyed_ (wrapper (world sys)) = true ->
  (forall i c, producers sys !! i <> Some (Checked c)) ->
  isDestroyed_ (wrapper (world sys')) = true /\
  (forall i c, producers sys' !! i <> Some (Checked c)).
Proof.
  induction 1 as [|sys l sys1 tr sys2 Hstep Hexec IH]; intros Hd Hnone; [done|].
  destruct (step_keeps_none_checked mem _ _ _ Hstep Hd Hnone) as [_ Hnone'].
  apply IH; [by eapply step_keeps_destroyed|done].
Qed.


End WindowFacts.




(** ** Callbacks against the destructor *)

(** C3. Run to completion, each of [OnData], [OnEvent] and [OnMetadata]
    leaves a destroyed wrapper as it found it. In every interleaving of
    callbacks, destructor and drains that starts from a live wrapper with no
    callback in flight: an invocation enqueues only after its own check read
    the flag unset; an invocation whose check read the flag set never
    enqueues; once the destructor has set the flag no check reads it unset;
    and the handle is released only after the flag was set. *)
Theorem callbacks_check_isDestroyed_first {St : Type} `{CaptureSession St}
    (mem : Memory) (sys sys' : System St) (tr : list Label) :
  initial sys ->
  exec mem sys tr sys' ->
  (forall c w, isDestroyed_ w = true -> invoke mem c w = w) /\
  (forall m i event,
     tr !! m = Some (LEnqueue i event) ->
     exists n, (n < m)%nat /\ tr !! n = Some (LCheck i false)) /\
  (forall n m i event,
     tr !! n = Some (LCheck i true) -> (n < m)%nat ->
     tr !! m <> Some (LEnqueue i event)) /\
  (forall n m i,
     tr !! n = Some LSetDestroyed -> (n < m)%nat ->
     tr !! m <> Some (LCheck i false)) /\
  (forall m,
     tr !! m = Some LRelease ->
     exists n, (n < m)%nat /\ tr !! n = Some LSetDestroyed).
Proof.
  intros (Hpc & Hflag & Hnone) Hexec. repeat split.
  - intros c w. apply invoke_destroyed.
  - intros m i event Hm.
    destruct (exec_enqueue_after_own_check mem _ _ _ Hexec _ _ _ Hm) as [[c Hc]|Hn];
      [|done].
    rewrite Hnone in Hc. by rewrite lookup_nil in Hc.
  - by apply (exec_check_true_then_no_enqueue mem sys sys').
  - by apply (exec_flag_then_checks_read_true mem sys sys').
  - by apply (exec_release_after_flag mem sys sys').
Qed.

Lemma callbacks_check_isDestroyed_first_witness :
  initial sample_system /\
  (exists sys', exec blank_memory sample_system sample_trace sys') /\
  (forall m event, (4 < m)%nat -> sample_trace !! m <> Some (LEnqueue 1 event)) /\
  (exists n, (n < 6)%nat /\ sample_trace !! n = Some LSetDestroyed).
Proof.
  assert (Hinit : initial sample_system) by (by repeat split).
  destruct sample_trace_runs as [sys' Hexec].
  destruct (callbacks_check_isDestroyed_first blank_memory sample_system sys'
              sample_trace Hinit Hexec) as (_ & _ & Hnever & _ & Horder).
  split; [exact Hinit|]. split; [by exists sys'|]. split.
  - intros m event Hlt. by apply (Hnever 4%nat m 1%nat event).
  - by apply (Horder 6%nat).
Defined.

(** ** Start and stop *)

Lemma to_string_inj (a b : Z) : to_string a = to_string b -> a = b.
Proof. unfold to_string. apply pretty_Z_inj. Qed.

Lemma append_inj_r (prefix s t : string) : prefix +:+ s = prefix +:+ t -> s = t.
Proof. induction prefix as [|ch prefix IH]; simpl; [done|]. intros [= Heq]. auto. Qed.

(** C4, as the code has it. [Stop] leaves the error "Failed to stop ..."
    pending exactly when the session's stop returns a nonzero status and
    returns undefined either way. The wrapper has no running flag to clear:
    its own members are as before, the session is as its stop left it, and
    [IsRunning] afterwards is the session's answer for the handle. *)
Theorem Stop_throws_iff_status_nonzero {St : Type} `{CaptureSession St}
    (b : Binding) (world : World St) :
  let status := fst (coreaudio_stop (handle_ (wrapper world)) (session world)) in
  let collaborator' := snd (coreaudio_stop (handle_ (wrapper world)) (session world)) in
  (thrown (fst (Stop b world)) = Some (Error (stop_error b)) <-> status <> 0) /\
  (thrown (fst (Stop b world)) = None <-> status = 0) /\
  returned (fst (Stop b world)) = JsUndefined /\
  snd (Stop b world) = {| wrapper := wrapper world; session := collaborator' |} /\
  IsRunning (snd (Stop b world)) =
    JsBoolean (coreaudio_is_running (handle_ (wrapper world)) collaborator').
Proof.
  unfold Stop, IsRunning.
  destruct (coreaudio_stop (handle_ (wrapper world)) (session world)) as [status s'].
  simpl. destruct (Z.eqb_spec status 0) as [->|Hne]; simpl; repeat split; try done.
Qed.

(** C4, as stated, fails: with a session whose stop fails and which is
    still running, [Stop] raises its error and the wrapper is not stopped:
    [IsRunning] still answers true. *)
Lemma Stop_failure_leaves_session_running :
  thrown (fst (Stop AudioTeeNative world_that_fails_to_stop))
    = Some (Error "Failed to stop AudioTee") /\
  IsRunning (snd (Stop AudioTeeNative world_that_fails_to_stop)) = JsBoolean true /\
  wrapper (snd (Stop AudioTeeNative world_that_fails_to_stop))
    = wrapper world_that_fails_to_stop.
Proof. repeat split; reflexivity. Qed.

(** C5. For an options object, [Start] (and [StartSystemAudio]) leaves an
    error pending exactly when the session's start returns a nonzero status;
    the message is the fixed prefix followed by that status in decimal, from
    which the status can be read back; the wrapper's own members are the
    same after the call, failed or not; and a further [Start] goes to the
    session again, failing or succeeding by the status it then returns. *)
Theorem Start_throws_iff_status_nonzero {St : Type} `{CaptureSession St}
    (b : Binding) (options : JsValue) (rest : list JsValue) (world : World St) :
  IsObject options = true ->
  let started :=
    coreaudio_start_system_audio (handle_ (wrapper world))
      (system_audio_args options) (session world) in
  let status := fst started in
  let result := fst (Start b (options :: rest) world) in
  let world' := snd (Start b (options :: rest) world) in
  (thrown result <> None <-> status <> 0) /\
  (status <> 0 ->
     result = {| returned := JsNull;
                 thrown := Some (Error (start_error b +:+ to_string status)) |}) /\
  (status = 0 -> result = {| returned := JsUndefined; thrown := None |}) /\
  (forall other, start_error b +:+ to_string status = start_error b +:+ to_string other ->
                 status = other) /\
  world' = {| wrapper := wrapper world; session := snd started |} /\
  (forall options2 rest2,
     IsObject options2 = true ->
     thrown (fst (Start b (options2 :: rest2) world')) = None <->
     fst (coreaudio_start_system_audio (handle_ (wrapper world))
            (system_audio_args options2) (snd started)) = 0).
Proof.
  intros Hobj.
  set (call := fun o (w : World St) =>
         coreaudio_start_system_audio (handle_ (wrapper w)) (system_audio_args o)
           (session w)).
  assert (Hstart : forall o r (w : World St), IsObject o = true ->
            Start b (o :: r) w =
            (if negb (fst (call o w) =? 0)
             then {| returned := JsNull;
                     thrown := Some (Error (start_error b +:+ to_string (fst (call o w)))) |}
             else {| returned := JsUndefined; thrown := None |},
             {| wrapper := wrapper w; session := snd (call o w) |})).
  { intros o r w Ho. unfold Start, arg, call. simpl. rewrite Ho. simpl.
    destruct (coreaudio_start_system_audio _ _ _) as [st s']. simpl.
    by destruct (st =? 0). }
  simpl. rewrite !Hstart by done. unfold call in *. simpl.
  destruct (coreaudio_start_system_audio (handle_ (wrapper world))
              (system_audio_args options) (session world)) as [status s'].
  simpl. repeat split.
  - destruct (Z.eqb_spec status 0) as [->|Hne]; simpl; [done|]. intros _. done.
  - intros Hne. destruct (Z.eqb_spec status 0); simpl; done.
  - intros Hne. destruct (Z.eqb_spec status 0); simpl; done.
  - intros ->. done.
  - intros other Heq. by apply to_string_inj, (append_inj_r (start_error b)).
  - rewrite Hstart by done. simpl.
    destruct (Z.eqb_spec (fst (coreaudio_start_system_audio (handle_ (wrapper world))
                                 (system_audio_args options2) s')) 0); simpl; done.
  - rewrite Hstart by done. simpl. intros ->. done.
Qed.

Lemma Start_throws_iff_status_nonzero_witness :
  IsObject (JsObject []) = true /\
  fst (Start AudioTeeNative [JsObject []] world_that_fails_to_start)
    = {| returned := JsNull;
         thrown := Some (Error "Failed to start AudioTee: error code -50") |} /\
  wrapper (snd (Start AudioTeeNative [JsObject []] world_that_fails_to_start))
    = wrapper world_that_fails_to_start.
Proof.
  destruct (Start_throws_iff_status_nonzero AudioTeeNative (JsObject []) []
              world_that_fails_to_start eq_refl) as (_ & Hfail & _ & _ & Hworld & _).
  split; [reflexivity|]. split.
  - apply Hfail. discriminate.
  - rewrite Hworld. reflexivity.
Defined.

(** ** Device enumeration *)







(** The two sample records, decoded. *)
Example ListDevices_sample :
  option_map (fun r => returned (fst r)) (ListDevices sample_reply sample_heap)
    = Some (JsArray
        [ JsObject [("id", JsString "mic-0"); ("name", JsString "Built-in Microphone");
                    ("manufacturer", JsString "Apple Inc.");
                    ("isDefault", JsBoolean true); ("isInput", JsBoolean true);
                    ("isOutput", JsBoolean false);
                    ("sampleRate", JsNumber 48000%float);
                    ("channelCount", JsNumber 2%float)];
          JsObject [("id", JsString "spk-0"); ("name", JsString "Speakers");
                    ("manufacturer", JsString "");
                    ("isDefault", JsBoolean false); ("isInput", JsBoolean false);
                    ("isOutput", JsBoolean true);
                    ("sampleRate", JsNumber 44100%float);
                    ("channelCount", JsNumber 1%float)] ]).
Proof. vm_compute. reflexivity. Qed.

(** C10. When the enumeration returns a nonzero status or leaves the array
    pointer null, [ListDevices] returns an empty array with no error
    pending, exactly what it returns for a platform that reports success
    with no devices; [coreaudio_free_device_list] is not called and no array
    is released. *)
Theorem ListDevices_failure_gives_empty_array (reply : DeviceList.Reply) (heap : NativeHeap) :
  DeviceList.result reply <> 0 \/ DeviceList.devices reply = 0 ->
  ListDevices reply heap = Some ({| returned := JsArray []; thrown := None |}, heap) /\
  ListDevices reply heap
    = ListDevices {| DeviceList.result := 0; DeviceList.devices := 0;
                     DeviceList.count := 0 |} heap /\
  (forall heap', ListDevices reply heap = Some ({| returned := JsArray []; thrown := None |}, heap') ->
     freed heap' = freed heap /\ device_lists heap' = device_lists heap).
Proof.
  intros Hfail.
  assert (Hrun : ListDevices reply heap
                 = Some ({| returned := JsArray []; thrown := None |}, heap)).
  { unfold ListDevices. destruct Hfail as [Hres|Hnull].
    - by destruct (Z.eqb_spec (DeviceList.result reply) 0).
    - rewrite Hnull. simpl. by rewrite orb_true_r. }
  split; [exact Hrun|]. split; [by rewrite Hrun|].
  intros heap'. rewrite Hrun. by intros [= <-].
Qed.

Lemma ListDevices_failure_gives_empty_array_witness :
  ListDevices {| DeviceList.result := -1; DeviceList.devices := 8192;
                 DeviceList.count := 2 |} sample_heap
    = Some ({| returned := JsArray []; thrown := None |}, sample_heap) /\
  ListDevices {| DeviceList.result := 0; DeviceList.devices := 0;
                 DeviceList.count := 0 |} sample_heap
    = Some ({| returned := JsArray []; thrown := None |}, sample_heap).
Proof.
  split.
  - apply (ListDevices_failure_gives_empty_array
             {| DeviceList.result := -1; DeviceList.devices := 8192;
                DeviceList.count := 2 |} sample_heap).
    left. discriminate.
  - apply (ListDevices_failure_gives_empty_array
             {| DeviceList.result := 0; DeviceList.devices := 0;
                DeviceList.count := 0 |} sample_heap).
    right. reflexivity.
Defined.

(** ** Permission requests *)

Section PermissionFacts.
Implicit Types (rt : Runtime) (ctx : positive).

Lemma fresh_context_unused rt : contexts rt !! fresh (dom (contexts rt)) = None.
Proof. apply not_elem_of_dom, is_fresh. Qed.

Lemma fresh_function_unused rt : functions rt !! fresh (dom (functions rt)) = None.
Proof. apply not_elem_of_dom, is_fresh. Qed.

Lemma RequestPermission_spec api f rest rt :
  RequestPermission api (JsFunction f :: rest) rt =
  ({| returned := JsUndefined; thrown := None |},
   {| contexts :=
        <[fresh (dom (contexts rt)) := {| tsfn := fresh (dom (functions rt)) |}]>
          (contexts rt);
      functions :=
        <[fresh (dom (functions rt)) := {| tsfn_callback := f; tsfn_threads := 1 |}]>
          (functions rt);
      host_calls := host_calls rt;
      requests := requests rt ++ [(api, fresh (dom (contexts rt)))] |}).
Proof. reflexivity. Qed.

(** One completion of a live request: the host function is called once
    with [granted], the function is released and the context deleted, so
    the same context cannot complete again. *)
Lemma PermissionRequestCallback_spec granted ctx rt c f :
  contexts rt !! ctx = Some c ->
  functions rt !! tsfn c = Some f ->
  tsfn_threads f = 1%nat ->
  exists rt',
    PermissionRequestCallback granted ctx rt = Some rt' /\
    host_calls rt' = host_calls rt ++ [(tsfn_callback f, granted)] /\
    contexts rt' = delete ctx (contexts rt) /\
    functions rt' = delete (tsfn c) (functions rt) /\
    requests rt' = requests rt /\
    forall granted', PermissionRequestCallback granted' ctx rt' = None.
Proof.
  intros Hc Hf Hone. unfold PermissionRequestCallback. rewrite Hc, Hf.
  eexists. split; [reflexivity|]. simpl. unfold Release. rewrite Hone. simpl.
  repeat split. intros granted'. by rewrite lookup_delete_eq.
Qed.

End PermissionFacts.

Lemma delete_both_inserted {A : Type} (m : gmap positive A) (a b : positive) (x y : A) :
  m !! a = None -> m !! b = None ->
  delete b (delete a (<[b := y]> (<[a := x]> m))) = m /\
  delete a (delete b (<[b := y]> (<[a := x]> m))) = m.
Proof.
  intros Ha Hb. split; apply map_eq; intros k;
    destruct (decide (k = a)), (decide (k = b)); by simplify_map_eq.
Qed.

(** C7. Each [RequestPermission] call with a function argument allocates a
    context and a thread-safe function that were not in use, and hands that
    context to the collaborator without calling the host yet. For two
    requests outstanding together, in either order of completion: each
    completion callback marshals exactly one call of its own request's host
    function with its own [granted] flag, releases that request's function
    and deletes that request's context; afterwards the contexts and
    functions in use are those from before the two requests, and neither
    context can be completed a second time. A call without a function
    argument raises a TypeError and allocates nothing. *)
Theorem permission_request_completes_exactly_once
    (api1 api2 : PermissionApi) (f1 f2 : nat) (g1 g2 : bool)
    (rest1 rest2 : list JsValue) (rt : Runtime) :
  let r1 := snd (RequestPermission api1 (JsFunction f1 :: rest1) rt) in
  let r2 := snd (RequestPermission api2 (JsFunction f2 :: rest2) r1) in
  let c1 := fresh (dom (contexts rt)) in
  let c2 := fresh (dom (contexts r1)) in
  (contexts rt !! c1 = None /\ contexts r1 !! c2 = None /\ c1 <> c2) /\
  requests r2 = requests rt ++ [(api1, c1); (api2, c2)] /\
  host_calls r2 = host_calls rt /\
  (exists ra rb,
     PermissionRequestCallback g1 c1 r2 = Some ra /\
     PermissionRequestCallback g2 c2 ra = Some rb /\
     host_calls ra = host_calls rt ++ [(f1, g1)] /\
     host_calls rb = host_calls rt ++ [(f1, g1); (f2, g2)] /\
     contexts rb = contexts rt /\ functions rb = functions rt /\
     (forall g, PermissionRequestCallback g c1 ra = None) /\
     (forall g, PermissionRequestCallback g c1 rb = None) /\
     (forall g, PermissionRequestCallback g c2 rb = None)) /\
  (exists ra rb,
     PermissionRequestCallback g2 c2 r2 = Some ra /\
     PermissionRequestCallback g1 c1 ra = Some rb /\
     host_calls ra = host_calls rt ++ [(f2, g2)] /\
     host_calls rb = host_calls rt ++ [(f2, g2); (f1, g1)] /\
     contexts rb = contexts rt /\ functions rb = functions rt /\
     (forall g, PermissionRequestCallback g c1 rb = None) /\
     (forall g, PermissionRequestCallback g c2 rb = None)) /\
  (forall info,
     IsFunction (arg info 0) = false ->
     RequestPermission api1 info rt =
     ({| returned := JsUndefined;
         thrown := Some (TypeError "Callback function expected") |}, rt)).
Proof.
  destruct rt as [m fm calls reqs]. cbv zeta.
  repeat (rewrite RequestPermission_spec;
          cbn [snd contexts functions host_calls requests]).
  set (c1 := fresh (dom m)).
  set (h1 := fresh (dom fm)).
  set (c2 := fresh (dom (<[c1 := {| tsfn := h1 |}]> m))).
  set (h2 := fresh (dom (<[h1 := {| tsfn_callback := f1; tsfn_threads := 1 |}]> fm))).
  assert (Hc1 : m !! c1 = None) by apply not_elem_of_dom, is_fresh.
  assert (Hh1 : fm !! h1 = None) by apply not_elem_of_dom, is_fresh.
  assert (Hc2 : <[c1 := {| tsfn := h1 |}]> m !! c2 = None)
    by apply not_elem_of_dom, is_fresh.
  assert (Hh2 : <[h1 := {| tsfn_callback := f1; tsfn_threads := 1 |}]> fm !! h2 = None)
    by apply not_elem_of_dom, is_fresh.
  assert (Hc12 : c1 <> c2) by (intros Heq; rewrite <- Heq, lookup_insert_eq in Hc2; done).
  assert (Hh12 : h1 <> h2) by (intros Heq; rewrite <- Heq, lookup_insert_eq in Hh2; done).
  assert (Hc2' : m !! c2 = None) by (by rewrite lookup_insert_ne in Hc2).
  assert (Hh2' : fm !! h2 = None) by (by rewrite lookup_insert_ne in Hh2).
  destruct (delete_both_inserted m c1 c2 {| tsfn := h1 |} {| tsfn := h2 |} Hc1 Hc2')
    as [Hm12 Hm21].
  destruct (delete_both_inserted fm h1 h2
              {| tsfn_callback := f1; tsfn_threads := 1 |}
              {| tsfn_callback := f2; tsfn_threads := 1 |} Hh1 Hh2') as [Hf12 Hf21].
  split; [done|]. split; [by rewrite <- app_assoc|]. split; [done|].
  split; [|split].
  - unfold PermissionRequestCallback; cbn [contexts functions host_calls requests].
    rewrite lookup_insert_ne, lookup_insert_eq by done. cbn [tsfn].
    rewrite lookup_insert_ne, lookup_insert_eq by done.
    eexists _, _. split; [reflexivity|].
    cbn [contexts functions host_calls requests tsfn_callback tsfn_threads Release Nat.leb].
    rewrite lookup_delete_ne, lookup_insert_eq by done. cbn [tsfn].
    rewrite lookup_delete_ne, lookup_insert_eq by done.
    split; [reflexivity|].
    cbn [contexts functions host_calls requests tsfn_callback tsfn_threads Release Nat.leb].
    rewrite <- app_assoc, Hm12, Hf12, Hc1, Hc2', lookup_delete_eq.
    repeat split; done.
  - unfold PermissionRequestCallback; cbn [contexts functions host_calls requests].
    rewrite lookup_insert_eq. cbn [tsfn]. rewrite lookup_insert_eq.
    eexists _, _. split; [reflexivity|].
    cbn [contexts functions host_calls requests tsfn_callback tsfn_threads Release Nat.leb].
    rewrite delete_insert_eq, (delete_id _ c2), lookup_insert_eq by done. cbn [tsfn].
    rewrite delete_insert_eq, (delete_id _ h2), lookup_insert_eq by done.
    split; [reflexivity|].
    cbn [contexts functions host_calls requests tsfn_callback tsfn_threads Release Nat.leb].
    rewrite <- app_assoc, !delete_insert_eq, !delete_id, Hc1, Hc2' by done.
    repeat split; done.
  - intros info Hnot. unfold RequestPermission. rewrite Hnot. simpl.
    by rewrite orb_true_r.
Qed.

(** Two requests answered in turn, and a completion delivered twice. *)
Example two_requests_complete :
  requests two_requests
    = [(audiotee_permission_request, 1%positive);
       (coreaudio_mic_permission_request, 2%positive)] /\
  host_calls <$> (PermissionRequestCallback true 1 two_requests
                    ≫= PermissionRequestCallback false 2)
    = Some [(7%nat, true); (8%nat, false)] /\
  host_calls <$> (PermissionRequestCallback false 2 two_requests
                    ≫= PermissionRequestCallback true 1)
    = Some [(8%nat, false); (7%nat, true)] /\
  PermissionRequestCallback true 1 two_requests ≫= PermissionRequestCallback false 1
    = None.
Proof. repeat split; vm_compute; reflexivity. Qed.

(** ** Data chunks of length zero *)

(** C8. On a wrapper that is not destroyed, [OnData] with length 0 queues a
    data event whose payload is empty; the next drain returns it behind the
    events already queued, and [ProcessEvents] turns it into an object of
    type 0 whose [data] is a buffer of length zero. *)
Theorem OnData_forwards_empty_chunk (mem : Memory) (data_ptr : Z) (self : Wrapper) :
  isDestroyed_ self = false ->
  OnData mem data_ptr 0 self = QueueEvent empty_chunk_event self /\
  fst (DrainEvents (OnData mem data_ptr 0 self)) = eventQueue_ self ++ [empty_chunk_event] /\
  event_object empty_chunk_event
    = Some (JsObject [("type", JsNumber 0%float); ("data", JsBuffer [])]) /\
  (eventQueue_ self = [] ->
   ProcessEvents (OnData mem data_ptr 0 self)
     = (Some (JsArray [JsObject [("type", JsNumber 0%float); ("data", JsBuffer [])]]),
        self)).
Proof.
  intros Hlive.
  assert (Hon : OnData mem data_ptr 0 self = QueueEvent empty_chunk_event self).
  { unfold OnData. by rewrite Hlive. }
  rewrite Hon. split; [done|]. split; [by rewrite DrainEvents_spec|].
  split; [reflexivity|].
  intros Hempty. unfold ProcessEvents. rewrite DrainEvents_spec. simpl.
  rewrite Hempty. simpl. f_equal. destruct self; simpl in *. by subst.
Qed.

Lemma OnData_forwards_empty_chunk_witness :
  isDestroyed_ fresh_wrapper = false /\
  ProcessEvents (OnData blank_memory 0 0 fresh_wrapper)
    = (Some (JsArray [JsObject [("type", JsNumber 0%float); ("data", JsBuffer [])]]),
       fresh_wrapper).
Proof.
  split; [reflexivity|].
  apply (OnData_forwards_empty_chunk blank_memory 0 fresh_wrapper); reflexivity.
Defined.

(** ** Option defaults *)

Lemma Has_false_Get (options : JsValue) (key : string) :
  Has options key = false -> Get options key = JsUndefined.
Proof.
  unfold Has, Get. destruct options; try done. by destruct (find_prop key props).
Qed.

Lemma push_process_ids_spec (elems : list JsValue) (processes : list Z) :
  push_process_ids elems processes =
  processes ++ map (fun v => Int32Value (DoubleValue v)) (List.filter IsNumber elems).
Proof.
  revert processes. induction elems as [|v rest IH]; intros processes; simpl.
  - by rewrite app_nil_r.
  - rewrite IH. destruct (IsNumber v); simpl; [by rewrite <- app_assoc|done].
Qed.

Lemma option_double_default (options : JsValue) (key : string) (default : float) :
  IsNumber (Get options key) = false -> option_double options key default = default.
Proof. intros Hn. unfold option_double. rewrite Hn. by rewrite andb_false_r. Qed.

Lemma option_processes_array (options : JsValue) (key : string) (elems : list JsValue) :
  Get options key = JsArray elems ->
  option_processes options key =
  map (fun v => Int32Value (DoubleValue v)) (List.filter IsNumber elems).
Proof.
  intros Hget. unfold option_processes. rewrite Hget. simpl.
  destruct (Has options key) eqn:Hhas.
  - simpl. by rewrite push_process_ids_spec.
  - apply Has_false_Get in Hhas. congruence.
Qed.

(** C9. An absent option reads as undefined. Whenever an option does not
    hold a value of the type its field expects, absent or not, the argument
    forwarded to the session is the default: sampleRate 0, chunkDurationMs
    200, mute false, isMono true, gain 1, deviceUID null. The entries of an
    includeProcesses / excludeProcesses array that are not numbers are left
    out, the numbers are forwarded in order with their count. Whatever the
    options object holds, the only error [Start] or [StartMicrophone] can
    leave pending is the session's own nonzero status: the session is called
    with exactly these arguments. *)
Theorem options_fall_back_to_defaults {St : Type} `{CaptureSession St}
    (options : JsValue) :
  let system := system_audio_args options in
  let mic := microphone_args options in
  let numbers elems := map (fun v => Int32Value (DoubleValue v)) (List.filter IsNumber elems) in
  (forall key, Has options key = false -> Get options key = JsUndefined) /\
  (IsNumber (Get options "sampleRate") = false ->
   SystemAudio.sampleRate system = 0%float /\ Microphone.sampleRate mic = 0%float) /\
  (IsNumber (Get options "chunkDurationMs") = false ->
   SystemAudio.chunkDurationMs system = 200%float /\
   Microphone.chunkDurationMs mic = 200%float) /\
  (IsBoolean (Get options "mute") = false -> SystemAudio.mute system = false) /\
  (IsBoolean (Get options "stereo") = false ->
   SystemAudio.isMono system = true /\ Microphone.isMono mic = true) /\
  (IsNumber (Get options "gain") = false -> Microphone.gain mic = 1%float) /\
  (IsString (Get options "deviceId") = false -> Microphone.deviceUID mic = None) /\
  (forall elems,
     Get options "includeProcesses" = JsArray elems ->
     SystemAudio.includeProcesses system = data_or_null (numbers elems) /\
     SystemAudio.includeProcessCount system
       = wrap_int32 (Z.of_nat (length (numbers elems)))) /\
  (forall elems,
     Get options "excludeProcesses" = JsArray elems ->
     SystemAudio.excludeProcesses system = data_or_null (numbers elems) /\
     SystemAudio.excludeProcessCount system
       = wrap_int32 (Z.of_nat (length (numbers elems)))) /\
  (forall b rest (world : World St),
     IsObject options = true ->
     let started := coreaudio_start_system_audio (handle_ (wrapper world)) system
                      (session world) in
     snd (Start b (options :: rest) world)
       = {| wrapper := wrapper world; session := snd started |} /\
     (thrown (fst (Start b (options :: rest) world)) = None <-> fst started = 0)) /\
  (forall rest (world : World St),
     IsObject options = true ->
     let started := coreaudio_start_microphone (handle_ (wrapper world)) mic
                      (session world) in
     snd (StartMicrophone (options :: rest) world)
       = {| wrapper := wrapper world; session := snd started |} /\
     (thrown (fst (StartMicrophone (options :: rest) world)) = None <-> fst started = 0)).
Proof.
  cbv zeta. split; [apply Has_false_Get|].
  unfold system_audio_args, microphone_args; simpl.
  split; [by intros Hn; rewrite !option_double_default|].
  split; [by intros Hn; rewrite !option_double_default|].
  split; [by intros ->; rewrite andb_false_r|].
  split; [by intros ->; rewrite andb_false_r|].
  split; [by intros Hn; rewrite !option_double_default|].
  split; [by intros ->; rewrite andb_false_r|].
  split; [by intros elems Hget; rewrite (option_processes_array _ _ _ Hget)|].
  split; [by intros elems Hget; rewrite (option_processes_array _ _ _ Hget)|].
  split.
  - intros b rest world Hobj. unfold Start, arg. simpl. rewrite Hobj. simpl.
    fold (system_audio_args options).
    destruct (coreaudio_start_system_audio _ _ _) as [status s']. simpl.
    destruct (Z.eqb_spec status 0); simpl; split; done.
  - intros rest world Hobj. unfold StartMicrophone, arg. simpl. rewrite Hobj. simpl.
    fold (microphone_args options).
    destruct (coreaudio_start_microphone _ _ _) as [status s']. simpl.
    destruct (Z.eqb_spec status 0); simpl; split; done.
Qed.

Lemma options_fall_back_to_defaults_witness :
  IsNumber (Get sample_options "sampleRate") = false /\
  IsBoolean (Get sample_options "stereo") = false /\
  SystemAudio.sampleRate (system_audio_args sample_options) = 0%float /\
  SystemAudio.isMono (system_audio_args sample_options) = true /\
  Microphone.deviceUID (microphone_args sample_options) = None /\
  SystemAudio.includeProcesses (system_audio_args sample_options) = Some [10; 20] /\
  SystemAudio.includeProcessCount (system_audio_args sample_options) = 2.
Proof.
  destruct (options_fall_back_to_defaults (St := ScriptedSession) sample_options)
    as (_ & Hrate & _ & _ & Hstereo & _ & Hdevice & Hinclude & _).
  split; [reflexivity|]. split; [reflexivity|].
  split; [by apply Hrate|]. split; [by apply Hstereo|]. split; [by apply Hdevice|].
  destruct (Hinclude _ eq_refl) as [Hids Hcount].
  split; [rewrite Hids | rewrite Hcount]; reflexivity.
Defined.

(* ===================================================================== *)
(** * Further properties of the bindings                                  *)
(* ===================================================================== *)

(** ** Construction and destruction *)

Lemma ProcessEvents_empty_queue (w : Wrapper) :
  eventQueue_ w = [] -> ProcessEvents w = (Some (JsArray []), w).
Proof.
  intros Hq. unfold ProcessEvents. rewrite DrainEvents_spec, Hq. simpl.
  f_equal. destruct w; simpl in *. by subst.
Qed.

(** X1. The constructor leaves "Failed to create ... session" pending
    exactly when the session's create returned a null handle. Either way
    the wrapper starts with that handle, an empty queue and the destroyed
    flag unset, and polling it with [ProcessEvents], any number of times,
    returns an empty array each time and changes nothing. *)
Theorem Constructor_throws_iff_null_handle {St : Type} `{CaptureSession St}
    (b : Binding) (collaborator : St) (polls : nat) :
  let handle := fst (coreaudio_create collaborator) in
  let result := fst (Constructor b collaborator) in
  let self := wrapper (snd (Constructor b collaborator)) in
  (thrown result = Some (Error (create_error b)) <-> handle = 0) /\
  (thrown result = None <-> handle <> 0) /\
  self = {| handle_ := handle; eventQueue_ := []; isDestroyed_ := false |} /\
  session (snd (Constructor b collaborator)) = snd (coreaudio_create collaborator) /\
  Nat.iter polls (fun w => snd (ProcessEvents w)) self = self /\
  fst (ProcessEvents (Nat.iter polls (fun w => snd (ProcessEvents w)) self))
    = Some (JsArray []).
Proof.
  unfold Constructor.
  destruct (coreaudio_create collaborator) as [handle collaborator']. simpl.
  assert (Hiter : Nat.iter polls (fun w => snd (ProcessEvents w))
                    {| handle_ := handle; eventQueue_ := []; isDestroyed_ := false |}
                  = {| handle_ := handle; eventQueue_ := []; isDestroyed_ := false |}).
  { induction polls as [|n IH]; simpl; [done|]. by rewrite IH. }
  rewrite Hiter.
  destruct (Z.eqb_spec handle 0) as [->|Hne]; repeat split; try done.
Qed.

Section ReleaseFacts.
Context {St : Type} `{CaptureSession St}.
Variable mem : Memory.

Lemma Destructor_session (w : World St) :
  Destructor w
    = if handle_ (wrapper w) =? 0 then session w
      else coreaudio_destroy (handle_ (wrapper w)) (session w).
Proof.
  unfold Destructor, Destructor_release, set_wrapper, Destructor_set_flag. simpl.
  by destruct (handle_ (wrapper w) =? 0).
Qed.

Lemma Destructor_release_session (w : World St) :
  session (Destructor_release w) = Destructor w.
Proof.
  rewrite Destructor_session. unfold Destructor_release.
  by destruct (handle_ (wrapper w) =? 0).
Qed.

Lemma step_keeps_session (sys sys' : System St) (l : Label) :
  step mem sys l sys' -> is_release l = false ->
  session (world sys') = session (world sys) /\
  handle_ (wrapper (world sys')) = handle_ (wrapper (world sys)) /\
  (destructor sys <> Released -> destructor sys' <> Released).
Proof.
  intros Hstep Hl. inversion Hstep; subst; simpl in *; try done.
  by rewrite DrainEvents_spec.
Qed.

Lemma exec_released_stays (sys sys' : System St) (tr : list Label) :
  exec mem sys tr sys' -> destructor sys = Released ->
  (LRelease ∉ tr) /\ session (world sys') = session (world sys).
Proof.
  induction 1 as [|sys l sys1 tr sys2 Hstep Hexec IH]; intros Hpc.
  - split; [apply not_elem_of_nil|done].
  - assert (is_release l = false) as Hl.
    { inversion Hstep; subst; simpl; try done. congruence. }
    destruct (step_keeps_session _ _ _ Hstep Hl) as (Hs & _ & _).
    assert (destructor sys1 = Released) as Hpc1.
    { inversion Hstep; subst; simpl in *; try done; congruence. }
    destruct (IH Hpc1) as [Hnone Hsame]. split; [|congruence].
    apply not_elem_of_cons. split; [|done]. intros <-. discriminate.
Qed.

Lemma exec_release_once (sys sys' : System St) (tr : list Label) :
  exec mem sys tr sys' -> destructor sys <> Released ->
  ((LRelease ∉ tr) /\ session (world sys') = session (world sys)) \/
  (exists n,
     tr !! n = Some LRelease /\
     (forall m, tr !! m = Some LRelease -> m = n) /\
     session (world sys') = Destructor (world sys)).
Proof.
  induction 1 as [|sys l sys1 tr sys2 Hstep Hexec IH]; intros Hpc.
  - left. split; [apply not_elem_of_nil|done].
  - destruct (is_release l) eqn:Hl.
    + destruct l; try discriminate. inversion Hstep; subst.
      destruct (exec_released_stays _ _ _ Hexec eq_refl) as [Hnone Hsame].
      simpl in Hsame. right. exists 0%nat. split; [done|]. split.
      * intros [|m] Hm; [done|]. simpl in Hm.
        exfalso. apply Hnone. by eapply list_elem_of_lookup_2.
      * by rewrite Hsame, Destructor_release_session.
    + destruct (step_keeps_session _ _ _ Hstep Hl) as (Hs & Hh & Hpc1).
      destruct (IH (Hpc1 Hpc)) as [[Hnone Hsame]|(n & Hn & Honce & Hsame)].
      * left. split; [|congruence].
        apply not_elem_of_cons. split; [|done]. intros <-. discriminate.
      * right. exists (Datatypes.S n). split; [done|]. split.
        -- intros [|m] Hm; simpl in Hm.
           ++ injection Hm as ->. discriminate.
           ++ f_equal. by apply Honce.
        -- rewrite Hsame, !Destructor_session. by rewrite Hs, Hh.
Qed.

End ReleaseFacts.

(** X2. The wrapper hands to the session's destroy exactly the handle it
    holds, and does so once. The destructor of a freshly constructed wrapper
    calls destroy with the handle create returned, and calls nothing if that
    handle is null (a failed construction). In every interleaving of
    callbacks, drains and the destructor that begins before the release:
    either there is no release step and the session is as it was, or there
    is exactly one, and the session is then what destroy makes of it for the
    handle the wrapper held at the beginning (untouched for a null handle):
    nothing else the wrapper does reaches the session, and no step changes
    the handle before it is released. *)
Theorem Destructor_releases_handle_once {St : Type} `{CaptureSession St}
    (mem : Memory) (b : Binding) (collaborator : St)
    (sys sys' : System St) (tr : list Label) :
  (let created := coreaudio_create collaborator in
   Destructor (snd (Constructor b collaborator))
     = if fst created =? 0 then snd created
       else coreaudio_destroy (fst created) (snd created)) /\
  (exec mem sys tr sys' -> destructor sys <> Released ->
   ((LRelease ∉ tr) /\ session (world sys') = session (world sys)) \/
   (exists n,
      tr !! n = Some LRelease /\
      (forall m, tr !! m = Some LRelease -> m = n) /\
      session (world sys')
        = if handle_ (wrapper (world sys)) =? 0 then session (world sys)
          else coreaudio_destroy (handle_ (wrapper (world sys))) (session (world sys)))).
Proof.
  split.
  - cbv zeta. rewrite Destructor_session. unfold Constructor.
    by destruct (coreaudio_create collaborator) as [handle collaborator'].
  - intros Hexec Hpc.
    destruct (exec_release_once mem _ _ _ Hexec Hpc) as [Hnone|(n & Hn & Honce & Hs)];
      [by left|].
    right. exists n. split; [done|]. split; [done|]. by rewrite Hs, Destructor_session.
Qed.

(** The scripted session sees one destroy, for the handle it created, and
    none after a failed construction; in the sample interleaving the one
    release step destroys handle 4096. *)
Example Destructor_destroys_created_handle :
  calls (Destructor world_with_pending_event) = [called_destroy 4096] /\
  calls (Destructor (snd (Constructor AudioTeeNative failing_collaborator)))
    = [called_create] /\
  (forall sys', exec blank_memory sample_system sample_trace sys' ->
     calls (session (world sys')) = [called_destroy 4096]).
Proof.
  split; [reflexivity|]. split; [reflexivity|].
  intros sys' Hexec.
  destruct (exec_release_once blank_memory _ _ _ Hexec) as [[Hnone _]|(n & _ & _ & Hs)];
    [discriminate| |].
  - exfalso. apply Hnone. unfold sample_trace.
    do 6 (apply elem_of_cons; right). by left.
  - by rewrite Hs.
Qed.

(** ** Start *)

(** X3. Called with no argument, or with a first argument that is not an
    object, [Start], [StartSystemAudio] and [StartMicrophone] leave the
    TypeError "Options object expected" pending, return null and do not
    reach the session: wrapper and session are as before. *)
Theorem Start_rejects_missing_options {St : Type} `{CaptureSession St}
    (b : Binding) (info : list JsValue) (alive : World St) :
  IsObject (arg info 0) = false ->
  Start b info alive
    = ({| returned := JsNull; thrown := Some (TypeError "Options object expected") |},
       alive) /\
  StartMicrophone info alive
    = ({| returned := JsNull; thrown := Some (TypeError "Options object expected") |},
       alive).
Proof.
  intros Hnot. unfold Start, StartMicrophone. rewrite Hnot. simpl.
  by rewrite orb_true_r.
Qed.

Lemma Start_rejects_missing_options_witness :
  Start AudioRecorderNative [] world_that_fails_to_start
    = ({| returned := JsNull; thrown := Some (TypeError "Options object expected") |},
       world_that_fails_to_start) /\
  StartMicrophone [JsString "mic-0"] world_that_fails_to_start
    = ({| returned := JsNull; thrown := Some (TypeError "Options object expected") |},
       world_that_fails_to_start).
Proof.
  split.
  - apply (Start_rejects_missing_options AudioRecorderNative [] world_that_fails_to_start).
    reflexivity.
  - apply (Start_rejects_missing_options AudioRecorderNative [JsString "mic-0"]
             world_that_fails_to_start).
    reflexivity.
Defined.

Lemma Get_defined_Has (options : JsValue) (key : string) :
  Get options key <> JsUndefined -> Has options key = true.
Proof.
  intros Hget. destruct (Has options key) eqn:Hhas; [done|].
  by apply Has_false_Get in Hhas.
Qed.

Lemma option_double_given (options : JsValue) (key : string) (default d : float) :
  Get options key = JsNumber d -> option_double options key default = d.
Proof.
  intros Hget. unfold option_double.
  rewrite Get_defined_Has by (by rewrite Hget). by rewrite Hget.
Qed.

Lemma c_str_without_nul (text : string) :
  "000"%char ∉ list_ascii_of_string text -> c_str text = text.
Proof.
  induction text as [|ch rest IH]; simpl; [done|]. intros Hnone.
  apply not_elem_of_cons in Hnone as [Hch Hrest].
  destruct (Ascii.eqb_spec ch "000"%char) as [->|_]; [done|]. by rewrite IH.
Qed.

Lemma c_str_stops_at_nul (before after : string) :
  "000"%char ∉ list_ascii_of_string before ->
  c_str (before +:+ String "000" after) = before.
Proof.
  induction before as [|ch rest IH]; simpl; [done|]. intros Hnone.
  apply not_elem_of_cons in Hnone as [Hch Hrest].
  destruct (Ascii.eqb_spec ch "000"%char) as [->|_]; [done|]. by rewrite IH.
Qed.

(** X4. An option given in the type its field expects is forwarded as it
    is, whatever its value: sampleRate, chunkDurationMs and gain as the very
    double (no range check, gain included), mute as given; stereo is
    forwarded negated, as isMono. deviceId reaches the session as a C
    string: the text given when it holds no NUL character, and otherwise
    only what stands before its first NUL. *)
Theorem typed_options_are_forwarded (options : JsValue) :
  let system := system_audio_args options in
  let mic := microphone_args options in
  (forall d, Get options "sampleRate" = JsNumber d ->
     SystemAudio.sampleRate system = d /\ Microphone.sampleRate mic = d) /\
  (forall d, Get options "chunkDurationMs" = JsNumber d ->
     SystemAudio.chunkDurationMs system = d /\ Microphone.chunkDurationMs mic = d) /\
  (forall flag, Get options "mute" = JsBoolean flag -> SystemAudio.mute system = flag) /\
  (forall flag, Get options "stereo" = JsBoolean flag ->
     SystemAudio.isMono system = negb flag /\ Microphone.isMono mic = negb flag) /\
  (forall text, Get options "deviceId" = JsString text ->
     "000"%char ∉ list_ascii_of_string text ->
     Microphone.deviceUID mic = Some text) /\
  (forall before after,
     Get options "deviceId" = JsString (before +:+ String "000" after) ->
     "000"%char ∉ list_ascii_of_string before ->
     Microphone.deviceUID mic = Some before) /\
  (forall d, Get options "gain" = JsNumber d -> Microphone.gain mic = d).
Proof.
  cbv zeta. unfold system_audio_args, microphone_args; simpl.
  split; [by intros d Hget; rewrite !(option_double_given _ _ _ d)|].
  split; [by intros d Hget; rewrite !(option_double_given _ _ _ d)|].
  split; [by intros flag Hget; rewrite Get_defined_Has, Hget by (by rewrite Hget)|].
  split; [by intros flag Hget; rewrite Get_defined_Has, Hget by (by rewrite Hget)|].
  split.
  { intros text Hget Hnone. rewrite Get_defined_Has, Hget by (by rewrite Hget).
    simpl. by rewrite c_str_without_nul. }
  split.
  { intros before after Hget Hnone. rewrite Get_defined_Has, Hget by (by rewrite Hget).
    simpl. by rewrite c_str_stops_at_nul. }
  by intros d Hget; rewrite !(option_double_given _ _ _ d).
Qed.

Lemma typed_options_are_forwarded_witness :
  microphone_args typed_options
    = {| Microphone.sampleRate := 16000%float;
         Microphone.chunkDurationMs := 20%float;
         Microphone.isMono := false;
         Microphone.deviceUID := Some "mic-0"%string;
         Microphone.gain := 0.5%float |} /\
  SystemAudio.mute (system_audio_args typed_options) = true /\
  Microphone.deviceUID
    (microphone_args (JsObject [("deviceId", JsString ("mic" +:+ String "000" "xyz"))]))
    = Some "mic"%string.
Proof.
  destruct (typed_options_are_forwarded typed_options)
    as (Hrate & Hchunk & Hmute & Hstereo & Hdevice & _ & Hgain).
  destruct (typed_options_are_forwarded
              (JsObject [("deviceId", JsString ("mic" +:+ String "000" "xyz"))]))
    as (_ & _ & _ & _ & _ & Hcut & _).
  assert (Hclean : forall text : string,
            forallb (fun ch => negb (Ascii.eqb ch "000"%char)) (list_ascii_of_string text)
              = true ->
            "000"%char ∉ list_ascii_of_string text).
  { intros text Hall Hin. rewrite forallb_forall in Hall.
    apply list_elem_of_In in Hin. apply Hall in Hin. by rewrite Ascii.eqb_refl in Hin. }
  split; [|split; [by apply Hmute|]].
  - destruct (Hrate 16000%float eq_refl) as [_ H1].
    destruct (Hchunk 20%float eq_refl) as [_ H2].
    destruct (Hstereo true eq_refl) as [_ H3].
    pose proof (Hdevice "mic-0"%string eq_refl (Hclean "mic-0"%string eq_refl)) as H4.
    pose proof (Hgain 0.5%float eq_refl) as H5.
    destruct (microphone_args typed_options); simpl in *. by subst.
  - apply (Hcut "mic"%string "xyz"%string eq_refl). by apply (Hclean "mic"%string).
Defined.

Lemma wrap_int32_small (n : Z) : - 2 ^ 31 <= n < 2 ^ 31 -> wrap_int32 n = n.
Proof. intros Hn. unfold wrap_int32. rewrite Z.mod_small; lia. Qed.

(** X5. For a process array of fewer than 2^31 entries the session gets
    either a null pointer with count 0, exactly when the array holds no
    number, or a pointer to the numbers in array order with their exact
    count: the pointer is null if and only if the count is 0. A key that
    holds no array gives the null pointer and 0. *)
Theorem process_pointer_null_iff_count_zero (options : JsValue) :
  let system := system_audio_args options in
  let numbers elems := map (fun v => Int32Value (DoubleValue v)) (List.filter IsNumber elems) in
  (forall elems,
     Get options "includeProcesses" = JsArray elems ->
     Z.of_nat (length elems) < 2 ^ 31 ->
     SystemAudio.includeProcessCount system = Z.of_nat (length (numbers elems)) /\
     (SystemAudio.includeProcesses system = None <->
      SystemAudio.includeProcessCount system = 0) /\
     (SystemAudio.includeProcesses system = None <-> List.filter IsNumber elems = []) /\
     (SystemAudio.includeProcesses system <> None ->
      SystemAudio.includeProcesses system = Some (numbers elems))) /\
  (forall elems,
     Get options "excludeProcesses" = JsArray elems ->
     Z.of_nat (length elems) < 2 ^ 31 ->
     SystemAudio.excludeProcessCount system = Z.of_nat (length (numbers elems)) /\
     (SystemAudio.excludeProcesses system = None <->
      SystemAudio.excludeProcessCount system = 0) /\
     (SystemAudio.excludeProcesses system = None <-> List.filter IsNumber elems = []) /\
     (SystemAudio.excludeProcesses system <> None ->
      SystemAudio.excludeProcesses system = Some (numbers elems))) /\
  (IsArray (Get options "includeProcesses") = false ->
   SystemAudio.includeProcesses system = None /\
   SystemAudio.includeProcessCount system = 0) /\
  (IsArray (Get options "excludeProcesses") = false ->
   SystemAudio.excludeProcesses system = None /\
   SystemAudio.excludeProcessCount system = 0).
Proof.
  cbv zeta.
  assert (Hcase : forall elems : list JsValue,
            Z.of_nat (length elems) < 2 ^ 31 ->
            let ids := map (fun v => Int32Value (DoubleValue v)) (List.filter IsNumber elems) in
            wrap_int32 (Z.of_nat (length ids)) = Z.of_nat (length ids) /\
            (data_or_null ids = None <-> wrap_int32 (Z.of_nat (length ids)) = 0) /\
            (data_or_null ids = None <-> List.filter IsNumber elems = []) /\
            (data_or_null ids <> None -> data_or_null ids = Some ids)).
  { intros elems Hlen ids.
    assert (Hle : (length ids <= length elems)%nat).
    { unfold ids. rewrite length_map. apply List.filter_length_le. }
    rewrite wrap_int32_small by lia.
    split; [done|]. unfold ids.
    destruct (List.filter IsNumber elems) as [|v rest]; simpl; repeat split; done. }
  unfold system_audio_args; simpl.
  split; [|split; [|split]].
  - intros elems Hget Hlen. rewrite (option_processes_array _ _ _ Hget).
    by apply Hcase.
  - intros elems Hget Hlen. rewrite (option_processes_array _ _ _ Hget).
    by apply Hcase.
  - intros Hno. unfold option_processes. by rewrite Hno, andb_false_r.
  - intros Hno. unfold option_processes. by rewrite Hno, andb_false_r.
Qed.

Lemma process_pointer_null_iff_count_zero_witness :
  SystemAudio.includeProcessCount (system_audio_args sample_options) = 2 /\
  SystemAudio.includeProcesses (system_audio_args sample_options) = Some [10; 20] /\
  SystemAudio.excludeProcesses (system_audio_args sample_options) = None /\
  SystemAudio.excludeProcessCount (system_audio_args sample_options) = 0.
Proof.
  destruct (process_pointer_null_iff_count_zero sample_options)
    as (Hinclude & _ & _ & Hexclude).
  assert (Hlen : Z.of_nat (length [JsNumber 10%float; JsString "11"; JsNull;
                                   JsNumber 20.75%float]) < 2 ^ 31) by reflexivity.
  destruct (Hinclude _ eq_refl Hlen) as (Hcount & _ & _ & Hids).
  destruct (Hexclude eq_refl) as [Hnull Hzero].
  split; [rewrite Hcount; reflexivity|].
  split; [rewrite Hids; [reflexivity|discriminate]|].
  split; [exact Hnull|exact Hzero].
Defined.

(** ** From the callbacks to the host *)

Lemma ProcessEvents_loop_spec (events : list AudioEvent) (result : list JsValue) :
  ProcessEvents_loop events result = (fun objs => result ++ objs) <$> mapM event_object events.
Proof.
  revert result. induction events as [|event rest IH]; intros result; simpl.
  - by rewrite app_nil_r.
  - destruct (event_object event) as [obj|]; simpl; [|done].
    rewrite IH. destruct (mapM event_object rest) as [objs|]; simpl; [|done].
    by rewrite <- app_assoc.
Qed.

Lemma ProcessEvents_single (event : AudioEvent) (obj : JsValue) (self : Wrapper) :
  eventQueue_ self = [] ->
  event_object event = Some obj ->
  ProcessEvents (QueueEvent event self) = (Some (JsArray [obj]), self).
Proof.
  intros Hq Hobj. unfold ProcessEvents. rewrite DrainEvents_spec. simpl.
  rewrite Hq. simpl. rewrite Hobj. simpl. f_equal.
  destruct self; simpl in *. by subst.
Qed.

Lemma length_load_bytes (mem : Memory) (p : Z) (n : nat) :
  length (load_bytes mem p n) = n.
Proof. unfold load_bytes. by rewrite length_map, length_seq. Qed.

Lemma lookup_load_bytes (mem : Memory) (p : Z) (n i : nat) :
  (i < n)%nat -> load_bytes mem p n !! i = Some (load_byte mem (p + Z.of_nat i)).
Proof.
  intros Hi. unfold load_bytes. rewrite list_lookup_fmap, lookup_seq_lt by done.
  reflexivity.
Qed.

(** X6. On a live wrapper with an empty queue, a data callback with
    [length >= 0] reaches the host at the next [ProcessEvents] as one object
    of type 0 whose buffer holds exactly the [length] bytes found at [data],
    in order; the queue is empty again afterwards. *)
Theorem OnData_delivers_the_bytes (mem : Memory) (data_ptr length : Z) (self : Wrapper) :
  isDestroyed_ self = false ->
  eventQueue_ self = [] ->
  0 <= length ->
  exists bytes,
    ProcessEvents (OnData mem data_ptr length self)
      = (Some (JsArray [JsObject [("type", JsNumber 0%float); ("data", JsBuffer bytes)]]),
         self) /\
    Z.of_nat (Datatypes.length bytes) = length /\
    forall i, 0 <= i < length ->
      bytes !! Z.to_nat i = Some (load_byte mem (data_ptr + i)).
Proof.
  intros Hlive Hq Hlen.
  exists (load_bytes mem data_ptr (Z.to_nat length)). split; [|split].
  - unfold OnData, assign_throws. rewrite Hlive.
    destruct (Z.ltb_spec length 0) as [|_]; [lia|]. by apply ProcessEvents_single.
  - rewrite length_load_bytes. lia.
  - intros i Hi. rewrite lookup_load_bytes by lia. do 2 f_equal. lia.
Qed.

Lemma OnData_delivers_the_bytes_witness :
  ProcessEvents (OnData scenario_memory 1000 4 fresh_wrapper)
    = (Some (JsArray [JsObject [("type", JsNumber 0%float);
                                ("data", JsBuffer [x00; x01; x02; x03])]]),
       fresh_wrapper).
Proof.
  destruct (OnData_delivers_the_bytes scenario_memory 1000 4 fresh_wrapper
              eq_refl eq_refl) as (bytes & Hrun & Hlen & Hbytes); [discriminate|].
  rewrite Hrun. do 5 f_equal.
  assert (Hl : Datatypes.length bytes = 4%nat) by lia.
  pose proof (Hbytes 0 ltac:(lia)) as H0. pose proof (Hbytes 1 ltac:(lia)) as H1.
  pose proof (Hbytes 2 ltac:(lia)) as H2. pose proof (Hbytes 3 ltac:(lia)) as H3.
  destruct bytes as [|b0 [|b1 [|b2 [|b3 [|b4 rest]]]]]; try discriminate.
  simpl in H0, H1, H2, H3. vm_compute in H0, H1, H2, H3. congruence.
Defined.

(** X7. On a live wrapper with an empty queue, an event callback with code
    0 (start) or 1 (stop) reaches the host as an object holding only its
    type, 1 or 2: the message passed with it is never delivered. Code 2
    (error) reaches it as type 3 with the message, the empty string for a
    null message. Code 3 is queued under the metadata tag 4 with none of the
    four metadata members assigned, which [ProcessEvents] would then read. *)
Theorem OnEvent_delivers_lifecycle (mem : Memory) (eventType message_ptr : Z)
    (self : Wrapper) :
  isDestroyed_ self = false ->
  eventQueue_ self = [] ->
  (eventType = 0 ->
   ProcessEvents (OnEvent mem eventType message_ptr self)
     = (Some (JsArray [JsObject [("type", JsNumber 1%float)]]), self)) /\
  (eventType = 1 ->
   ProcessEvents (OnEvent mem eventType message_ptr self)
     = (Some (JsArray [JsObject [("type", JsNumber 2%float)]]), self)) /\
  (eventType = 2 ->
   ProcessEvents (OnEvent mem eventType message_ptr self)
     = (Some (JsArray
          [JsObject [("type", JsNumber 3%float);
                     ("message",
                      JsString (if message_ptr =? 0 then ""
                                else load_c_str mem message_ptr))]]), self)) /\
  (eventType = 3 ->
   let event := OnEvent_event mem eventType message_ptr in
   type event = 4 /\ sampleRate event = None /\ channelsPerFrame event = None /\
   bitsPerChannel event = None /\ isFloat event = None /\
   fst (ProcessEvents (OnEvent mem eventType message_ptr self)) = None).
Proof.
  intros Hlive Hq. unfold OnEvent. rewrite Hlive.
  split; [|split; [|split]]; intros ->.
  - by apply ProcessEvents_single.
  - by apply ProcessEvents_single.
  - by apply ProcessEvents_single.
  - repeat split. unfold ProcessEvents. rewrite DrainEvents_spec. simpl.
    by rewrite Hq.
Qed.

Lemma OnEvent_delivers_lifecycle_witness :
  ProcessEvents (OnEvent scenario_memory 2 2000 fresh_wrapper)
    = (Some (JsArray [JsObject [("type", JsNumber 3%float);
                                ("message", JsString "pcm_f32")]]), fresh_wrapper) /\
  ProcessEvents (OnEvent scenario_memory 0 2000 fresh_wrapper)
    = (Some (JsArray [JsObject [("type", JsNumber 1%float)]]), fresh_wrapper).
Proof.
  destruct (OnEvent_delivers_lifecycle scenario_memory 2 2000 fresh_wrapper
              eq_refl eq_refl) as (_ & _ & Herror & _).
  destruct (OnEvent_delivers_lifecycle scenario_memory 0 2000 fresh_wrapper
              eq_refl eq_refl) as (Hstart & _).
  split; [exact (Herror eq_refl)|exact (Hstart eq_refl)].
Defined.

(** X8. On a live wrapper with an empty queue, a metadata callback reaches
    the host as one object of type 4 carrying the sample rate as given, the
    two 32-bit counts as numbers, the float flag, and the encoding text, the
    empty string for a null encoding. *)
Theorem OnMetadata_delivers_the_format (mem : Memory) (rate : float)
    (channels bits : Z) (is_float : bool) (encoding_ptr : Z) (self : Wrapper) :
  isDestroyed_ self = false ->
  eventQueue_ self = [] ->
  ProcessEvents (OnMetadata mem rate channels bits is_float encoding_ptr self)
    = (Some (JsArray
         [JsObject [("type", JsNumber 4%float);
                    ("sampleRate", JsNumber rate);
                    ("channelsPerFrame", JsNumber (double_of_uint32 channels));
                    ("bitsPerChannel", JsNumber (double_of_uint32 bits));
                    ("isFloat", JsBoolean is_float);
                    ("encoding",
                     JsString (if encoding_ptr =? 0 then ""
                               else load_c_str mem encoding_ptr))]]), self).
Proof.
  intros Hlive Hq. unfold OnMetadata. rewrite Hlive.
  by apply ProcessEvents_single.
Qed.

Lemma OnMetadata_delivers_the_format_witness :
  ProcessEvents (OnMetadata scenario_memory 44100%float 2 32 true 0 fresh_wrapper)
    = (Some (JsArray
         [JsObject [("type", JsNumber 4%float);
                    ("sampleRate", JsNumber 44100%float);
                    ("channelsPerFrame", JsNumber 2%float);
                    ("bitsPerChannel", JsNumber 32%float);
                    ("isFloat", JsBoolean true);
                    ("encoding", JsString "")]]), fresh_wrapper).
Proof.
  exact (OnMetadata_delivers_the_format scenario_memory 44100%float 2 32 true 0
           fresh_wrapper eq_refl eq_refl).
Defined.

Lemma QueueEvent_keeps_flag (event : AudioEvent) (w : Wrapper) :
  isDestroyed_ (QueueEvent event w) = isDestroyed_ w.
Proof. reflexivity. Qed.

Lemma convertible_not_throws (c : Callback) : convertible c = true -> throws c = false.
Proof. destruct c; simpl; [|done|done]. by intros ->%negb_true_iff. Qed.

Lemma invoke_all_live (mem : Memory) (cs : list Callback) (w : Wrapper) :
  isDestroyed_ w = false ->
  forallb convertible cs = true ->
  invoke_all mem cs w = QueueEvents (map (callback_event mem) cs) w.
Proof.
  revert w. unfold invoke_all, QueueEvents.
  induction cs as [|c rest IH]; intros w Hlive Hcs; simpl; [done|].
  simpl in Hcs. apply andb_true_iff in Hcs as [Hc Hrest].
  rewrite invoke_live by (done || by apply convertible_not_throws). by apply IH.
Qed.

Lemma convertible_event_object (mem : Memory) (c : Callback) :
  convertible c = true ->
  exists obj,
    event_object (callback_event mem c) = Some obj /\
    Get obj "type" = JsNumber (double_of_int32 (type (callback_event mem c))).
Proof.
  intros Hc. destruct c as [d n|t m|r ch b f e]; simpl.
  - eexists. split; reflexivity.
  - simpl in Hc. unfold event_object, OnEvent_event. simpl.
    destruct (wrap_int32 (t + 1)) as [|p|p]; [eexists; split; reflexivity| |].
    + destruct p as [[q|q|]|[[q|q|]|[q|q|]|]|]; try (eexists; split; reflexivity).
      done.
    + eexists; split; reflexivity.
  - eexists. split; reflexivity.
Qed.

(** X9. Whatever callbacks ran on a live wrapper whose queue was empty
    (a data callback with a negative length, which throws and queues
    nothing, and an event callback whose code lands on tag 4 apart), the
    next [ProcessEvents] returns one object per callback, in the order the
    callbacks ran, each tagged with the type of its callback's event, and
    leaves the queue empty. A data callback with a negative length leaves
    the wrapper as it found it. *)
Theorem ProcessEvents_returns_one_object_per_callback (mem : Memory)
    (cs : list Callback) (self : Wrapper) :
  isDestroyed_ self = false ->
  eventQueue_ self = [] ->
  forallb convertible cs = true ->
  (exists objs,
     ProcessEvents (invoke_all mem cs self) = (Some (JsArray objs), self) /\
     length objs = length cs /\
     forall i c,
       cs !! i = Some c ->
       exists obj,
         objs !! i = Some obj /\
         event_object (callback_event mem c) = Some obj /\
         Get obj "type" = JsNumber (double_of_int32 (type (callback_event mem c)))) /\
  (forall data length, length < 0 ->
     convertible (CallOnData data length) = false /\
     invoke mem (CallOnData data length) self = self).
Proof.
  intros Hlive Hq Hcs. split.
  2: { intros data length Hneg. simpl. unfold OnData, assign_throws.
       destruct (Z.ltb_spec length 0) as [_|]; [|lia]. by rewrite Hlive. }
  rewrite invoke_all_live, QueueEvents_spec by done.
  unfold ProcessEvents. rewrite DrainEvents_spec. simpl. rewrite Hq. simpl.
  rewrite ProcessEvents_loop_spec.
  assert (Hall : exists objs,
            mapM event_object (map (callback_event mem) cs) = Some objs /\
            Forall2 (fun c obj => event_object (callback_event mem c) = Some obj) cs objs).
  { clear Hq Hlive. induction cs as [|c rest IH]; simpl.
    - exists []. by split.
    - simpl in Hcs. apply andb_true_iff in Hcs as [Hc Hrest].
      destruct (convertible_event_object mem c Hc) as (obj & Hobj & _).
      destruct (IH Hrest) as (objs & Hmap & Hforall).
      exists (obj :: objs). rewrite Hobj. simpl. rewrite Hmap. simpl.
      split; [done|]. by constructor. }
  destruct Hall as (objs & Hmap & Hforall). exists objs.
  rewrite Hmap. simpl. split; [|split].
  - f_equal. destruct self; simpl in *. by subst.
  - symmetry. by eapply Forall2_length.
  - intros i c Hi.
    destruct (Forall2_lookup_l _ _ _ _ _ Hforall Hi) as (obj & Hobj & Hconv).
    exists obj. split; [done|]. split; [done|].
    assert (Hc : convertible c = true).
    { rewrite forallb_forall in Hcs. apply Hcs.
      apply list_elem_of_In. by eapply list_elem_of_lookup_2. }
    destruct (convertible_event_object mem c Hc) as (obj' & Hobj' & Htype).
    congruence.
Qed.

Lemma ProcessEvents_returns_one_object_per_callback_witness :
  exists objs,
    ProcessEvents (invoke_all scenario_memory scenario_callbacks fresh_wrapper)
      = (Some (JsArray objs), fresh_wrapper) /\
    length objs = 3%nat.
Proof.
  destruct (ProcessEvents_returns_one_object_per_callback scenario_memory
              scenario_callbacks fresh_wrapper eq_refl eq_refl eq_refl)
    as ((objs & Hrun & Hlen & _) & _).
  exists objs. split; [exact Hrun|exact Hlen].
Defined.

(** ** Permission status and default devices *)

(** X10. The permission status functions always answer with one of the
    three texts: "authorized" exactly for status 2, "denied" exactly for
    status 1, and "unknown" for 0 and for every other code. *)
Theorem GetPermissionStatus_names_the_status (status : Z) :
  (GetPermissionStatus status = JsString "authorized" <-> status = 2) /\
  (GetPermissionStatus status = JsString "denied" <-> status = 1) /\
  (GetPermissionStatus status = JsString "unknown" <-> status <> 1 /\ status <> 2).
Proof.
  unfold GetPermissionStatus.
  destruct status as [|[[p|p|]|[p|p|]|]|p]; simpl; repeat split;
    try discriminate; try done; intros; try lia; intuition discriminate.
Qed.

(** X11. [GetDefaultInputDevice] / [GetDefaultOutputDevice]: a null uid
    gives the host null and frees nothing; a uid in an allocated block gives
    the text found there and frees exactly that block. The text is copied
    while the block is allocated: once the block is freed its text can no
    longer be read, and the same pointer cannot be passed in again without
    an error. *)
Theorem GetDefaultDevice_copies_then_frees (uid : Z) (mem : Memory) (blocks : gset Z) :
  (uid = 0 -> GetDefaultDevice uid mem blocks = Some (JsNull, blocks)) /\
  (uid <> 0 -> uid ∈ blocks ->
   GetDefaultDevice uid mem blocks = Some (JsString (load_c_str mem uid), blocks ∖ {[uid]}) /\
   read_text mem blocks uid = Some (load_c_str mem uid) /\
   read_text mem (blocks ∖ {[uid]}) uid = None /\
   GetDefaultDevice uid mem (blocks ∖ {[uid]}) = None) /\
  (uid <> 0 -> uid ∉ blocks -> GetDefaultDevice uid mem blocks = None).
Proof.
  unfold GetDefaultDevice, read_text, free. split; [|split].
  - by intros ->.
  - intros Hne Hin. destruct (Z.eqb_spec uid 0) as [|_]; [done|].
    rewrite !decide_True by done. split; [done|]. split; [done|].
    rewrite !decide_False; [done|].
    intros Hin'. apply elem_of_difference in Hin' as [_ Hout].
    apply Hout. by apply elem_of_singleton_2.
  - intros Hne Hout. destruct (Z.eqb_spec uid 0) as [|_]; [done|].
    by rewrite decide_False.
Qed.

Lemma GetDefaultDevice_copies_then_frees_witness :
  GetDefaultDevice 256 (memory sample_heap) {[ 256 ]}
    = Some (JsString "mic-0", {[ 256 ]} ∖ {[ 256 ]}) /\
  GetDefaultDevice 0 (memory sample_heap) {[ 256 ]} = Some (JsNull, {[ 256 ]}).
Proof.
  destruct (GetDefaultDevice_copies_then_frees 256 (memory sample_heap) {[ 256 ]})
    as (_ & Hcopy & _).
  destruct (GetDefaultDevice_copies_then_frees 0 (memory sample_heap) {[ 256 ]})
    as (Hnull & _).
  split; [|exact (Hnull eq_refl)].
  apply Hcopy; [discriminate|]. by apply elem_of_singleton_2.
Defined.

(** ** The window between the check and the push *)

(** X12. The destroyed flag does not close the window between a callback's
    check and its push: from any state in which the destructor has not
    started and the flag is unset, every callback that does not throw has an
    execution in which it reads the flag unset, the destructor then sets the
    flag, and the callback's event is pushed after that, while the
    destructor has not yet released the session: onto the queue of a wrapper
    whose flag is already set. *)
Theorem enqueue_can_follow_destroyed_flag {St : Type} `{CaptureSession St}
    (mem : Memory) (sys : System St) (c : Callback) :
  destructor sys = NotDestroyed ->
  isDestroyed_ (wrapper (world sys)) = false ->
  throws c = false ->
  let i := length (producers sys) in
  exists sys',
    exec mem sys
      [LInvoke i c; LCheck i false; LSetDestroyed;
       LEnqueue i (callback_event mem c)] sys' /\
    destructor sys' = FlagSet /\
    isDestroyed_ (wrapper (world sys')) = true /\
    handle_ (wrapper (world sys')) = handle_ (wrapper (world sys)) /\
    session (world sys') = session (world sys) /\
    eventQueue_ (wrapper (world sys'))
      = eventQueue_ (wrapper (world sys)) ++ [callback_event mem c].
Proof.
  intros Hpc Hflag Hc. simpl.
  destruct sys as [[[handle queue flag] collaborator] ps pc]. simpl in *. subst.
  eexists. split.
  - take_step (fun mem sys => step_invoke mem sys c).
    lazymatch goal with
    | |- exec ?m ?s _ _ =>
        eapply (exec_cons m s); [apply (step_check m s (length ps) c)|]; cbn
    end.
    { rewrite lookup_app_r by lia. by rewrite Nat.sub_diag. }
    take_step (fun mem sys => step_set_destroyed mem sys).
    lazymatch goal with
    | |- exec ?m ?s _ _ =>
        eapply (exec_cons m s);
          [apply (step_enqueue m s (length ps) c); [|done]|apply exec_nil]
    end.
    cbn. apply list_lookup_insert_eq. rewrite length_app. simpl. lia.
  - simpl. repeat split; done.
Qed.

Lemma enqueue_can_follow_destroyed_flag_witness :
  exists sys',
    exec blank_memory sample_system
      [LInvoke 0 (CallOnData 0 0); LCheck 0 false; LSetDestroyed;
       LEnqueue 0 (OnData_event blank_memory 0 0)] sys' /\
    destructor sys' = FlagSet /\
    eventQueue_ (wrapper (world sys')) = [OnData_event blank_memory 0 0].
Proof.
  destruct (enqueue_can_follow_destroyed_flag blank_memory sample_system (CallOnData 0 0)
              eq_refl eq_refl eq_refl) as (sys' & Hexec & Hpc & _ & _ & _ & Hqueue).
  exists sys'. split; [exact Hexec|]. split; [exact Hpc|exact Hqueue].
Defined.

(* ===================================================================== *)
(** * Properties of the Windows bridge                                    *)
(* ===================================================================== *)

(** ** Process names *)

Lemma rfind_from_sound (needle hay : Windows.wstring) (pos p : nat) :
  Windows.rfind_from needle hay pos = Some p ->
  exists k, p = (pos + k)%nat /\ (k <= length hay)%nat /\ needle `prefix_of` drop k hay.
Proof.
  revert pos. induction hay as [|ch rest IH]; intros pos; simpl.
  - destruct (decide (needle `prefix_of` [])) as [Hp|]; [|done].
    intros [= <-]. exists 0%nat. repeat split; [lia|done|done].
  - destruct (Windows.rfind_from needle rest (S pos)) as [q|] eqn:Hrec.
    + intros [= <-]. destruct (IH _ Hrec) as (k & -> & Hk & Hpre).
      exists (S k). repeat split; [lia|lia|done].
    + destruct (decide (needle `prefix_of` ch :: rest)) as [Hp|]; [|done].
      intros [= <-]. exists 0%nat. repeat split; [lia|lia|done].
Qed.

Lemma rfind_from_last (needle hay : Windows.wstring) (pos k : nat) :
  needle `prefix_of` drop k hay -> (k <= length hay)%nat ->
  exists p, Windows.rfind_from needle hay pos = Some p /\ (pos + k <= p)%nat.
Proof.
  revert pos k. induction hay as [|ch rest IH]; intros pos k Hpre Hk; simpl.
  - rewrite drop_nil in Hpre. rewrite decide_True by done.
    simpl in Hk. exists pos. split; [done|lia].
  - destruct k as [|k]; simpl in Hpre.
    + destruct (Windows.rfind_from needle rest (S pos)) as [q|] eqn:Hrec.
      * destruct (rfind_from_sound _ _ _ _ Hrec) as (j & -> & _).
        eexists. split; [done|lia].
      * rewrite decide_True by done. exists pos. split; [done|lia].
    + simpl in Hk. destruct (IH (S pos) k Hpre ltac:(lia)) as (p & -> & Hp).
      exists p. split; [done|lia].
Qed.

(** X13. [GetProcessNameFromPid] removes one trailing ".exe", matched
    exactly: a name ending in these four characters loses them and nothing
    else (a second ".exe" before them stays), any other name, a differently
    cased extension included, is returned as it is; the name is empty when
    the process cannot be opened or its module name cannot be read; and the
    process handle is closed exactly when it was opened. *)
Theorem GetProcessNameFromPid_strips_exe (os : Windows.ProcessTable) (pid : Z) :
  (forall base, Windows.remove_exe_extension (base ++ Windows.L ".exe") = base) /\
  (forall name, ~ Windows.L ".exe" `suffix_of` name ->
                Windows.remove_exe_extension name = name) /\
  (Windows.OpenProcess os pid = 0 ->
   Windows.GetProcessNameFromPid os pid = ([], [])) /\
  (Windows.OpenProcess os pid <> 0 ->
   Windows.GetProcessNameFromPid os pid
     = (Windows.remove_exe_extension
          (Windows.GetModuleBaseNameW os (Windows.OpenProcess os pid)),
        [Windows.OpenProcess os pid])).
Proof.
  split; [|split; [|split]].
  - intros base. unfold Windows.remove_exe_extension, Windows.rfind.
    assert (Hocc : Windows.L ".exe" `prefix_of`
                     drop (length base) (base ++ Windows.L ".exe")).
    { by rewrite drop_app_length. }
    destruct (rfind_from_last _ _ 0 _ Hocc) as (p & Hp & Hge).
    { rewrite length_app. lia. }
    rewrite Hp. destruct (rfind_from_sound _ _ _ _ Hp) as (k & -> & Hk & Hpre).
    apply prefix_length in Hpre. rewrite length_drop, length_app in Hpre.
    rewrite length_app in *. simpl in *.
    assert (k = length base) as -> by lia.
    replace (length base + 4 - 4)%nat with (length base) by lia.
    rewrite Nat.eqb_refl. by rewrite take_app_length.
  - intros name Hno. unfold Windows.remove_exe_extension, Windows.rfind.
    destruct (Windows.rfind_from (Windows.L ".exe") name 0) as [p|] eqn:Hp; [|done].
    destruct (Nat.eqb_spec p (length name - 4)) as [->|]; [|done].
    destruct (rfind_from_sound _ _ _ _ Hp) as (k & Hk & Hle & Hpre).
    simpl in Hk. subst k. exfalso. apply Hno.
    pose proof (prefix_length _ _ Hpre) as Hlen. rewrite length_drop in Hlen.
    simpl in Hlen.
    destruct Hpre as [tail Htail].
    assert (tail = []) as ->.
    { apply (f_equal length) in Htail. rewrite length_drop, length_app in Htail.
      simpl in Htail. destruct tail; [done|simpl in Htail; lia]. }
    rewrite app_nil_r in Htail. exists (take (length name - 4) name).
    by rewrite <- Htail, take_drop.
  - intros Hnull. unfold Windows.GetProcessNameFromPid. by rewrite Hnull.
  - intros Hopen. unfold Windows.GetProcessNameFromPid.
    destruct (Z.eqb_spec (Windows.OpenProcess os pid) 0) as [|_]; [done|].
    destruct (Windows.GetModuleBaseNameW os (Windows.OpenProcess os pid)) as [|ch rest];
      [reflexivity|done].
Qed.

Example remove_exe_extension_samples :
  Windows.remove_exe_extension (Windows.L "chrome.exe") = Windows.L "chrome" /\
  Windows.remove_exe_extension (Windows.L "setup.exe.exe") = Windows.L "setup.exe" /\
  Windows.remove_exe_extension (Windows.L "Zoom.EXE") = Windows.L "Zoom.EXE" /\
  Windows.remove_exe_extension (Windows.L "a.exe.bak") = Windows.L "a.exe.bak" /\
  Windows.remove_exe_extension (Windows.L ".exe") = [] /\
  Windows.remove_exe_extension (Windows.L "exe") = Windows.L "exe".
Proof. repeat split; vm_compute; reflexivity. Qed.

(** ** COM initialisation *)

(** X14. [EnsureComInitialized] calls [CoInitializeEx] only while the
    thread's flag is unset, and sets the flag exactly when the call does not
    fail (the separate test for S_FALSE adds nothing). Once the flag is set,
    no run of further calls changes the thread or calls [CoInitializeEx]
    again, whatever it would answer; after a failure the next call tries
    again. *)
Theorem EnsureComInitialized_initialises_once (hr : Z) (later : list Z)
    (thread : Windows.ComThread) :
  let once := Windows.EnsureComInitialized hr thread in
  (Windows.comInitialized thread = true -> once = thread) /\
  (Windows.comInitialized thread = false ->
   (Windows.comInitialized once = true <-> 0 <= hr) /\
   Windows.CoInitializeEx_calls once = S (Windows.CoInitializeEx_calls thread)) /\
  (Windows.comInitialized once = true ->
   fold_left (fun t hr' => Windows.EnsureComInitialized hr' t) later once = once) /\
  (Windows.comInitialized once = false ->
   forall hr',
     Windows.CoInitializeEx_calls (Windows.EnsureComInitialized hr' once)
       = S (Windows.CoInitializeEx_calls once)).
Proof.
  cbv zeta.
  assert (Hset : forall t hr', Windows.comInitialized t = true ->
                               Windows.EnsureComInitialized hr' t = t).
  { intros t hr' Ht. unfold Windows.EnsureComInitialized. by rewrite Ht. }
  assert (Hunset : forall t hr', Windows.comInitialized t = false ->
            Windows.EnsureComInitialized hr' t
            = {| Windows.comInitialized := 0 <=? hr';
                 Windows.CoInitializeEx_calls := S (Windows.CoInitializeEx_calls t) |}).
  { intros t hr' Ht. unfold Windows.EnsureComInitialized. rewrite Ht. f_equal.
    unfold Windows.SUCCEEDED, Windows.S_FALSE.
    destruct (Z.leb_spec 0 hr'), (Z.eqb_spec hr' 1); simpl; try done; lia. }
  assert (Hfold : forall t, Windows.comInitialized t = true ->
            fold_left (fun t hr' => Windows.EnsureComInitialized hr' t) later t = t).
  { intros t Ht. induction later as [|hr' rest IH]; simpl; [done|].
    by rewrite Hset. }
  split; [by apply Hset|]. split; [|split].
  - intros Hflag. rewrite Hunset by done. simpl. split; [|done].
    destruct (Z.leb_spec 0 hr); split; try done; lia.
  - by apply Hfold.
  - intros Hflag hr'. by rewrite (Hunset _ hr').
Qed.

Lemma EnsureComInitialized_initialises_once_witness :
  fold_left (fun t hr' => Windows.EnsureComInitialized hr' t) [-1; 0; -1]
    (Windows.EnsureComInitialized 1
       {| Windows.comInitialized := false; Windows.CoInitializeEx_calls := 0 |})
  = {| Windows.comInitialized := true; Windows.CoInitializeEx_calls := 1 |}.
Proof.
  destruct (EnsureComInitialized_initialises_once 1 [-1; 0; -1]
              {| Windows.comInitialized := false; Windows.CoInitializeEx_calls := 0 |})
    as (_ & _ & Hstable & _).
  rewrite Hstable; reflexivity.
Defined.

(** ** Capture sessions *)

Section SessionFacts.
Context {C : Type} `{Windows.WasapiCapture C}.

Lemma capture_at_fresh (st : Windows.Bridge C) :
  Windows.capture_at (Z.pos (fresh (dom (Windows.captures st)))) st = None.
Proof.
  unfold Windows.capture_at.
  by rewrite (not_elem_of_dom_1 _ _ (is_fresh (dom (Windows.captures st)))).
Qed.

End SessionFacts.

(** X15. [audio_create] never returns a null handle: it returns a handle no
    live capture has, for a capture built from the callbacks and context
    given. On that handle [audio_is_running] and [audio_stop] report what
    the capture reports. [audio_destroy] stops the capture and then deletes
    it, leaving the live captures as they were before the create; after it
    the handle is dangling: stop, is_running and a second destroy act on a
    capture that is gone. A null handle is refused by every function (-1,
    false, or nothing done) without touching any capture. *)
Theorem audio_create_then_destroy {C : Type} `{Windows.WasapiCapture C}
    (hr : Z) (dataCallback eventCallback metadataCallback userContext : Z)
    (st : Windows.Bridge C) :
  let created :=
    Windows.audio_create hr dataCallback eventCallback metadataCallback userContext st in
  let handle := fst created in
  let capture :=
    Windows.WasapiCapture_new dataCallback eventCallback metadataCallback userContext in
  handle <> 0 /\
  Windows.capture_at handle st = None /\
  Windows.capture_at handle (snd created) <> None /\
  Windows.audio_is_running handle (snd created) = Some (Windows.IsRunning capture) /\
  fst <$> Windows.audio_stop handle (snd created) = Some (fst (Windows.Stop capture)) /\
  (exists st',
     Windows.audio_destroy handle (snd created) = Some st' /\
     Windows.captures st' = Windows.captures st /\
     Windows.deleted st' = Windows.deleted st ++ [snd (Windows.Stop capture)] /\
     Windows.audio_stop handle st' = None /\
     Windows.audio_is_running handle st' = None /\
     Windows.audio_destroy handle st' = None) /\
  (forall args mic emitSilence,
     Windows.audio_start_system_audio 0 args emitSilence st = Some (-1, st) /\
     Windows.audio_start_microphone 0 mic emitSilence st = Some (-1, st) /\
     Windows.audio_stop 0 st = Some (-1, st) /\
     Windows.audio_is_running 0 st = Some false /\
     Windows.audio_destroy 0 st = Some st).
Proof.
  cbv zeta. unfold Windows.audio_create. simpl.
  set (h := fresh (dom (Windows.captures st))).
  assert (Hfresh : Windows.captures st !! h = None)
    by apply not_elem_of_dom, is_fresh.
  split; [done|]. split; [apply capture_at_fresh|].
  unfold Windows.audio_is_running, Windows.audio_stop, Windows.audio_destroy,
    Windows.capture_at. simpl. rewrite !lookup_insert_eq.
  split; [done|]. split; [done|]. split.
  { by destruct (Windows.Stop _). }
  split; [|done].
  destruct (Windows.Stop _) as [result stopped]. simpl.
  eexists. split; [reflexivity|]. simpl.
  rewrite delete_insert_id by done. rewrite Hfresh. done.
Qed.

(** A capture created, started twice, and destroyed. *)
Example audio_session_sample :
  let created := Windows.audio_create 0 1 2 3 77 empty_bridge in
  let args := system_audio_args (JsObject []) in
  fst created = 1 /\
  (Windows.audio_start_system_audio 1 args false (snd created)
     ≫= fun started => fst <$> Windows.audio_start_system_audio 1 args false (snd started))
    = Some (-2) /\
  Windows.deleted <$> Windows.audio_destroy 1 (snd created)
    = Some [ {| capture_context := 77; capture_running := false; capture_stops := 1 |} ].
Proof. repeat split; vm_compute; reflexivity. Qed.

(** ** Device lists *)

Lemma free_all_spec (pointers : list Z) (blocks : gset Z) :
  NoDup (List.filter (fun p => negb (p =? 0)) pointers) ->
  (forall p, p ∈ List.filter (fun p => negb (p =? 0)) pointers -> p ∈ blocks) ->
  free_all pointers blocks
    = Some (blocks ∖ list_to_set (List.filter (fun p => negb (p =? 0)) pointers)).
Proof.
  revert blocks. induction pointers as [|p rest IH]; intros blocks Hnd Hin; simpl in *.
  - f_equal. set_solver.
  - unfold free. destruct (Z.eqb_spec p 0) as [->|Hne]; simpl in *.
    + by apply IH.
    + apply NoDup_cons in Hnd as [Hp Hnd].
      rewrite decide_True by (apply Hin; left).
      rewrite IH; [f_equal; set_solver|done|].
      intros q Hq. apply elem_of_difference. split; [apply Hin; by right|].
      intros Heq%elem_of_singleton. by subst.
Qed.

Lemma free_device_texts_spec (array : list Windows.AudioDeviceInfo) (i n : nat)
    (blocks : gset Z) :
  (i + n <= length array)%nat ->
  Windows.free_device_texts array i n blocks
    = free_all (flat_map text_handles (take n (drop i array))) blocks.
Proof.
  revert i blocks. induction n as [|n IH]; intros i blocks Hlen; [done|].
  destruct (lookup_lt_is_Some_2 array i ltac:(lia)) as [device Hdevice].
  rewrite (drop_S _ _ _ Hdevice). simpl. rewrite Hdevice.
  destruct (free (Windows.uid device) blocks) as [b1|]; [|done].
  destruct (free (Windows.name device) b1) as [b2|]; [|done].
  destruct (free (Windows.manufacturer device) b2) as [b3|]; [|done].
  apply IH. lia.
Qed.

(** X16. [audio_list_devices] followed by [audio_free_device_list] with the
    pointer and count it stored releases every text the enumerator
    allocated for the listed devices exactly once, and the array: provided
    the non-null text handles of the devices are distinct allocated blocks
    and there are fewer than 2^31 devices, the free succeeds and leaves the
    texts without those handles and the arrays as before the listing. The
    stored pointer is null exactly when no device was found, the count is
    the number of devices, and freeing the same array again is an error.
    With a null out-pointer the listing returns -1 before the enumerator
    runs. *)
Theorem audio_list_devices_then_free (hr : Z)
    (ListAllDevices : gset Z -> list Windows.AudioDeviceInfo * gset Z)
    (thread : Windows.ComThread) (heap : Windows.DeviceHeap) :
  let deviceList := fst (ListAllDevices (Windows.strings heap)) in
  let strings' := snd (ListAllDevices (Windows.strings heap)) in
  NoDup (allocated_texts deviceList) ->
  (forall p, p ∈ allocated_texts deviceList -> p ∈ strings') ->
  Z.of_nat (length deviceList) < 2 ^ 31 ->
  (exists devices heap1,
     Windows.audio_list_devices hr true true ListAllDevices thread heap
       = (0, Some (devices, Z.of_nat (length deviceList)),
          Windows.EnsureComInitialized hr thread, heap1) /\
     (devices = 0 <-> deviceList = []) /\
     Windows.audio_free_device_list devices (Z.of_nat (length deviceList)) heap1
       = Some {| Windows.strings := strings' ∖ list_to_set (allocated_texts deviceList);
                 Windows.arrays := Windows.arrays heap |} /\
     (deviceList <> [] ->
      Windows.audio_free_device_list devices (Z.of_nat (length deviceList))
        {| Windows.strings := strings' ∖ list_to_set (allocated_texts deviceList);
           Windows.arrays := Windows.arrays heap |} = None)) /\
  (forall devices count,
     devices && count = false ->
     Windows.audio_list_devices hr devices count ListAllDevices thread heap
       = (-1, None, Windows.EnsureComInitialized hr thread, heap)).
Proof.
  cbv zeta. intros Hnd Hin Hlen. split.
  - unfold Windows.audio_list_devices. simpl.
    destruct (ListAllDevices (Windows.strings heap)) as [deviceList strings'] eqn:Henum.
    simpl in *. destruct deviceList as [|device rest].
    + exists 0. eexists. split; [reflexivity|]. simpl.
      split; [done|]. split; [|done]. do 2 f_equal. set_solver.
    + set (deviceList := device :: rest) in *.
      set (p := fresh (dom (Windows.arrays heap))).
      assert (Hfresh : Windows.arrays heap !! p = None)
        by apply not_elem_of_dom, is_fresh.
      rewrite wrap_int32_small by lia.
      exists (Z.pos p). eexists. split; [reflexivity|].
      split; [done|].
      unfold Windows.audio_free_device_list.
      cbn [Z.eqb Windows.arrays Windows.strings]. rewrite lookup_insert_eq.
      rewrite Nat2Z.id, free_device_texts_spec by (simpl; lia).
      rewrite drop_0, firstn_all.
      unfold allocated_texts in *. rewrite free_all_spec by done.
      rewrite delete_insert_id by done. split; [done|].
      intros _. by rewrite Hfresh.
  - intros devices count Hnull. unfold Windows.audio_list_devices.
    destruct devices, count; simpl in *; done.
Qed.

Lemma audio_list_devices_then_free_witness :
  exists devices heap1,
    Windows.audio_list_devices 0 true true sample_enumerator fresh_thread
      empty_device_heap
      = (0, Some (devices, 2), Windows.EnsureComInitialized 0 fresh_thread, heap1) /\
    Windows.arrays <$> Windows.audio_free_device_list devices 2 heap1 = Some ∅.
Proof.
  assert (Hnd : NoDup (allocated_texts sample_devices)).
  { apply (bool_decide_unpack _). vm_compute. reflexivity. }
  assert (Hin : forall p, p ∈ allocated_texts sample_devices ->
                          p ∈ snd (sample_enumerator (Windows.strings empty_device_heap))).
  { intros p Hp. apply elem_of_union_r. by apply elem_of_list_to_set. }
  assert (Hlen : Z.of_nat (length sample_devices) < 2 ^ 31) by reflexivity.
  destruct (audio_list_devices_then_free 0 sample_enumerator fresh_thread
              empty_device_heap Hnd Hin Hlen)
    as [(devices & heap1 & Hlist & _ & Hfree & _) _].
  exists devices, heap1. split; [exact Hlist|].
  change (Z.of_nat (length (fst (sample_enumerator (Windows.strings empty_device_heap)))))
    with 2 in Hfree.
  rewrite Hfree. reflexivity.
Defined.

(** ** The microphone activity monitor *)

(** X17. The activity monitor keeps a running flag that nothing reports:
    [mic_activity_start] and [mic_activity_stop] on a created monitor return
    0 and set and clear the flag, whatever the scope, yet
    [mic_activity_is_active] answers false in every state and
    [mic_activity_get_active_device_ids] always stores a null list of
    length 0. Destroying the monitor leaves the live monitors as before its
    creation, and a null handle is refused with -1. *)
Theorem mic_activity_reports_nothing (hr change device error context scope : Z)
    (ms : Windows.Monitors) :
  let created := Windows.mic_activity_create hr change device error context ms in
  let handle := fst created in
  handle <> 0 /\
  (exists started stopped monitor,
     Windows.mic_activity_start handle scope (snd created) = Some (0, started) /\
     Windows.monitor_at handle started = Some monitor /\
     Windows.isRunning (snd monitor) = true /\
     Windows.mic_activity_is_active handle started = false /\
     Windows.mic_activity_stop handle started = Some (0, stopped) /\
     (Windows.isRunning ∘ snd) <$> Windows.monitor_at handle stopped = Some false /\
     Windows.monitors <$> Windows.mic_activity_destroy handle stopped
       = Some (Windows.monitors ms)) /\
  (forall h state, Windows.mic_activity_is_active h state = false) /\
  (forall h, h <> 0 ->
     Windows.mic_activity_get_active_device_ids h true true = (0, Some (0, 0))) /\
  (forall ids count,
     Windows.mic_activity_get_active_device_ids 0 ids count = (-1, None)) /\
  Windows.mic_activity_start 0 scope ms = Some (-1, ms) /\
  Windows.mic_activity_stop 0 ms = Some (-1, ms).
Proof.
  cbv zeta. unfold Windows.mic_activity_create. simpl.
  set (h := fresh (dom (Windows.monitors ms))).
  assert (Hfresh : Windows.monitors ms !! h = None)
    by apply not_elem_of_dom, is_fresh.
  split; [done|]. split; [|split; [|split; [|split]]].
  - unfold Windows.mic_activity_start, Windows.mic_activity_stop,
      Windows.mic_activity_destroy, Windows.monitor_at. simpl.
    rewrite lookup_insert_eq. eexists _, _, _. split; [reflexivity|]. simpl.
    rewrite lookup_insert_eq. split; [reflexivity|]. simpl.
    split; [done|]. split; [done|]. split; [reflexivity|]. simpl.
    rewrite !lookup_insert_eq. simpl. split; [done|].
    rewrite !insert_insert_eq, delete_insert_id by done. done.
  - intros handle state. unfold Windows.mic_activity_is_active.
    by destruct (handle =? 0).
  - intros handle Hne. unfold Windows.mic_activity_get_active_device_ids.
    by destruct (Z.eqb_spec handle 0).
  - done.
  - done.
Qed.

(** ** The processes that use the microphone *)

Section CollectFacts.
Import ActiveProcesses.
Variable os : Windows.ProcessTable.

Lemma visit_session_pids (i : nat) (s : AudioSession) (acc : Collected) :
  let pid := snd (GetProcessId s) in
  let keep := eligible s && negb (existsb (fun existingPid => existingPid =? pid)
                                    (activePids acc)) in
  activePids (visit_session os i s acc)
    = (if keep then activePids acc ++ [pid] else activePids acc) /\
  activeNames (visit_session os i s acc)
    = (if keep then activeNames acc ++ [display_name os pid] else activeNames acc).
Proof.
  unfold visit_session, eligible, display_name. simpl.
  destruct (refused (GetSession s)); simpl; [done|].
  destruct (Windows.FAILED (fst (GetState s))
            || negb (snd (GetState s) =? AudioSessionStateActive)); simpl; [done|].
  destruct (refused (QueryInterface s)); simpl; [done|].
  destruct (IsSystemSoundsSession s =? Windows.S_OK); simpl; [done|].
  destruct (Windows.FAILED (fst (GetProcessId s)) || (snd (GetProcessId s) =? 0));
    simpl; [done|].
  destruct (existsb _ (activePids acc)); simpl; [done|].
  by destruct (Windows.GetProcessNameFromPid os (snd (GetProcessId s))) as [[|ch name] closed].
Qed.

Lemma existsb_eqb_elem_of (pid : Z) (l : list Z) :
  existsb (fun existingPid => existingPid =? pid) l = true <-> pid ∈ l.
Proof.
  rewrite existsb_exists. split.
  - intros (x & Hin & Heq%Z.eqb_eq). subst. by apply list_elem_of_In.
  - intros Hin. exists pid. split; [by apply list_elem_of_In|apply Z.eqb_refl].
Qed.

Lemma visit_sessions_spec (sessions : nat -> AudioSession) (n i : nat) (acc : Collected) :
  let found := visit_sessions os sessions i n acc in
  (NoDup (activePids acc) -> NoDup (activePids found)) /\
  (forall pid,
     pid ∈ activePids found <->
     pid ∈ activePids acc \/
     exists j, (i <= j < i + n)%nat /\ eligible (sessions j) = true /\
               snd (GetProcessId (sessions j)) = pid) /\
  (activeNames acc = map (display_name os) (activePids acc) ->
   activeNames found = map (display_name os) (activePids found)) /\
  (length (activePids found) <= length (activePids acc) + n)%nat.
Proof.
  revert i acc. induction n as [|n IH]; intros i acc; simpl.
  - split; [done|]. split; [|split; [done|lia]].
    intros pid. split; [by left|]. intros [Hin|(j & Hj & _)]; [done|lia].
  - destruct (IH (S i) (visit_session os i (sessions i) acc)) as (Hnd & Hin & Hnames & Hlen).
    destruct (visit_session_pids i (sessions i) acc) as [Hpids Hnms].
    simpl in Hpids, Hnms.
    set (pid0 := snd (GetProcessId (sessions i))) in *.
    destruct (eligible (sessions i)) eqn:Hel; simpl in Hpids, Hnms;
      [destruct (existsb _ (activePids acc)) eqn:Hdup; simpl in Hpids, Hnms|].
    + (* eligible, already listed *)
      apply existsb_eqb_elem_of in Hdup.
      rewrite Hpids in Hnd, Hin, Hnames, Hlen. rewrite Hnms in Hnames.
      split; [done|]. split; [|split; [done|lia]].
      intros pid. rewrite Hin. split.
      * intros [Hacc|(j & Hj & Hrest)]; [by left|]. right. exists j. split; [lia|done].
      * intros [Hacc|(j & Hj & Helj & Hpid)]; [by left|].
        destruct (decide (j = i)) as [->|Hne]; [left; by subst|].
        right. exists j. split; [lia|done].
    + (* eligible, new *)
      assert (Hnew : pid0 ∉ activePids acc).
      { intros Hin'. apply existsb_eqb_elem_of in Hin'. congruence. }
      rewrite Hpids in Hnd, Hin, Hnames, Hlen. rewrite Hnms in Hnames.
      rewrite length_app in Hlen. simpl in Hlen.
      split; [|split; [|split; [|lia]]].
      * intros Hacc. apply Hnd. apply NoDup_app. split; [done|].
        split; [|apply NoDup_singleton].
        intros x Hx Hx'%list_elem_of_singleton. by subst.
      * intros pid. rewrite Hin, elem_of_app, list_elem_of_singleton. split.
        -- intros [[Hacc| ->]|(j & Hj & Hrest)].
           ++ by left.
           ++ right. exists i. split; [lia|done].
           ++ right. exists j. split; [lia|done].
        -- intros [Hacc|(j & Hj & Helj & Hpid)]; [left; by left|].
           destruct (decide (j = i)) as [->|Hne]; [left; right; by subst|].
           right. exists j. split; [lia|done].
      * intros Hacc. apply Hnames. rewrite map_app, Hacc. done.
    + (* not eligible *)
      rewrite Hpids in Hnd, Hin, Hnames, Hlen. rewrite Hnms in Hnames.
      split; [done|]. split; [|split; [done|lia]].
      intros pid. rewrite Hin. split.
      * intros [Hacc|(j & Hj & Hrest)]; [by left|]. right. exists j. split; [lia|done].
      * intros [Hacc|(j & Hj & Helj & Hpid)]; [by left|].
        destruct (decide (j = i)) as [->|Hne]; [congruence|].
        right. exists j. split; [lia|done].
Qed.

End CollectFacts.

Lemma display_name_not_empty (os : Windows.ProcessTable) (pid : Z) :
  display_name os pid <> [].
Proof.
  unfold display_name. by destruct (fst (Windows.GetProcessNameFromPid os pid)).
Qed.

(** X18. The session loop of [mic_activity_get_active_processes] collects
    each process once: the pids it gathers are exactly the process ids of
    the sessions in range that were obtained, are active, answer for their
    second interface, are not the system sounds and report a pid that is not
    0; no pid is listed twice, none is 0, there are at most as many as
    sessions, and the names gathered are, position by position, the names of
    those processes, "Unknown" standing for a name that could not be read,
    so never empty. *)
Theorem active_processes_are_collected_once (os : Windows.ProcessTable)
    (sessions : nat -> ActiveProcesses.AudioSession) (sessionCount : nat)
    (events : list ActiveProcesses.ComEvent) :
  let found :=
    ActiveProcesses.visit_sessions os sessions 0 sessionCount
      {| ActiveProcesses.activePids := []; ActiveProcesses.activeNames := [];
         ActiveProcesses.com_events := events; ActiveProcesses.closed_handles := [] |} in
  NoDup (ActiveProcesses.activePids found) /\
  (forall pid,
     pid ∈ ActiveProcesses.activePids found <->
     exists j, (j < sessionCount)%nat /\
               ActiveProcesses.eligible (sessions j) = true /\
               snd (ActiveProcesses.GetProcessId (sessions j)) = pid) /\
  (0 ∉ ActiveProcesses.activePids found) /\
  (length (ActiveProcesses.activePids found) <= sessionCount)%nat /\
  ActiveProcesses.activeNames found
    = map (display_name os) (ActiveProcesses.activePids found) /\
  Forall (fun name => name <> []) (ActiveProcesses.activeNames found).
Proof.
  cbv zeta.
  destruct (visit_sessions_spec os sessions sessionCount 0
              {| ActiveProcesses.activePids := []; ActiveProcesses.activeNames := [];
                 ActiveProcesses.com_events := events;
                 ActiveProcesses.closed_handles := [] |})
    as (Hnd & Hin & Hnames & Hlen).
  simpl in *.
  assert (Hiff : forall pid,
            pid ∈ ActiveProcesses.activePids
                    (ActiveProcesses.visit_sessions os sessions 0 sessionCount
                       {| ActiveProcesses.activePids := [];
                          ActiveProcesses.activeNames := [];
                          ActiveProcesses.com_events := events;
                          ActiveProcesses.closed_handles := [] |}) <->
            exists j, (j < sessionCount)%nat /\
                      ActiveProcesses.eligible (sessions j) = true /\
                      snd (ActiveProcesses.GetProcessId (sessions j)) = pid).
  { intros pid. rewrite Hin. split.
    - intros [Hnil|(j & Hj & Hrest)]; [by apply elem_of_nil in Hnil|].
      exists j. split; [lia|done].
    - intros (j & Hj & Hrest). right. exists j. split; [lia|done]. }
  split; [apply Hnd; constructor|]. split; [exact Hiff|].
  split; [|split; [lia|split; [by apply Hnames|]]].
  - intros (j & _ & Hel & Hpid)%Hiff. unfold ActiveProcesses.eligible in Hel.
    rewrite Hpid in Hel. simpl in Hel. by rewrite orb_true_r, andb_false_r in Hel.
  - rewrite Hnames by done. apply Forall_forall. intros name Hname.
    apply list_elem_of_fmap in Hname as (pid & -> & _).
    apply display_name_not_empty.
Qed.

Example active_processes_sample :
  let found :=
    ActiveProcesses.visit_sessions sample_processes sample_session_at 0 4
      {| ActiveProcesses.activePids := []; ActiveProcesses.activeNames := [];
         ActiveProcesses.com_events := []; ActiveProcesses.closed_handles := [] |} in
  ActiveProcesses.activePids found = [4242] /\
  ActiveProcesses.activeNames found = [Windows.L "meet"] /\
  ActiveProcesses.closed_handles found = [900].
Proof. repeat split; vm_compute; reflexivity. Qed.

Section ComFacts.
Import ActiveProcesses.

Lemma held_after_app (e1 e2 : list ComEvent) (held : list ComObject) :
  held_after (e1 ++ e2) held = held_after e1 held ≫= held_after e2.
Proof.
  revert held. induction e1 as [|[o|o] rest IH]; intros held; simpl; [done|apply IH|].
  destruct (decide (o ∈ held)); [apply IH|done].
Qed.

Lemma remove_head (o : ComObject) (held : list ComObject) :
  o ∉ held -> List.remove ComObject_eq_dec o (o :: held) = held.
Proof.
  intros Hout. simpl. destruct (ComObject_eq_dec o o); [|done].
  apply notin_remove. by rewrite <- list_elem_of_In.
Qed.

Lemma obtain_then_release (o : ComObject) (held : list ComObject) :
  o ∉ held -> held_after [Obtained o; Released o] held = Some held.
Proof.
  intros Hout. cbn [held_after]. rewrite decide_True by (by left).
  by rewrite remove_head.
Qed.

Lemma obtain_two_then_release (o1 o2 : ComObject) (held : list ComObject) :
  o1 ∉ held -> o2 ∉ held -> o1 <> o2 ->
  held_after [Obtained o1; Obtained o2; Released o2; Released o1] held = Some held.
Proof.
  intros H1 H2 Hne. cbn [held_after]. rewrite decide_True by (by left).
  rewrite remove_head by (by intros [->| ?]%elem_of_cons).
  rewrite decide_True by (by left). by rewrite remove_head.
Qed.

Lemma com_rule_cases (r : ComResult) (o : ComObject) :
  follows_com_rule r ->
  (refused r = true /\ note r o = []) \/ (refused r = false /\ note r o = [Obtained o]).
Proof.
  unfold follows_com_rule, refused, note. intros Hrule.
  destruct (Windows.FAILED (hr r)); simpl.
  - left. by rewrite Hrule.
  - destruct (object r); simpl; [by right|by left].
Qed.

Variable os : Windows.ProcessTable.

Lemma visit_session_events (i : nat) (s : AudioSession) (acc : Collected)
    (held : list ComObject) :
  follows_com_rule (GetSession s) -> follows_com_rule (QueryInterface s) ->
  SessionControl i ∉ held -> SessionControl2 i ∉ held ->
  exists delta,
    com_events (visit_session os i s acc) = com_events acc ++ delta /\
    held_after delta held = Some held.
Proof.
  intros Hs Hq H1 H2. unfold visit_session.
  destruct (com_rule_cases _ (SessionControl i) Hs) as [[-> Hn]|[-> Hn]].
  { exists []. simpl. rewrite Hn. by rewrite !app_nil_r. }
  destruct (Windows.FAILED (fst (GetState s))
            || negb (snd (GetState s) =? AudioSessionStateActive)).
  { eexists. simpl. rewrite Hn, <- app_assoc. split; [done|].
    by apply obtain_then_release. }
  destruct (com_rule_cases _ (SessionControl2 i) Hq) as [[-> Hn2]|[-> Hn2]].
  { eexists. simpl. rewrite Hn, Hn2, app_nil_r, <- app_assoc. split; [done|].
    by apply obtain_then_release. }
  assert (Hboth : held_after [Obtained (SessionControl i); Obtained (SessionControl2 i);
                              Released (SessionControl2 i); Released (SessionControl i)]
                    held = Some held) by (by apply obtain_two_then_release).
  destruct (IsSystemSoundsSession s =? Windows.S_OK).
  { eexists. simpl. rewrite Hn, Hn2, <- !app_assoc. split; [done|]. exact Hboth. }
  destruct (Windows.FAILED (fst (GetProcessId s)) || (snd (GetProcessId s) =? 0)).
  { eexists. simpl. rewrite Hn, Hn2, <- !app_assoc. split; [done|]. exact Hboth. }
  destruct (existsb _ _).
  { eexists. simpl. rewrite Hn, Hn2, <- !app_assoc. split; [done|]. exact Hboth. }
  destruct (Windows.GetProcessNameFromPid os (snd (GetProcessId s))) as [found closed].
  eexists. simpl. rewrite Hn, Hn2, <- !app_assoc. split; [done|]. exact Hboth.
Qed.

Lemma visit_sessions_events (sessions : nat -> AudioSession) (n i : nat)
    (acc : Collected) (held : list ComObject) :
  (forall j, follows_com_rule (GetSession (sessions j)) /\
             follows_com_rule (QueryInterface (sessions j))) ->
  (forall j, (SessionControl j ∉ held) /\ (SessionControl2 j ∉ held)) ->
  exists delta,
    com_events (visit_sessions os sessions i n acc) = com_events acc ++ delta /\
    held_after delta held = Some held.
Proof.
  intros Hrule Hheld. revert i acc. induction n as [|n IH]; intros i acc; simpl.
  - exists []. by rewrite app_nil_r.
  - destruct (visit_session_events i (sessions i) acc held) as (d1 & Hd1 & Hh1);
      [apply Hrule|apply Hrule|apply Hheld|apply Hheld|].
    destruct (IH (S i) (visit_session os i (sessions i) acc)) as (d2 & Hd2 & Hh2).
    exists (d1 ++ d2). rewrite Hd2, Hd1, <- app_assoc. split; [done|].
    rewrite held_after_app, Hh1. exact Hh2.
Qed.

End ComFacts.

(** The obtain and release events of a call that returns are balanced. *)
Lemma events_balanced (hr_com : Z)
    (out_pids out_names out_bundleIds out_count : bool)
    (os : Windows.ProcessTable) (utf8 : Windows.wstring -> string)
    (endpoint : ActiveProcesses.Endpoint) (thread : Windows.ComThread)
    (heap : ActiveProcesses.CHeap) (r : ActiveProcesses.Result) :
  follows_com_rule (ActiveProcesses.CoCreateInstance endpoint) ->
  follows_com_rule (ActiveProcesses.GetDefaultAudioEndpoint endpoint) ->
  follows_com_rule (ActiveProcesses.Activate endpoint) ->
  follows_com_rule (ActiveProcesses.GetSessionEnumerator endpoint) ->
  (forall j,
     follows_com_rule (ActiveProcesses.GetSession (ActiveProcesses.sessions endpoint j)) /\
     follows_com_rule (ActiveProcesses.QueryInterface (ActiveProcesses.sessions endpoint j))) ->
  ActiveProcesses.mic_activity_get_active_processes hr_com
    out_pids out_names out_bundleIds out_count os utf8 endpoint thread heap = Some r ->
  held_after (ActiveProcesses.events r) [] = Some [].
Proof.
  intros Hc Hd Ha He Hs. unfold ActiveProcesses.mic_activity_get_active_processes.
  destruct (negb out_pids || negb out_names || negb out_bundleIds || negb out_count).
  { by intros [= <-]. }
  cbv zeta.
  destruct (com_rule_cases _ ActiveProcesses.Enumerator Hc) as [[-> ->]|[-> ->]].
  { by intros [= <-]. }
  destruct (com_rule_cases _ ActiveProcesses.Device Hd) as [[-> ->]|[-> ->]].
  { by intros [= <-]. }
  destruct (com_rule_cases _ ActiveProcesses.SessionManager Ha) as [[-> ->]|[-> ->]].
  { by intros [= <-]. }
  destruct (com_rule_cases _ ActiveProcesses.SessionEnumerator He) as [[-> ->]|[-> ->]].
  { by intros [= <-]. }
  destruct (Windows.FAILED _ || _).
  { by intros [= <-]. }
  set (pre := (([ActiveProcesses.Obtained ActiveProcesses.Enumerator] ++ _) ++ _) ++ _).
  set (cleanup := [ActiveProcesses.Released ActiveProcesses.SessionEnumerator; _; _; _]).
  set (start := {| ActiveProcesses.activePids := [] |}).
  set (held := [ActiveProcesses.SessionEnumerator; ActiveProcesses.SessionManager;
                ActiveProcesses.Device; ActiveProcesses.Enumerator]).
  destruct (visit_sessions_events os (ActiveProcesses.sessions endpoint)
              (Z.to_nat (snd (ActiveProcesses.GetCount endpoint))) 0 start held Hs)
    as (delta & Hfound & Hdelta).
  { intros j. split; intros Hin; repeat (apply elem_of_cons in Hin as [?|Hin]; [done|]);
      by apply elem_of_nil in Hin. }
  assert (Hbalanced :
    held_after (ActiveProcesses.com_events
                  (ActiveProcesses.visit_sessions os (ActiveProcesses.sessions endpoint) 0
                     (Z.to_nat (snd (ActiveProcesses.GetCount endpoint))) start) ++ cleanup)
      [] = Some []).
  { rewrite Hfound. rewrite !held_after_app.
    change (held_after (ActiveProcesses.com_events start) []) with (Some held).
    simpl mbind. rewrite Hdelta. reflexivity. }
  intros Hr.
  repeat case_match; simplify_eq; exact Hbalanced.
Qed.

Section HeapFacts.
Import ActiveProcesses.

Lemma malloc_cases (content : Block) (h h' : CHeap) (p : Z) :
  malloc content h = (p, h') ->
  (p = 0 /\ blocks h' = blocks h) \/
  (p <> 0 /\ blocks h !! p = None /\ blocks h' = <[p := content]> (blocks h)).
Proof.
  unfold malloc.
  pose proof (is_fresh ({[0]} ∪ dom (blocks h))) as Hfresh.
  assert (fresh ({[0]} ∪ dom (blocks h)) <> 0 /\
          blocks h !! fresh ({[0]} ∪ dom (blocks h)) = None) as [Hnz Hnone].
  { split.
    - intros Heq. apply Hfresh. rewrite Heq. apply elem_of_union_l.
      by apply elem_of_singleton_2.
    - apply not_elem_of_dom. intros Hin. apply Hfresh. by apply elem_of_union_r. }
  destruct (refusals h) as [|[|] rest]; intros [= <- <-]; simpl; auto.
Qed.

Lemma free_null (h : CHeap) : ActiveProcesses.free 0 h = Some h.
Proof. done. Qed.

Lemma free_block (p : Z) (h : CHeap) :
  p <> 0 -> is_Some (blocks h !! p) ->
  ActiveProcesses.free p h = Some (set_blocks (delete p (blocks h)) h).
Proof.
  intros Hnz [c Hc]. unfold ActiveProcesses.free.
  destruct (Z.eqb_spec p 0); [done|]. by rewrite Hc.
Qed.

Lemma insert_next {A} (xs : list (option A)) (y : option A) (k : nat) :
  <[length xs := y]> (xs ++ replicate (S k) None) = (xs ++ [y]) ++ replicate k None.
Proof.
  rewrite insert_app_r_alt by lia. rewrite Nat.sub_diag. simpl.
  by rewrite <- app_assoc.
Qed.

Lemma nonnull_app (l k : list Z) : nonnull (l ++ k) = nonnull l ++ nonnull k.
Proof. apply filter_app. Qed.

Lemma nonnull_null : nonnull [0] = [].
Proof. done. Qed.

Lemma nonnull_one (p : Z) : p <> 0 -> nonnull [p] = [p].
Proof. intros Hp. unfold nonnull. by rewrite filter_cons_True. Qed.

Lemma elem_of_nonnull (p : Z) (l : list Z) : p ∈ nonnull l <-> p <> 0 /\ p ∈ l.
Proof. unfold nonnull. by rewrite list_elem_of_filter. Qed.

End HeapFacts.

Section FillFacts.
Import ActiveProcesses.

Variable before : gmap Z Block.
Variables a_pids a_names a_bundles : Z.

Lemma name_is_owned (namePtrs bundlePtrs : list Z) (j : nat) (p : Z) :
  namePtrs !! j = Some p -> p <> 0 -> p ∈ nonnull namePtrs ++ nonnull bundlePtrs.
Proof.
  intros Hj Hp. apply elem_of_app. left. apply elem_of_nonnull. split; [done|].
  by apply list_elem_of_lookup_2 in Hj.
Qed.

Lemma write_int32_filling (values namePtrs bundlePtrs : list Z) (texts : list string)
    (r1 r2 r3 : nat) (h : CHeap) (v : Z) :
  filling before a_pids a_names a_bundles values namePtrs bundlePtrs texts (S r1) r2 r3 h ->
  exists h',
    write_int32 a_pids (length values) v h = Some h' /\
    filling before a_pids a_names a_bundles (values ++ [v]) namePtrs bundlePtrs texts
      r1 r2 r3 h'.
Proof.
  intros (Hnz & Hdist & Hfresh & H1 & H2 & H3 & Hnd & Hown & Hframe &
          Hlen & Htexts & Hempty).
  destruct Hdist as (H12 & H13 & H23).
  unfold write_int32. rewrite H1.
  assert ((length values <? length ((Some <$> values) ++ replicate (S r1) None))%nat = true)
    as ->.
  { apply Nat.ltb_lt. rewrite length_app, length_fmap, length_replicate. lia. }
  eexists. split; [done|]. unfold filling. simpl.
  split; [done|]. split; [done|]. split; [done|]. split.
  { rewrite lookup_insert_eq, fmap_app. simpl.
    by rewrite <- insert_next, length_fmap. }
  split. { by rewrite lookup_insert_ne. }
  split. { by rewrite lookup_insert_ne. }
  split; [done|]. split.
  { intros p Hp. destruct (Hown p Hp) as (? & ? & ? & ? & ?).
    by rewrite lookup_insert_ne. }
  split.
  { intros k ? ? ? Hk. rewrite lookup_insert_ne by done. by apply Hframe. }
  split; [done|]. split.
  - intros j p Hj Hp. destruct (Htexts j p Hj Hp) as (s & Hs & Hblock).
    exists s. split; [done|].
    destruct (Hown p (name_is_owned _ bundlePtrs _ _ Hj Hp)) as (? & _).
    by rewrite lookup_insert_ne.
  - intros p Hp. destruct (Hown p) as (? & _); [by apply elem_of_app; right|].
    rewrite lookup_insert_ne by done. by apply Hempty.
Qed.

Lemma middle_last (l k : list Z) (p : Z) : (l ++ [p]) ++ k ≡ₚ p :: (l ++ k).
Proof. rewrite <- app_assoc. simpl. by rewrite <- Permutation_middle. Qed.

Lemma end_last (l k : list Z) (p : Z) : l ++ k ++ [p] ≡ₚ p :: (l ++ k).
Proof. by rewrite app_assoc, <- Permutation_cons_append. Qed.

(** What a fresh block [p] cannot be, in a heap that is being filled. *)
Lemma fresh_in_filling (values namePtrs bundlePtrs : list Z) (texts : list string)
    (r1 r2 r3 : nat) (h : CHeap) (p : Z) :
  filling before a_pids a_names a_bundles values namePtrs bundlePtrs texts r1 r2 r3 h ->
  blocks h !! p = None ->
  p <> a_pids /\ p <> a_names /\ p <> a_bundles /\
  (p ∉ nonnull namePtrs ++ nonnull bundlePtrs) /\ before !! p = None.
Proof.
  intros (Hnz & Hdist & Hfresh & H1 & H2 & H3 & Hnd & Hown & Hframe & _) Hp.
  assert (p <> a_pids) by (intros ->; congruence).
  assert (p <> a_names) by (intros ->; congruence).
  assert (p <> a_bundles) by (intros ->; congruence).
  assert (p ∉ nonnull namePtrs ++ nonnull bundlePtrs) as Hout.
  { intros Hin. destruct (Hown p Hin) as (_ & _ & _ & _ & [c Hc]). congruence. }
  repeat split; try done. rewrite <- Hframe; done.
Qed.

Lemma write_name_filling (values namePtrs bundlePtrs : list Z) (texts : list string)
    (r1 r2 r3 : nat) (h h1 : CHeap) (s : string) (p : Z) :
  filling before a_pids a_names a_bundles values namePtrs bundlePtrs texts r1 (S r2) r3 h ->
  malloc (Text s) h = (p, h1) ->
  exists h',
    write_pointer a_names (length namePtrs) p h1 = Some h' /\
    filling before a_pids a_names a_bundles values (namePtrs ++ [p]) bundlePtrs
      (texts ++ [s]) r1 r2 r3 h'.
Proof.
  intros Hfill Hmalloc.
  pose proof (fresh_in_filling _ _ _ _ _ _ _ _ p Hfill) as Hnew.
  destruct Hfill as (Hnz & Hdist & Hfresh & H1 & H2 & H3 & Hnd & Hown & Hframe &
                     Hlen & Htexts & Hempty).
  destruct Hdist as (H12 & H13 & H23).
  assert (forall c, (length namePtrs <?
            length ((Some <$> namePtrs) ++ replicate (S r2) (@None Z)))%nat = true /\
          <[length namePtrs := Some c]> ((Some <$> namePtrs) ++ replicate (S r2) None) =
            (Some <$> namePtrs ++ [c]) ++ replicate r2 None) as Harray.
  { intros c. split.
    - apply Nat.ltb_lt. rewrite length_app, length_fmap, length_replicate. lia.
    - rewrite fmap_app. simpl. by rewrite <- insert_next, length_fmap. }
  assert (length (texts ++ [s]) = length (namePtrs ++ [p])) as Hlen'.
  { rewrite !length_app. simpl. lia. }
  unfold write_pointer.
  destruct (malloc_cases _ _ _ _ Hmalloc) as [[-> Hsame]|(Hp & Hnone & Hnew')].
  - rewrite Hsame, H2. destruct (Harray 0) as [-> ->].
    eexists. split; [done|]. unfold filling. simpl.
    rewrite nonnull_app, nonnull_null, app_nil_r.
    split; [done|]. split; [done|]. split; [done|].
    split. { by rewrite lookup_insert_ne. }
    split. { by rewrite lookup_insert_eq. }
    split. { by rewrite lookup_insert_ne. }
    split; [done|]. split.
    { intros q Hq. destruct (Hown q Hq) as (? & ? & ? & ? & ?).
      by rewrite lookup_insert_ne. }
    split.
    { intros k ? ? ? Hk. rewrite lookup_insert_ne by done. by apply Hframe. }
    split; [done|]. split.
    + intros j q Hj Hq. apply lookup_snoc_Some in Hj as [[_ Hj]|[_ <-]]; [|done].
      destruct (Htexts j q Hj Hq) as (t & Ht & Hblock).
      exists t. split; [by apply lookup_app_l_Some|].
      destruct (Hown q (name_is_owned _ bundlePtrs _ _ Hj Hq)) as (_ & ? & _).
      by rewrite lookup_insert_ne.
    + intros q Hq. destruct (Hown q) as (_ & ? & _); [by apply elem_of_app; right|].
      rewrite lookup_insert_ne by done. by apply Hempty.
  - destruct (Hnew Hnone) as (Hp1 & Hp2 & Hp3 & Hout & Hbefore).
    rewrite Hnew', lookup_insert_ne, H2 by done. destruct (Harray p) as [-> ->].
    eexists. split; [done|]. unfold filling. simpl.
    rewrite nonnull_app, nonnull_one by done.
    split; [done|]. split; [done|]. split; [done|].
    split. { by rewrite !lookup_insert_ne. }
    split. { by rewrite lookup_insert_eq. }
    split. { by rewrite !lookup_insert_ne. }
    split. { rewrite middle_last. by apply NoDup_cons. }
    split.
    { intros q Hq. rewrite middle_last in Hq. apply elem_of_cons in Hq as [->|Hq].
      - repeat split; try done. rewrite lookup_insert_ne by done.
        by rewrite lookup_insert_eq.
      - destruct (Hown q Hq) as (? & ? & ? & ? & ?). repeat split; try done.
        rewrite lookup_insert_ne by done.
        destruct (decide (p = q)) as [->|]; [by rewrite lookup_insert_eq|].
        by rewrite lookup_insert_ne. }
    split.
    { intros k ? ? ? Hk. rewrite middle_last in Hk.
      apply not_elem_of_cons in Hk as [? Hk].
      rewrite !lookup_insert_ne by done. by apply Hframe. }
    split; [done|]. split.
    + intros j q Hj Hq. apply lookup_snoc_Some in Hj as [[_ Hj]|[-> <-]].
      * destruct (Htexts j q Hj Hq) as (t & Ht & Hblock).
        exists t. split; [by apply lookup_app_l_Some|].
        pose proof (name_is_owned _ bundlePtrs _ _ Hj Hq) as Hin.
        destruct (Hown q Hin) as (_ & ? & _).
        rewrite !lookup_insert_ne; [done| |done]. by intros ->.
      * exists s. split; [by apply list_lookup_middle|].
        rewrite lookup_insert_ne by done. by rewrite lookup_insert_eq.
    + intros q Hq.
      assert (q ∈ nonnull namePtrs ++ nonnull bundlePtrs) as Hin
        by (by apply elem_of_app; right).
      destruct (Hown q Hin) as (_ & ? & _).
      rewrite !lookup_insert_ne; [by apply Hempty| |done]. by intros ->.
Qed.

Lemma write_bundle_filling (values namePtrs bundlePtrs : list Z) (texts : list string)
    (r1 r2 r3 : nat) (h h1 : CHeap) (p : Z) :
  filling before a_pids a_names a_bundles values namePtrs bundlePtrs texts r1 r2 (S r3) h ->
  malloc (Text EmptyString) h = (p, h1) ->
  exists h',
    write_pointer a_bundles (length bundlePtrs) p h1 = Some h' /\
    filling before a_pids a_names a_bundles values namePtrs (bundlePtrs ++ [p]) texts
      r1 r2 r3 h'.
Proof.
  intros Hfill Hmalloc.
  pose proof (fresh_in_filling _ _ _ _ _ _ _ _ p Hfill) as Hnew.
  destruct Hfill as (Hnz & Hdist & Hfresh & H1 & H2 & H3 & Hnd & Hown & Hframe &
                     Hlen & Htexts & Hempty).
  destruct Hdist as (H12 & H13 & H23).
  assert (forall c, (length bundlePtrs <?
            length ((Some <$> bundlePtrs) ++ replicate (S r3) (@None Z)))%nat = true /\
          <[length bundlePtrs := Some c]> ((Some <$> bundlePtrs) ++ replicate (S r3) None) =
            (Some <$> bundlePtrs ++ [c]) ++ replicate r3 None) as Harray.
  { intros c. split.
    - apply Nat.ltb_lt. rewrite length_app, length_fmap, length_replicate. lia.
    - rewrite fmap_app. simpl. by rewrite <- insert_next, length_fmap. }
  unfold write_pointer.
  destruct (malloc_cases _ _ _ _ Hmalloc) as [[-> Hsame]|(Hp & Hnone & Hnew')].
  - rewrite Hsame, H3. destruct (Harray 0) as [-> ->].
    eexists. split; [done|]. unfold filling. simpl.
    rewrite nonnull_app, nonnull_null, app_nil_r.
    split; [done|]. split; [done|]. split; [done|].
    split. { by rewrite lookup_insert_ne. }
    split. { by rewrite lookup_insert_ne. }
    split. { by rewrite lookup_insert_eq. }
    split; [done|]. split.
    { intros q Hq. destruct (Hown q Hq) as (? & ? & ? & ? & ?).
      by rewrite lookup_insert_ne. }
    split.
    { intros k ? ? ? Hk. rewrite lookup_insert_ne by done. by apply Hframe. }
    split; [done|]. split.
    + intros j q Hj Hq. destruct (Htexts j q Hj Hq) as (t & Ht & Hblock).
      exists t. split; [done|].
      destruct (Hown q (name_is_owned _ bundlePtrs _ _ Hj Hq)) as (_ & _ & ? & _).
      by rewrite lookup_insert_ne.
    + intros q Hq. destruct (Hown q) as (_ & _ & ? & _); [by apply elem_of_app; right|].
      rewrite lookup_insert_ne by done. by apply Hempty.
  - destruct (Hnew Hnone) as (Hp1 & Hp2 & Hp3 & Hout & Hbefore).
    rewrite Hnew', lookup_insert_ne, H3 by done. destruct (Harray p) as [-> ->].
    eexists. split; [done|]. unfold filling. simpl.
    rewrite nonnull_app, nonnull_one by done.
    split; [done|]. split; [done|]. split; [done|].
    split. { by rewrite !lookup_insert_ne. }
    split. { by rewrite !lookup_insert_ne. }
    split. { by rewrite lookup_insert_eq. }
    split. { rewrite end_last. by apply NoDup_cons. }
    split.
    { intros q Hq. rewrite end_last in Hq. apply elem_of_cons in Hq as [->|Hq].
      - repeat split; try done. rewrite lookup_insert_ne by done.
        by rewrite lookup_insert_eq.
      - destruct (Hown q Hq) as (? & ? & ? & ? & ?). repeat split; try done.
        rewrite lookup_insert_ne by done.
        destruct (decide (p = q)) as [->|]; [by rewrite lookup_insert_eq|].
        by rewrite lookup_insert_ne. }
    split.
    { intros k ? ? ? Hk. rewrite end_last in Hk.
      apply not_elem_of_cons in Hk as [? Hk].
      rewrite !lookup_insert_ne by done. by apply Hframe. }
    split; [done|]. split.
    + intros j q Hj Hq. destruct (Htexts j q Hj Hq) as (t & Ht & Hblock).
      exists t. split; [done|].
      pose proof (name_is_owned _ bundlePtrs _ _ Hj Hq) as Hin.
      destruct (Hown q Hin) as (_ & _ & ? & _).
      rewrite !lookup_insert_ne; [done| |done]. by intros ->.
    + intros q [Hq|Hq%list_elem_of_singleton]%elem_of_app.
      * assert (q ∈ nonnull namePtrs ++ nonnull bundlePtrs) as Hin
          by (by apply elem_of_app; right).
        destruct (Hown q Hin) as (_ & _ & ? & _).
        rewrite !lookup_insert_ne; [by apply Hempty| |done]. by intros ->.
      * subst q. rewrite lookup_insert_ne by done. by rewrite lookup_insert_eq.
Qed.

End FillFacts.

Section FreeFacts.
Import ActiveProcesses.

Lemma fill_outputs_filling (utf8 : Windows.wstring -> string)
    (before : gmap Z Block) (a_pids a_names a_bundles : Z)
    (activePids : list Z) :
  forall (activeNames : list Windows.wstring) (values namePtrs bundlePtrs : list Z)
         (texts : list string) (h : CHeap),
  length activePids = length activeNames ->
  length namePtrs = length values -> length bundlePtrs = length values ->
  filling before a_pids a_names a_bundles values namePtrs bundlePtrs texts
    (length activePids) (length activePids) (length activePids) h ->
  exists h' namePtrs' bundlePtrs',
    fill_outputs utf8 a_pids a_names a_bundles (length values)
      activePids activeNames h = Some h' /\
    length namePtrs' = (length values + length activePids)%nat /\
    length bundlePtrs' = (length values + length activePids)%nat /\
    filling before a_pids a_names a_bundles (values ++ map wrap_int32 activePids)
      namePtrs' bundlePtrs' (texts ++ map utf8 activeNames) 0 0 0 h'.
Proof.
  induction activePids as [|pid rest IH];
    intros activeNames values namePtrs bundlePtrs texts h Hlen Hn Hb Hfill.
  - exists h, namePtrs, bundlePtrs. destruct activeNames; [|done]. simpl.
    rewrite !app_nil_r.
    split; [done|]. split; [lia|]. split; [lia|]. done.
  - destruct activeNames as [|procName names']; [done|]. simpl in Hlen, Hfill.
    cbn [fill_outputs].
    destruct (write_int32_filling _ _ _ _ _ _ _ _ _ _ _ _ (wrap_int32 pid) Hfill)
      as (h1 & -> & Hfill1).
    destruct (malloc (Text (utf8 procName)) h1) as [name h2] eqn:Hname.
    destruct (write_name_filling _ _ _ _ _ _ _ _ _ _ _ _ _ _ _ Hfill1 Hname)
      as (h3 & Hw3 & Hfill3).
    rewrite Hn in Hw3. rewrite Hw3.
    destruct (malloc (Text "") h3) as [bundle h4] eqn:Hbundle.
    destruct (write_bundle_filling _ _ _ _ _ _ _ _ _ _ _ _ _ _ Hfill3 Hbundle)
      as (h5 & Hw5 & Hfill5).
    rewrite Hb in Hw5. rewrite Hw5.
    destruct (IH names' (values ++ [wrap_int32 pid]) (namePtrs ++ [name])
                (bundlePtrs ++ [bundle]) (texts ++ [utf8 procName]) h5)
      as (h' & N & B & Hrun & HN & HB & Hfill');
      [lia|rewrite !length_app; simpl; lia|rewrite !length_app; simpl; lia|done|].
    rewrite length_app in Hrun, HN, HB. simpl in Hrun, HN, HB.
    rewrite Nat.add_1_r in Hrun.
    exists h', N, B. rewrite Hrun. simpl.
    rewrite <- !app_assoc in Hfill'.
    split; [done|]. split; [lia|]. split; [lia|]. done.
Qed.

Lemma free_each_spec (array : Z) (all : list Z) :
  forall (rest : list Z) (i : nat) (h : CHeap),
  drop i all = rest ->
  blocks h !! array = Some (PointerArray (Some <$> all)) ->
  NoDup (nonnull rest) ->
  (forall p, p ∈ nonnull rest -> p <> array /\ is_Some (blocks h !! p)) ->
  exists h',
    free_each array i (length rest) h = Some h' /\
    (forall k, k ∈ nonnull rest -> blocks h' !! k = None) /\
    (forall k, k ∉ nonnull rest -> blocks h' !! k = blocks h !! k).
Proof.
  induction rest as [|p rest IH]; intros i h Hdrop Harray Hnd Hown.
  - exists h. split; [done|]. split; [|done]. intros k Hk. by apply elem_of_nil in Hk.
  - assert (all !! i = Some p) as Hp.
    { rewrite <- (Nat.add_0_r i), <- lookup_drop, Hdrop. done. }
    assert (drop (S i) all = rest) as Hdrop'.
    { rewrite (drop_S _ _ _ Hp) in Hdrop. by injection Hdrop. }
    cbn [free_each length]. unfold read_pointer. rewrite Harray, list_lookup_fmap, Hp.
    simpl.
    destruct (decide (p = 0)) as [->|Hnz].
    + rewrite free_null. change (nonnull (0 :: rest)) with (nonnull rest) in *.
      by apply IH.
    + assert (nonnull (p :: rest) = p :: nonnull rest) as Hcons.
      { unfold nonnull. by rewrite filter_cons_True. }
      rewrite Hcons in *. apply NoDup_cons in Hnd as [Hfirst Hnd].
      destruct (Hown p) as [Hpa Hsome]; [by left|].
      rewrite free_block by done.
      destruct (IH (S i) (set_blocks (delete p (blocks h)) h)) as (h' & -> & Hgone & Hkept);
        [done|simpl; by rewrite lookup_delete_ne|done| |].
      { intros q Hq. destruct (Hown q) as [? ?]; [by right|]. split; [done|].
        simpl. rewrite lookup_delete_ne; [done|]. by intros ->. }
      exists h'. split; [done|]. split.
      * intros k [->|Hk]%elem_of_cons; [|by apply Hgone].
        rewrite Hkept by done. simpl. apply lookup_delete_eq.
      * intros k [? ?]%not_elem_of_cons. rewrite Hkept by done. simpl.
        by rewrite lookup_delete_ne.
Qed.

Lemma free_pointer_array_spec (array : Z) (all : list Z) (h : CHeap) :
  array <> 0 ->
  blocks h !! array = Some (PointerArray (Some <$> all)) ->
  NoDup (nonnull all) ->
  (forall p, p ∈ nonnull all -> p <> array /\ is_Some (blocks h !! p)) ->
  exists h',
    free_pointer_array array (Z.of_nat (length all)) h = Some h' /\
    (forall k, k = array \/ k ∈ nonnull all -> blocks h' !! k = None) /\
    (forall k, k <> array -> k ∉ nonnull all -> blocks h' !! k = blocks h !! k).
Proof.
  intros Hnz Harray Hnd Hown. unfold free_pointer_array.
  destruct (Z.eqb_spec array 0); [done|]. rewrite Nat2Z.id.
  destruct (free_each_spec array all all 0 h) as (h1 & -> & Hgone & Hkept); try done.
  assert (array ∉ nonnull all) as Hout.
  { intros Hin. by destruct (Hown array Hin). }
  rewrite free_block; [|done|by rewrite Hkept, Harray].
  eexists. split; [done|]. simpl. split.
  - intros k [->|Hk]; [apply lookup_delete_eq|].
    rewrite lookup_delete_ne; [by apply Hgone|]. by intros ->.
  - intros k ? Hk. rewrite lookup_delete_ne by done. by apply Hkept.
Qed.

Lemma free_processes_filling (before : gmap Z Block) (a_pids a_names a_bundles : Z)
    (values namePtrs bundlePtrs : list Z) (texts : list string) (n : nat) (h : CHeap) :
  filling before a_pids a_names a_bundles values namePtrs bundlePtrs texts 0 0 0 h ->
  length namePtrs = n -> length bundlePtrs = n ->
  exists h',
    mic_activity_free_processes a_pids a_names a_bundles (Z.of_nat n) h = Some h' /\
    blocks h' = before.
Proof.
  intros ((Hz1 & Hz2 & Hz3) & (H12 & H13 & H23) & (Hb1 & Hb2 & Hb3) &
          H1 & H2 & H3 & Hnd & Hown & Hframe & _) HN HB.
  simpl in H1, H2, H3. rewrite app_nil_r in H1, H2, H3.
  apply NoDup_app in Hnd as (HndN & Hdisjoint & HndB).
  unfold mic_activity_free_processes.
  rewrite free_block; [|done|by rewrite H1].
  set (h1 := set_blocks (delete a_pids (blocks h)) h).
  assert (forall k, k <> a_pids -> blocks h1 !! k = blocks h !! k) as Hh1.
  { intros k ?. simpl. by rewrite lookup_delete_ne. }
  destruct (free_pointer_array_spec a_names namePtrs h1) as (h2 & Hrun2 & Hgone2 & Hkept2);
    [done|by rewrite Hh1| done| |].
  { intros p Hp. destruct (Hown p) as (? & ? & ? & ? & ?); [by apply elem_of_app; left|].
    split; [done|]. by rewrite Hh1. }
  rewrite HN in Hrun2. rewrite Hrun2.
  destruct (free_pointer_array_spec a_bundles bundlePtrs h2) as (h3 & Hrun3 & Hgone3 & Hkept3);
    [done| |done| |].
  { rewrite Hkept2; [by rewrite Hh1|done|].
    intros Hin. destruct (Hown a_bundles) as (? & ? & ? & ? & ?); [|done].
    by apply elem_of_app; left. }
  { intros p Hp. destruct (Hown p) as (? & ? & ? & ? & ?); [by apply elem_of_app; right|].
    split; [done|]. rewrite Hkept2; [by rewrite Hh1|done|].
    intros Hin. by apply (Hdisjoint p). }
  rewrite HB in Hrun3. exists h3. split; [done|].
  apply map_eq. intros k.
  assert (forall p, p ∈ nonnull namePtrs ++ nonnull bundlePtrs ->
                    p <> a_pids /\ p <> a_names /\ p <> a_bundles) as Hother.
  { intros p Hp. by destruct (Hown p Hp) as (? & ? & ? & _). }
  destruct (decide (k ∈ nonnull bundlePtrs)) as [HkB|HkB].
  { rewrite Hgone3 by (by right). symmetry.
    destruct (Hown k) as (_ & _ & _ & ? & _); [by apply elem_of_app; right|done]. }
  destruct (decide (k = a_bundles)) as [->|Hk3].
  { rewrite Hgone3 by (by left). done. }
  rewrite Hkept3 by done.
  destruct (decide (k ∈ nonnull namePtrs)) as [HkN|HkN].
  { rewrite Hgone2 by (by right). symmetry.
    destruct (Hown k) as (_ & _ & _ & ? & _); [by apply elem_of_app; left|done]. }
  destruct (decide (k = a_names)) as [->|Hk2].
  { rewrite Hgone2 by (by left). done. }
  rewrite Hkept2 by done.
  destruct (decide (k = a_pids)) as [->|Hk1].
  { simpl. rewrite lookup_delete_eq. done. }
  rewrite Hh1 by done. apply Hframe; try done.
  by intros [?|?]%elem_of_app.
Qed.

End FreeFacts.

Section AllocationFacts.
Import ActiveProcesses.

Lemma malloc_lookup (content : Block) (h h' : CHeap) (p : Z) :
  malloc content h = (p, h') ->
  (p = 0 \/ blocks h !! p = None) /\
  forall k, blocks h' !! k = if decide (p <> 0 /\ k = p) then Some content
                             else blocks h !! k.
Proof.
  intros [[-> ->]|(Hp & Hnone & ->)]%malloc_cases.
  - split; [by left|]. intros k. case_decide as Hk; [by destruct Hk|done].
  - split; [by right|]. intros k. case_decide as Hk.
    + destruct Hk as [_ ->]. apply lookup_insert_eq.
    + apply lookup_insert_ne. intros ->. by apply Hk.
Qed.

Lemma free_lookup (p : Z) (h : CHeap) :
  p = 0 \/ is_Some (blocks h !! p) ->
  exists h',
    ActiveProcesses.free p h = Some h' /\
    forall k, blocks h' !! k = if decide (p <> 0 /\ k = p) then None else blocks h !! k.
Proof.
  intros Hp. destruct (decide (p = 0)) as [->|Hnz].
  - exists h. split; [done|]. intros k. case_decide as Hk; [by destruct Hk|done].
  - destruct Hp as [?|Hsome]; [done|]. rewrite free_block by done.
    eexists. split; [done|]. intros k. simpl. case_decide as Hk.
    + destruct Hk as [_ ->]. apply lookup_delete_eq.
    + apply lookup_delete_ne. intros ->. by apply Hk.
Qed.

(** The failure path after the three [malloc] calls: [free] on each result,
    null or not, gives back the heap there was. *)
Lemma three_mallocs_released (c1 c2 c3 : Block) (h h1 h2 h3 : CHeap) (a b c : Z) :
  malloc c1 h = (a, h1) -> malloc c2 h1 = (b, h2) -> malloc c3 h2 = (c, h3) ->
  exists h4 h5 h6,
    ActiveProcesses.free a h3 = Some h4 /\ ActiveProcesses.free b h4 = Some h5 /\
    ActiveProcesses.free c h5 = Some h6 /\ blocks h6 = blocks h.
Proof.
  intros [Fa La]%malloc_lookup [Fb Lb]%malloc_lookup [Fc Lc]%malloc_lookup.
  rewrite La in Fb. rewrite Lb, La in Fc.
  destruct (free_lookup a h3) as (h4 & Hfa & L4).
  { rewrite Lc, Lb, La. destruct (decide (a = 0)); [by left|right].
    repeat case_decide; naive_solver. }
  destruct (free_lookup b h4) as (h5 & Hfb & L5).
  { rewrite L4, Lc, Lb, La. destruct (decide (b = 0)); [by left|right].
    repeat case_decide; naive_solver. }
  destruct (free_lookup c h5) as (h6 & Hfc & L6).
  { rewrite L5, L4, Lc, Lb, La. destruct (decide (c = 0)); [by left|right].
    repeat case_decide; naive_solver. }
  exists h4, h5, h6. repeat split; try done.
  apply map_eq. intros k. rewrite L6, L5, L4, Lc, Lb, La.
  repeat case_decide; naive_solver.
Qed.

(** The success path: the three arrays, none of them null, start the
    filling with nothing written. *)
Lemma three_mallocs_filling (n : nat) (h h1 h2 h3 : CHeap) (a b c : Z) :
  malloc (Int32Array (replicate n None)) h = (a, h1) ->
  malloc (PointerArray (replicate n None)) h1 = (b, h2) ->
  malloc (PointerArray (replicate n None)) h2 = (c, h3) ->
  a <> 0 -> b <> 0 -> c <> 0 ->
  filling (blocks h) a b c [] [] [] [] n n n h3.
Proof.
  intros [Fa La]%malloc_lookup [Fb Lb]%malloc_lookup [Fc Lc]%malloc_lookup Ha Hb Hc.
  rewrite La in Fb. rewrite Lb, La in Fc.
  destruct Fa as [?|Fa]; [done|]. destruct Fb as [?|Fb]; [done|].
  destruct Fc as [?|Fc]; [done|].
  unfold filling. simpl.
  split; [done|]. split. { repeat case_decide; naive_solver. }
  split. { repeat case_decide; naive_solver. }
  split. { rewrite Lc, Lb, La. repeat case_decide; naive_solver. }
  split. { rewrite Lc, Lb. repeat case_decide; naive_solver. }
  split. { rewrite Lc. repeat case_decide; naive_solver. }
  split. { apply NoDup_nil_2. }
  split. { intros p Hp. by apply elem_of_nil in Hp. }
  split. { intros k ? ? ? _. rewrite Lc, Lb, La. repeat case_decide; naive_solver. }
  split; [done|]. split.
  - intros j p Hj. done.
  - intros p Hp. by apply elem_of_nil in Hp.
Qed.

End AllocationFacts.

Section OutcomeFacts.
Import ActiveProcesses.

(** Every call of [mic_activity_get_active_processes] returns, in one of
    three ways: nothing written (a null out-pointer); all outputs null and
    the heap as it was; or three arrays filled from the collected pids and
    names. *)
Lemma active_processes_outcome (hr_com : Z)
    (out_pids out_names out_bundleIds out_count : bool)
    (os : Windows.ProcessTable) (utf8 : Windows.wstring -> string)
    (endpoint : Endpoint) (thread0 : Windows.ComThread) (heap0 : CHeap) :
  exists r,
    mic_activity_get_active_processes hr_com out_pids out_names out_bundleIds out_count
      os utf8 endpoint thread0 heap0 = Some r /\
    ((negb out_pids || negb out_names || negb out_bundleIds || negb out_count = true /\
      status r = -1 /\ outputs r = None /\ heap r = heap0 /\ thread r = thread0 /\
      events r = []) \/
     (negb out_pids || negb out_names || negb out_bundleIds || negb out_count = false /\
      (status r = 0 \/ status r = -1) /\
      outputs r = Some no_outputs /\ blocks (heap r) = blocks heap0) \/
     (negb out_pids || negb out_names || negb out_bundleIds || negb out_count = false /\
      exists events0 namePtrs bundlePtrs o,
        let found :=
          visit_sessions os (sessions endpoint) 0 (Z.to_nat (snd (GetCount endpoint)))
            {| activePids := []; activeNames := [];
               com_events := events0; closed_handles := [] |} in
        activePids found <> [] /\
        status r = 0 /\ outputs r = Some o /\
        count o = wrap_int32 (Z.of_nat (length (activePids found))) /\
        length namePtrs = length (activePids found) /\
        length bundlePtrs = length (activePids found) /\
        filling (blocks heap0) (pids o) (names o) (bundleIds o)
          (map wrap_int32 (activePids found)) namePtrs bundlePtrs
          (map utf8 (activeNames found)) 0 0 0 (heap r))).
Proof.
  unfold mic_activity_get_active_processes.
  destruct (negb out_pids || negb out_names || negb out_bundleIds || negb out_count).
  { eexists. split; [done|]. left. done. }
  cbv zeta.
  destruct (refused (CoCreateInstance endpoint)).
  { eexists. split; [done|]. right; left. simpl. auto. }
  destruct (refused (GetDefaultAudioEndpoint endpoint)).
  { eexists. split; [done|]. right; left. simpl. auto. }
  destruct (refused (Activate endpoint)).
  { eexists. split; [done|]. right; left. simpl. auto. }
  destruct (refused (GetSessionEnumerator endpoint)).
  { eexists. split; [done|]. right; left. simpl. auto. }
  destruct (Windows.FAILED _ || _).
  { eexists. split; [done|]. right; left. simpl. auto. }
  match goal with
  | |- context [visit_sessions os _ 0%nat _ ?start] => set (acc := start)
  end.
  destruct (visit_sessions_spec os (sessions endpoint)
              (Z.to_nat (snd (GetCount endpoint))) 0 acc) as (_ & _ & Hnames & _).
  specialize (Hnames eq_refl).
  set (found := visit_sessions os (sessions endpoint) 0
                  (Z.to_nat (snd (GetCount endpoint))) acc) in *.
  assert (length (activePids found) = length (activeNames found)) as Hlen.
  { by rewrite Hnames, length_map. }
  destruct (activePids found) as [|pid rest] eqn:Hpids.
  { eexists. split; [done|]. right; left. simpl. auto. }
  rewrite <- Hpids in *.
  destruct (malloc (Int32Array _) heap0) as [a h1] eqn:Ma.
  destruct (malloc (PointerArray _) h1) as [b h2] eqn:Mb.
  destruct (malloc (PointerArray _) h2) as [c h3] eqn:Mc.
  destruct ((a =? 0) || (b =? 0) || (c =? 0)) eqn:Hnull.
  - destruct (three_mallocs_released _ _ _ _ _ _ _ _ _ _ Ma Mb Mc)
      as (h4 & h5 & h6 & -> & -> & -> & Hsame).
    eexists. split; [done|]. right; left. simpl. auto.
  - apply orb_false_elim in Hnull as [Hnull Hc]. apply orb_false_elim in Hnull as [Ha Hb].
    apply Z.eqb_neq in Ha, Hb, Hc.
    pose proof (three_mallocs_filling _ _ _ _ _ _ _ _ Ma Mb Mc Ha Hb Hc) as Hfill.
    destruct (fill_outputs_filling utf8 (blocks heap0) a b c (activePids found)
                (activeNames found) [] [] [] [] h3 Hlen eq_refl eq_refl Hfill)
      as (h' & N & B & Hrun & HN & HB & Hfill').
    simpl in Hrun, HN, HB, Hfill'. rewrite Hrun.
    eexists. split; [done|]. right; right. split; [done|].
    exists (com_events acc), N, B. eexists. cbv zeta.
    change {| activePids := []; activeNames := []; com_events := com_events acc;
              closed_handles := [] |} with acc.
    fold found. simpl.
    split; [by rewrite Hpids|]. split; [done|]. split; [done|]. split; [done|].
    split; [done|]. split; [done|]. done.
Qed.

End OutcomeFacts.

(** X19. [mic_activity_get_active_processes] releases every COM interface
    it obtained, on every path: whatever the endpoint and its sessions
    answer (as long as a failing call hands out no object), the call
    returns, the run of its obtain and release events is balanced, and
    nothing is released that is not held. *)
Theorem active_processes_releases_every_interface (hr_com : Z)
    (out_pids out_names out_bundleIds out_count : bool)
    (os : Windows.ProcessTable) (utf8 : Windows.wstring -> string)
    (endpoint : ActiveProcesses.Endpoint) (thread : Windows.ComThread)
    (heap : ActiveProcesses.CHeap) :
  follows_com_rule (ActiveProcesses.CoCreateInstance endpoint) ->
  follows_com_rule (ActiveProcesses.GetDefaultAudioEndpoint endpoint) ->
  follows_com_rule (ActiveProcesses.Activate endpoint) ->
  follows_com_rule (ActiveProcesses.GetSessionEnumerator endpoint) ->
  (forall j,
     follows_com_rule (ActiveProcesses.GetSession (ActiveProcesses.sessions endpoint j)) /\
     follows_com_rule (ActiveProcesses.QueryInterface (ActiveProcesses.sessions endpoint j))) ->
  exists r,
    ActiveProcesses.mic_activity_get_active_processes hr_com
      out_pids out_names out_bundleIds out_count os utf8 endpoint thread heap = Some r /\
    held_after (ActiveProcesses.events r) [] = Some [].
Proof.
  intros Hc Hd Ha He Hs.
  destruct (active_processes_outcome hr_com out_pids out_names out_bundleIds out_count
              os utf8 endpoint thread heap) as (r & Hr & _).
  exists r. split; [done|]. by eapply events_balanced.
Qed.

Lemma active_processes_releases_every_interface_witness :
  exists r,
    ActiveProcesses.mic_activity_get_active_processes Windows.S_OK
      true true true true sample_processes ascii_text sample_endpoint
      fresh_thread empty_heap = Some r /\
    held_after (ActiveProcesses.events r) [] = Some [].
Proof.
  apply (active_processes_releases_every_interface Windows.S_OK true true true true
           sample_processes ascii_text sample_endpoint fresh_thread empty_heap).
  - intros H; vm_compute in H; discriminate.
  - intros H; vm_compute in H; discriminate.
  - intros H; vm_compute in H; discriminate.
  - intros H; vm_compute in H; discriminate.
  - intros j. unfold sample_endpoint, ActiveProcesses.sessions.
    split; intros H; revert H; unfold sample_session_at;
      repeat (destruct j as [|j]; [vm_compute; try done; discriminate|]);
      vm_compute; try done; discriminate.
Defined.

(** X20. [mic_activity_get_active_processes] always returns, with status 0
    or -1. It leaves the out-parameters unwritten exactly when one of the
    four out-pointers is null. Whenever it answers -1 there is nothing for
    the caller to free: the out-parameters are unwritten or all null with
    count 0, and the heap holds the blocks it held before the call. *)
Theorem active_processes_failure_leaves_nothing (hr_com : Z)
    (out_pids out_names out_bundleIds out_count : bool)
    (os : Windows.ProcessTable) (utf8 : Windows.wstring -> string)
    (endpoint : ActiveProcesses.Endpoint) (thread : Windows.ComThread)
    (heap : ActiveProcesses.CHeap) :
  exists r,
    ActiveProcesses.mic_activity_get_active_processes hr_com
      out_pids out_names out_bundleIds out_count os utf8 endpoint thread heap = Some r /\
    (ActiveProcesses.status r = 0 \/ ActiveProcesses.status r = -1) /\
    (ActiveProcesses.outputs r = None <->
     out_pids && out_names && out_bundleIds && out_count = false) /\
    (ActiveProcesses.status r = -1 ->
     (ActiveProcesses.outputs r = None \/
      ActiveProcesses.outputs r = Some ActiveProcesses.no_outputs) /\
     ActiveProcesses.blocks (ActiveProcesses.heap r) = ActiveProcesses.blocks heap).
Proof.
  destruct (active_processes_outcome hr_com out_pids out_names out_bundleIds out_count
              os utf8 endpoint thread heap)
    as (r & Hr & [(Hflags & Hst & Hout & Hheap & _)|
                  [(Hflags & Hst & Hout & Hheap)|
                   (Hflags & ev & N & B & o & Hne & Hst & Hout & _)]]).
  - exists r. split; [done|]. split; [by right|]. split.
    + split; [|done]. intros _.
      by destruct out_pids, out_names, out_bundleIds, out_count.
    + intros _. split; [by left|]. by rewrite Hheap.
  - exists r. split; [done|]. split; [done|]. split.
    + rewrite Hout. split; [done|].
      by destruct out_pids, out_names, out_bundleIds, out_count.
    + intros _. split; [by right|done].
  - exists r. split; [done|]. split; [by left|]. split.
    + rewrite Hout. split; [done|].
      by destruct out_pids, out_names, out_bundleIds, out_count.
    + intros Hfail. rewrite Hst in Hfail. done.
Qed.

(** X21. What [mic_activity_get_active_processes] allocates,
    [mic_activity_free_processes] gives back: for an endpoint with fewer
    than 2^31 sessions the call returns, and whenever it wrote the
    out-parameters, freeing them succeeds (no block is freed twice, none
    that is not allocated) and leaves the heap with exactly the blocks it
    held before the call, whichever [malloc] calls were refused. *)
Theorem active_processes_are_freed (hr_com : Z)
    (out_pids out_names out_bundleIds out_count : bool)
    (os : Windows.ProcessTable) (utf8 : Windows.wstring -> string)
    (endpoint : ActiveProcesses.Endpoint) (thread : Windows.ComThread)
    (heap : ActiveProcesses.CHeap) :
  snd (ActiveProcesses.GetCount endpoint) < 2 ^ 31 ->
  exists r,
    ActiveProcesses.mic_activity_get_active_processes hr_com
      out_pids out_names out_bundleIds out_count os utf8 endpoint thread heap = Some r /\
    forall o, ActiveProcesses.outputs r = Some o ->
      exists heap',
        ActiveProcesses.mic_activity_free_processes
          (ActiveProcesses.pids o) (ActiveProcesses.names o)
          (ActiveProcesses.bundleIds o) (ActiveProcesses.count o)
          (ActiveProcesses.heap r) = Some heap' /\
        ActiveProcesses.blocks heap' = ActiveProcesses.blocks heap.
Proof.
  intros Hcount.
  destruct (active_processes_outcome hr_com out_pids out_names out_bundleIds out_count
              os utf8 endpoint thread heap)
    as (r & Hr & [(_ & _ & Hout & _)|
                  [(_ & _ & Hout & Hheap)|
                   (_ & ev & N & B & o & Hne & _ & Hout & Hn & HN & HB & Hfill)]]).
  - exists r. split; [done|]. intros o Ho. congruence.
  - exists r. split; [done|]. intros o Ho. rewrite Hout in Ho. injection Ho as <-.
    exists (ActiveProcesses.heap r). split; [done|]. exact Hheap.
  - exists r. split; [done|]. intros o' Ho. rewrite Hout in Ho. injection Ho as <-.
    cbv zeta in Hn, HN, HB, Hfill.
    destruct (visit_sessions_spec os (ActiveProcesses.sessions endpoint)
                (Z.to_nat (snd (ActiveProcesses.GetCount endpoint))) 0
                {| ActiveProcesses.activePids := []; ActiveProcesses.activeNames := [];
                   ActiveProcesses.com_events := ev;
                   ActiveProcesses.closed_handles := [] |}) as (_ & _ & _ & Hlen).
    simpl in Hlen. rewrite Hn, wrap_int32_small by lia.
    by eapply free_processes_filling.
Qed.

Lemma active_processes_are_freed_witness :
  exists r,
    ActiveProcesses.mic_activity_get_active_processes Windows.S_OK
      true true true true sample_processes ascii_text sample_endpoint
      fresh_thread empty_heap = Some r /\
    forall o, ActiveProcesses.outputs r = Some o ->
      exists heap',
        ActiveProcesses.mic_activity_free_processes
          (ActiveProcesses.pids o) (ActiveProcesses.names o)
          (ActiveProcesses.bundleIds o) (ActiveProcesses.count o)
          (ActiveProcesses.heap r) = Some heap' /\
        ActiveProcesses.blocks heap' = ActiveProcesses.blocks empty_heap.
Proof.
  apply (active_processes_are_freed Windows.S_OK true true true true
           sample_processes ascii_text sample_endpoint fresh_thread empty_heap).
  reflexivity.
Defined.

Lemma visit_sessions_ignores_events (os : Windows.ProcessTable)
    (sessions : nat -> ActiveProcesses.AudioSession) (n : nat) :
  forall (i : nat) (acc acc' : ActiveProcesses.Collected),
  ActiveProcesses.activePids acc = ActiveProcesses.activePids acc' ->
  ActiveProcesses.activeNames acc = ActiveProcesses.activeNames acc' ->
  ActiveProcesses.activePids (ActiveProcesses.visit_sessions os sessions i n acc)
    = ActiveProcesses.activePids (ActiveProcesses.visit_sessions os sessions i n acc') /\
  ActiveProcesses.activeNames (ActiveProcesses.visit_sessions os sessions i n acc)
    = ActiveProcesses.activeNames (ActiveProcesses.visit_sessions os sessions i n acc').
Proof.
  induction n as [|n IH]; intros i acc acc' Hpids Hnames; simpl; [done|].
  destruct (visit_session_pids os i (sessions i) acc) as [H1 H2].
  destruct (visit_session_pids os i (sessions i) acc') as [H1' H2'].
  cbv zeta in H1, H2, H1', H2'.
  apply IH.
  - rewrite H1, H1', Hpids. done.
  - rewrite H2, H2', Hpids, Hnames. done.
Qed.

(** X22. What a caller of [mic_activity_get_active_processes] reads: the
    call returns, and when it hands out a pid array that is not null, the
    status is 0, the count is the number of processes the session loop
    collected, the pid array holds their pids in order (as [int32_t]), and
    the two pointer arrays have one element per process: each name is null
    (a refused [malloc]) or a text holding the converted name of the process
    at that index, each bundle id is null or an empty text. *)
Theorem active_processes_outputs_hold_the_processes (hr_com : Z)
    (out_pids out_names out_bundleIds out_count : bool)
    (os : Windows.ProcessTable) (utf8 : Windows.wstring -> string)
    (endpoint : ActiveProcesses.Endpoint) (thread : Windows.ComThread)
    (heap : ActiveProcesses.CHeap) :
  let found :=
    ActiveProcesses.activePids
      (ActiveProcesses.visit_sessions os (ActiveProcesses.sessions endpoint) 0
         (Z.to_nat (snd (ActiveProcesses.GetCount endpoint)))
         {| ActiveProcesses.activePids := []; ActiveProcesses.activeNames := [];
            ActiveProcesses.com_events := []; ActiveProcesses.closed_handles := [] |}) in
  exists r,
    ActiveProcesses.mic_activity_get_active_processes hr_com
      out_pids out_names out_bundleIds out_count os utf8 endpoint thread heap = Some r /\
    forall o, ActiveProcesses.outputs r = Some o -> ActiveProcesses.pids o <> 0 ->
      let memory := ActiveProcesses.blocks (ActiveProcesses.heap r) in
      ActiveProcesses.status r = 0 /\
      ActiveProcesses.count o = wrap_int32 (Z.of_nat (length found)) /\
      memory !! ActiveProcesses.pids o
        = Some (ActiveProcesses.Int32Array (Some <$> map wrap_int32 found)) /\
      exists namePtrs bundlePtrs,
        length namePtrs = length found /\ length bundlePtrs = length found /\
        memory !! ActiveProcesses.names o
          = Some (ActiveProcesses.PointerArray (Some <$> namePtrs)) /\
        memory !! ActiveProcesses.bundleIds o
          = Some (ActiveProcesses.PointerArray (Some <$> bundlePtrs)) /\
        (forall j p, namePtrs !! j = Some p -> p <> 0 ->
           exists pid, found !! j = Some pid /\
             memory !! p = Some (ActiveProcesses.Text (utf8 (display_name os pid)))) /\
        (forall j p, bundlePtrs !! j = Some p -> p <> 0 ->
           memory !! p = Some (ActiveProcesses.Text EmptyString)).
Proof.
  intros found.
  destruct (active_processes_outcome hr_com out_pids out_names out_bundleIds out_count
              os utf8 endpoint thread heap)
    as (r & Hr & [(_ & _ & Hout & _)|
                  [(_ & _ & Hout & Hheap)|
                   (_ & ev & N & B & o & Hne & Hst & Hout & Hn & HN & HB & Hfill)]]).
  - exists r. split; [done|]. intros o Ho. congruence.
  - exists r. split; [done|]. intros o Ho Hp. rewrite Hout in Ho. by injection Ho as <-.
  - exists r. split; [done|]. intros o' Ho _. rewrite Hout in Ho. injection Ho as <-.
    cbv zeta in Hn, HN, HB, Hfill.
    set (acc := {| ActiveProcesses.activePids := []; ActiveProcesses.activeNames := [];
                   ActiveProcesses.com_events := ev;
                   ActiveProcesses.closed_handles := [] |}) in *.
    destruct (visit_sessions_spec os (ActiveProcesses.sessions endpoint)
                (Z.to_nat (snd (ActiveProcesses.GetCount endpoint))) 0 acc)
      as (_ & _ & Hnames & _).
    specialize (Hnames eq_refl).
    destruct (visit_sessions_ignores_events os (ActiveProcesses.sessions endpoint)
                (Z.to_nat (snd (ActiveProcesses.GetCount endpoint))) 0 acc
                {| ActiveProcesses.activePids := []; ActiveProcesses.activeNames := [];
                   ActiveProcesses.com_events := [];
                   ActiveProcesses.closed_handles := [] |} eq_refl eq_refl)
      as [Hsame _].
    fold found in Hsame. rewrite Hnames, Hsame in Hfill. rewrite Hsame in Hn, HN, HB.
    destruct Hfill as (_ & _ & _ & H1 & H2 & H3 & _ & _ & _ & _ & Htexts & Hempty).
    simpl in H1, H2, H3. rewrite app_nil_r in H1, H2, H3.
    cbv zeta. split; [done|]. split; [done|]. split; [done|].
    exists N, B. split; [done|]. split; [done|]. split; [done|]. split; [done|].
    split.
    + intros j p Hj Hp. destruct (Htexts j p Hj Hp) as (s & Hs & Hblock).
      rewrite map_map in Hs.
      change (map (fun x => utf8 (display_name os x)) found)
        with ((fun x => utf8 (display_name os x)) <$> found) in Hs.
      rewrite list_lookup_fmap in Hs.
      destruct (found !! j) as [pid|]; [|done].
      exists pid. split; [done|]. simpl in Hs. by injection Hs as <-.
    + intros j p Hj Hp. apply Hempty. apply elem_of_nonnull. split; [done|].
      by apply list_elem_of_lookup_2 in Hj.
Qed.

(** X23. [mic_activity_free_device_ids] on an array of [count] strings, the
    ones that are not null being distinct blocks: every such string is freed
    once, then the array, no other block is touched, and no [free] is given
    an address that is not allocated. A null array is left alone, whatever
    the count. *)
Theorem mic_activity_free_device_ids_frees_the_list (deviceIds : Z) (ids : list Z)
    (heap : ActiveProcesses.CHeap) :
  deviceIds <> 0 ->
  ActiveProcesses.blocks heap !! deviceIds
    = Some (ActiveProcesses.PointerArray (Some <$> ids)) ->
  NoDup (nonnull ids) ->
  (forall p, p ∈ nonnull ids ->
     p <> deviceIds /\ is_Some (ActiveProcesses.blocks heap !! p)) ->
  (exists heap',
     ActiveProcesses.mic_activity_free_device_ids deviceIds (Z.of_nat (length ids)) heap
       = Some heap' /\
     (forall k, k = deviceIds \/ k ∈ nonnull ids ->
        ActiveProcesses.blocks heap' !! k = None) /\
     (forall k, k <> deviceIds -> k ∉ nonnull ids ->
        ActiveProcesses.blocks heap' !! k = ActiveProcesses.blocks heap !! k)) /\
  (forall count, ActiveProcesses.mic_activity_free_device_ids 0 count heap = Some heap).
Proof.
  intros Hnz Harray Hnd Hown. split; [|done].
  unfold ActiveProcesses.mic_activity_free_device_ids.
  by apply free_pointer_array_spec.
Qed.

Lemma mic_activity_free_device_ids_frees_the_list_witness :
  (exists heap',
     ActiveProcesses.mic_activity_free_device_ids 10 (Z.of_nat (length [20; 0; 30]))
       sample_id_heap = Some heap' /\
     (forall k, k = 10 \/ k ∈ nonnull [20; 0; 30] ->
        ActiveProcesses.blocks heap' !! k = None) /\
     (forall k, k <> 10 -> k ∉ nonnull [20; 0; 30] ->
        ActiveProcesses.blocks heap' !! k = ActiveProcesses.blocks sample_id_heap !! k)) /\
  (forall count,
     ActiveProcesses.mic_activity_free_device_ids 0 count sample_id_heap
       = Some sample_id_heap).
Proof.
  apply (mic_activity_free_device_ids_frees_the_list 10 [20; 0; 30] sample_id_heap).
  - lia.
  - reflexivity.
  - change (nonnull [20; 0; 30]) with [20; 30].
    apply NoDup_cons. split; [|apply NoDup_singleton].
    intros Hin%list_elem_of_singleton. lia.
  - change (nonnull [20; 0; 30]) with [20; 30].
    intros p [->|[->|Hp%elem_of_nil]%elem_of_cons]%elem_of_cons; [| |done].
    + split; [lia|]. by eexists.
    + split; [lia|]. by eexists.
Defined.
